(** * SpriteGenerator: the layout engine, the URL codec and the code generator

    A shallow embedding of [src/App.jsx]: [repackSprites] (row packing of
    pasted images), [serializeSprites] / [deserializeSprites] (the URL hash
    format [v1|name:x,y,w,h;...]) and [generateCode] (scss / css / json
    output), followed by the properties the specification states about
    them; then the handlers around them (renaming, deleting, pasting,
    exploding, uploading, clearing), the loading of the URL hash, the
    saved session, the drawing of the composite and the grid of analyze
    mode, with properties of their own. *)

From Stdlib Require Import ZArith List String Ascii Bool Arith Lia.
From Stdlib Require Import Decimal DecimalString DecimalPos DecimalN.
From Stdlib Require Import Reals Lra.
From Stdlib Require Import Sorted Permutation.
From Stdlib Require QArith Qround.
Import ListNotations.
Local Open Scope string_scope.
Local Open Scope Z_scope.

Set Implicit Arguments.

(* ================================================================== *)
(** * JavaScript strings *)

(** Strings are sequences of code units; every delimiter the program looks
    for is ASCII, so a string is modelled by Stdlib's [string]. *)
Module JsString.

(** [s.startsWith(p)] *)
Fixpoint startsWith (s p : string) {struct p} : bool :=
  match p with
  | EmptyString => true
  | String a p' =>
      match s with
      | EmptyString => false
      | String b s' => Ascii.eqb b a && startsWith s' p'
      end
  end.

(** [s.slice(n)] and [s.substring(n)] for a constant [n >= 0]: the string
    without its first [n] code units. *)
Fixpoint drop (n : nat) (s : string) : string :=
  match n, s with
  | O, _ => s
  | S _, EmptyString => EmptyString
  | S n', String _ t => drop n' t
  end.

(** [!s] on a string: only the empty string is falsy. *)
Definition isEmpty (s : string) : bool :=
  match s with EmptyString => true | _ => false end.

(** [s.split(sep)] for a one-character separator. The result is never
    empty: [''.split(';')] is [['']]. *)
Fixpoint split (sep : ascii) (s : string) : list string :=
  match s with
  | EmptyString => [EmptyString]
  | String c t =>
      if Ascii.eqb c sep then EmptyString :: split sep t
      else match split sep t with
           | h :: r => String c h :: r
           | [] => [String c EmptyString]
           end
  end.

(** [l.join(sep)] *)
Definition join (sep : string) (l : list string) : string :=
  String.concat sep l.

(** [s.replace(/[...]/g, by)] for a character class given as a predicate. *)
Fixpoint replaceAll (cls : ascii -> bool) (by_ : ascii) (s : string) : string :=
  match s with
  | EmptyString => EmptyString
  | String c t => String (if cls c then by_ else c) (replaceAll cls by_ t)
  end.

(** Does the character occur in the string? *)
Fixpoint contains (c : ascii) (s : string) : bool :=
  match s with
  | EmptyString => false
  | String d t => Ascii.eqb d c || contains c t
  end.

(** The number a non-empty string of decimal digits denotes, and the
    decimal digits of a number. *)
Definition parseDigits (s : string) : option N :=
  option_map N.of_uint (NilZero.uint_of_string s).

Definition digitsOf (n : N) : string :=
  NilZero.string_of_uint (N.to_uint n).

(** Decimal digits, and strings made of them. *)
Definition isDigit (c : ascii) : bool :=
  let n := N_of_ascii c in ((48 <=? n) && (n <=? 57))%N.

Fixpoint allDigits (s : string) : bool :=
  match s with
  | EmptyString => true
  | String c t => isDigit c && allDigits t
  end.

(** [a || b] on strings that may be [undefined]: the first operand when it
    is truthy (defined and non-empty), else the second. *)
Definition orElse (a : option string) (b : string) : string :=
  match a with
  | Some s => if isEmpty s then b else s
  | None => b
  end.

End JsString.

(* ================================================================== *)
(** * JavaScript numbers *)

(** The codec and the code generator use four built-ins on numbers: the
    conversion [Number(s)] of a string, the tests [isNaN(v)] and
    [isFinite(v)] (the latter inside [JSON.stringify]), and the conversion
    of a number to a string in a template literal. They are the
    language's, not the program's: the program is embedded over any
    implementation of them, and [DecNumber] below is one that runs. *)
Class JsNumber (num : Type) := {
  Number : string -> num;
  isNaN : num -> bool;
  isFinite : num -> bool;
  numToString : num -> string
}.

(** ** Numbers as decimals

    An implementation of the interface that runs: a number is [NaN], an
    infinity, or a decimal [m / 10^scale] kept in lowest terms. [ofString]
    follows the grammar of string-to-number conversion (white space, sign,
    [Infinity], decimal literals with fraction and exponent, and the
    prefixes [0x], [0o], [0b]; of the white space, the ASCII part); [toString] follows the number-to-string
    algorithm for radix 10. Values are exact, where JavaScript rounds to a
    double: the two agree on literals of up to 15 significant digits within
    the range of a double. *)
Module DecNumber.
Import JsString.

Inductive t :=
| NaN
| Infinity (negative : bool)
| Finite (m : Z) (scale : nat).

Definition isWhiteSpace (c : ascii) : bool :=
  let n := N_of_ascii c in
  ((9 <=? n) && (n <=? 13) || (n =? 32))%N.

Fixpoint trimStart (s : string) : string :=
  match s with
  | EmptyString => EmptyString
  | String c t => if isWhiteSpace c then trimStart t else s
  end.

Fixpoint trimEnd (s : string) : string :=
  match s with
  | EmptyString => EmptyString
  | String c t =>
      let t' := trimEnd t in
      if isWhiteSpace c && isEmpty t' then EmptyString else String c t'
  end.

(** [m / 10^scale] with the factors of ten it can lose removed. *)
Fixpoint normalize (m : Z) (scale : nat) : t :=
  match scale with
  | O => Finite m 0
  | S k => if m mod 10 =? 0 then normalize (m / 10) k else Finite m scale
  end.

(** [m * 10^e] *)
Definition scaled (m e : Z) : t :=
  if 0 <=? e then Finite (m * 10 ^ e) 0 else normalize m (Z.to_nat (- e)).

(** The string before the first character of a class, and the string
    after it when there is one. *)
Fixpoint breakAt (p : ascii -> bool) (s : string) : string * option string :=
  match s with
  | EmptyString => (EmptyString, None)
  | String c t =>
      if p c then (EmptyString, Some t)
      else let '(a, b) := breakAt p t in (String c a, b)
  end.

Definition parseExponent (s : string) : option Z :=
  match s with
  | String "+" t => option_map Z.of_N (parseDigits t)
  | String "-" t => option_map (fun n => - Z.of_N n) (parseDigits t)
  | _ => option_map Z.of_N (parseDigits s)
  end.

(** An unsigned decimal literal: [Infinity], [d.d], [d.], [.d] or [d],
    the last four with an optional exponent. *)
Definition parseUnsigned (s : string) : option t :=
  if String.eqb s "Infinity" then Some (Infinity false)
  else
    let '(mant, expo) := breakAt (fun c => Ascii.eqb c "e" || Ascii.eqb c "E") s in
    let '(ip, fpo) := breakAt (Ascii.eqb ".") mant in
    let fp := match fpo with Some f => f | None => EmptyString end in
    match parseDigits (ip ++ fp),
          match expo with Some e => parseExponent e | None => Some 0 end with
    | Some m, Some e => Some (scaled (Z.of_N m) (e - Z.of_nat (String.length fp)))
    | _, _ => None
    end.

Definition radixDigit (c : ascii) : option N :=
  let n := N_of_ascii c in
  if ((48 <=? n) && (n <=? 57))%N then Some (n - 48)%N
  else if ((97 <=? n) && (n <=? 102))%N then Some (n - 87)%N
  else if ((65 <=? n) && (n <=? 70))%N then Some (n - 55)%N
  else None.

Fixpoint parseRadixFrom (radix acc : N) (s : string) : option N :=
  match s with
  | EmptyString => Some acc
  | String c t =>
      match radixDigit c with
      | Some d => if (d <? radix)%N then parseRadixFrom radix (radix * acc + d)%N t
                  else None
      | None => None
      end
  end.

(** The digits after [0x], [0o] or [0b]: at least one. *)
Definition parseRadix (radix : N) (s : string) : t :=
  if isEmpty s then NaN
  else match parseRadixFrom radix 0 s with
       | Some n => Finite (Z.of_N n) 0
       | None => NaN
       end.

Definition negate (v : t) : t :=
  match v with
  | NaN => NaN
  | Infinity b => Infinity (negb b)
  | Finite m k => Finite (- m) k
  end.

Definition orNaN (v : option t) : t :=
  match v with Some n => n | None => NaN end.

(** [Number(s)] *)
Definition ofString (s : string) : t :=
  match trimEnd (trimStart s) with
  | EmptyString => Finite 0 0
  | String "0" (String "x" t) | String "0" (String "X" t) => parseRadix 16 t
  | String "0" (String "o" t) | String "0" (String "O" t) => parseRadix 8 t
  | String "0" (String "b" t) | String "0" (String "B" t) => parseRadix 2 t
  | String "+" t => orNaN (parseUnsigned t)
  | String "-" t => negate (orNaN (parseUnsigned t))
  | s' => orNaN (parseUnsigned s')
  end.

Fixpoint stripZeros (s : string) : string :=
  match s with
  | EmptyString => EmptyString
  | String c t =>
      let t' := stripZeros t in
      if Ascii.eqb c "0" && isEmpty t' then EmptyString else String c t'
  end.

Fixpoint zeros (n : nat) : string :=
  match n with
  | O => EmptyString
  | S k => String "0" (zeros k)
  end.

(** The digits of a positive decimal: with [digits] the significant
    digits and [n] the position of the point, plain notation for
    [-6 < n <= 21] and exponent notation beyond. *)
Definition toStringPositive (m : Z) (scale : nat) : string :=
  let all := digitsOf (Z.to_N m) in
  let n := Z.of_nat (String.length all) - Z.of_nat scale in
  let digits := stripZeros all in
  let k := Z.of_nat (String.length digits) in
  if (k <=? n) && (n <=? 21) then digits ++ zeros (Z.to_nat (n - k))
  else if (0 <? n) && (n <=? 21)
  then String.substring 0 (Z.to_nat n) digits ++ "." ++ drop (Z.to_nat n) digits
  else if (-6 <? n) && (n <=? 0)
  then "0." ++ zeros (Z.to_nat (- n)) ++ digits
  else
    let e := n - 1 in
    let exponent := (if 0 <=? e then "+" else "-") ++ digitsOf (Z.abs_N e) in
    match digits with
    | EmptyString => EmptyString
    | String c EmptyString => String c ("e" ++ exponent)
    | String c rest => String c ("." ++ rest ++ "e" ++ exponent)
    end.

(** [`${v}`] *)
Definition toString (v : t) : string :=
  match v with
  | NaN => "NaN"
  | Infinity false => "Infinity"
  | Infinity true => "-Infinity"
  | Finite m scale =>
      if m =? 0 then "0"
      else if m <? 0 then "-" ++ toStringPositive (- m) scale
      else toStringPositive m scale
  end.

Definition is_nan (v : t) : bool :=
  match v with NaN => true | _ => false end.

Definition is_finite (v : t) : bool :=
  match v with Finite _ _ => true | _ => false end.

(** An integer as a number. *)
Definition ofZ (z : Z) : t := Finite z 0.

End DecNumber.

#[export] Instance decNumber : JsNumber DecNumber.t := {
  Number := DecNumber.ofString;
  isNaN := DecNumber.is_nan;
  isFinite := DecNumber.is_finite;
  numToString := DecNumber.toString
}.

(* ================================================================== *)
(** * Data *)

(** A sprite, the object [{ id, name, x, y, w, h }]. Identifiers are opaque
    to every function here; coordinates are numbers. *)
Record Sprite (Id Num : Type) := mkSprite {
  id : Id;
  name : string;
  x : Num;
  y : Num;
  w : Num;
  h : Num
}.

Arguments mkSprite {Id Num}.
Arguments id {Id Num}.
Arguments name {Id Num}.
Arguments x {Id Num}.
Arguments y {Id Num}.
Arguments w {Id Num}.
Arguments h {Id Num}.

(** The size of the composite image, [{ width, height }]. *)
Record Dimensions (Num : Type) := mkDimensions {
  width : Num;
  height : Num
}.

Arguments mkDimensions {Num}.
Arguments width {Num}.
Arguments height {Num}.

(** The part of a sprite that the URL format carries. *)
Definition tuple {Id Num} (s : Sprite Id Num) : string * Num * Num * Num * Num :=
  (name s, x s, y s, w s, h s).

(* ================================================================== *)
(** * The URL hash codec *)

Module Codec.
Import JsString.

Section WithNumbers.
Context {num : Type} `{JsNumber num}.

(** The character class [[:;,|]]. *)
Definition reserved (c : ascii) : bool :=
  Ascii.eqb c ":" || Ascii.eqb c ";" || Ascii.eqb c "," || Ascii.eqb c "|".

(** One record of [serializeSprites]:
    [`${cleanName}:${s.x},${s.y},${s.w},${s.h}`]. *)
Definition serializeSprite {Id} (s : Sprite Id num) : string :=
  let cleanName := replaceAll reserved "-" (name s) in
  cleanName ++ ":" ++ numToString (x s) ++ "," ++ numToString (y s)
            ++ "," ++ numToString (w s) ++ "," ++ numToString (h s).

(** [serializeSprites]: the empty string for no sprites, else [v1|]
    followed by the records joined with [;]. *)
Definition serializeSprites {Id} (spritesToSerialize : list (Sprite Id num)) : string :=
  match spritesToSerialize with
  | [] => ""
  | _ =>
      let data := join ";" (map serializeSprite spritesToSerialize) in
      "v1|" ++ data
  end.

(** The callback of [items.map] in [deserializeSprites]: [None] is the
    [null] that [filter(Boolean)] removes. [now] is [Date.now()] as read
    while the record at [index] is processed. *)
Definition deserializeItem (now : nat -> Z) (index : nat) (item : string)
  : option (Sprite Z num) :=
  let parts := split ":" item in
  match nth_error parts 0, nth_error parts 1 with
  | Some name, Some coords =>
      if isEmpty name || isEmpty coords then None
      else
        let fields := map Number (split "," coords) in
        let x := nth_error fields 0 in
        let y := nth_error fields 1 in
        let w := nth_error fields 2 in
        let h := nth_error fields 3 in
        match x, y, w, h with
        | Some x, Some y, Some w, Some h =>
            if isNaN x || isNaN y || isNaN w || isNaN h then None
            else Some (mkSprite (now index + Z.of_nat index) name x y w h)
        | _, _, _, _ => None
        end
  | _, _ => None
  end.

(** [items.map((item, index) => ...)] followed by [filter(Boolean)]. *)
Fixpoint deserializeItems (now : nat -> Z) (index : nat) (items : list string)
  : list (Sprite Z num) :=
  match items with
  | [] => []
  | item :: rest =>
      match deserializeItem now index item with
      | Some s => s :: deserializeItems now (S index) rest
      | None => deserializeItems now (S index) rest
      end
  end.

(** [deserializeSprites(hash)], [hash] being [window.location.hash]. *)
Definition deserializeSprites (now : nat -> Z) (hash : string)
  : list (Sprite Z num) :=
  if isEmpty hash || negb (startsWith hash "#") then []
  else
    let content := drop 1 hash in
    if negb (startsWith content "v1|") then []
    else
      let dataStr := drop 3 content in
      if isEmpty dataStr then []
      else deserializeItems now 0 (split ";" dataStr).

(** ** Vocabulary of the statements about the codec *)

(** The text of one record, [name:x,y,w,h], from its five fields. *)
Definition recordText (name fx fy fw fh : string) : string :=
  name ++ ":" ++ fx ++ "," ++ fy ++ "," ++ fw ++ "," ++ fh.

(** Does a string contain a character of the class [[:;,|]]? *)
Fixpoint hasReserved (s : string) : bool :=
  match s with
  | EmptyString => false
  | String c t => reserved c || hasReserved t
  end.

(** A field that none of the three splits cuts. *)
Definition delimiterFree (s : string) : Prop :=
  contains ":" s = false /\ contains ";" s = false /\ contains "," s = false.

(** A piece between colons: the splits at [;] and at [:] do not cut it. *)
Definition piece (s : string) : Prop :=
  contains ":" s = false /\ contains ";" s = false.

(** The text of a record from the pieces the decoder cuts it into: the
    name before the first colon, the fields between the commas of the
    part that follows, and the pieces after a second colon, if any. Every
    record with a colon is of this form, in one way. *)
Definition recordOf (name : string) (fields more : list string) : string :=
  join ":" (name :: join "," fields :: more).

(** A number that survives being printed and read back: it is not
    [NaN], [Number] inverts its printed form, and that form has no
    delimiter in it (as the printed form of a number never has). *)
Definition survives (v : num) : Prop :=
  isNaN v = false
  /\ Number (numToString v) = v
  /\ delimiterFree (numToString v).

(** A sprite that the format can carry. *)
Definition carried {Id} (s : Sprite Id num) : Prop :=
  name s <> EmptyString
  /\ hasReserved (name s) = false
  /\ survives (x s) /\ survives (y s) /\ survives (w s) /\ survives (h s).

(** The sprites a single record decodes to: none or one. *)
Definition decodeRecord (now : nat -> Z) (r : string) : list (Sprite Z num) :=
  deserializeSprites now ("#v1|" ++ r).

End WithNumbers.

(** A decimal number that is an integer of at most 21 digits, the integers
    that print in plain notation. *)
Definition integral (v : DecNumber.t) : Prop :=
  exists z, v = DecNumber.ofZ z
            /\ (String.length (digitsOf (Z.abs_N z)) <= 21)%nat.

(** A sprite with a clean, non-empty name and integer coordinates. *)
Definition plain {Id} (s : Sprite Id DecNumber.t) : Prop :=
  name s <> EmptyString
  /\ hasReserved (name s) = false
  /\ integral (x s) /\ integral (y s) /\ integral (w s) /\ integral (h s).

End Codec.

(* ================================================================== *)
(** * The layout engine of builder mode *)

(** Item sizes are pixel counts ([img.width], [img.height], or the rounded
    sizes of drawn sprites), so the cursor arithmetic of [repackSprites] is
    integer arithmetic, modelled on [Z]; it is exact in JavaScript's numbers
    below 2^53. *)
Module Packing.
Import JsString.

Section WithHandles.
(** Identifiers ([Date.now() + Math.random()]) and decoded images are
    only ever copied by the layout engine. *)
Variables Id Img : Type.

(** A build item: [{ id, name, tag, w, h, imgElement, originalSrc }]. *)
Record Item := mkItem {
  item_id : Id;
  item_name : string;
  item_tag : option string;
  item_w : Z;
  item_h : Z;
  imgElement : option Img;
  originalSrc : string
}.

(** [{ ...item, x: currentX, y: currentY }] *)
Record Positioned := mkPositioned {
  item : Item;
  pos_x : Z;
  pos_y : Z
}.

(** [items.reduce((acc, item) => acc + (item.w * item.h), 0)] *)
Definition totalArea (items : list Item) : Z :=
  fold_left (fun acc it => acc + item_w it * item_h it) items 0.

(** [Math.max(512, Math.sqrt(totalArea) * 1.5)], as far as a comparison
    with an integer can tell: the cursor is an integer, and an integer
    exceeds a real exactly when it exceeds its floor; the floor of
    [sqrt(a) * 1.5] is the integer square root of [9a/4]. The rounding of
    the two double operations does not move the comparison: an integer
    [n] either equals [sqrt(a) * 1.5] (then [sqrt(a) = 2n/3] is an
    integer and both operations are exact) or is at least
    [1 / (4 * (n + sqrt(a) * 1.5))] away from it, since [4n^2 - 9a] is an
    integer. A negative area has the square root [NaN], written [None],
    and [Math.max] and [Math.min] propagate it. [maxWidth_real] below
    relates this to the formula over the reals. *)
Definition roughWidth (area : Z) : option Z :=
  if area <? 0 then None
  else Some (Z.max 512 (Z.sqrt (9 * area / 4))).

(** [Math.min(4096, roughWidth)] *)
Definition maxWidth (area : Z) : option Z :=
  option_map (Z.min 4096) (roughWidth area).

(** The same width limit over the reals, as the specification writes
    it: [min(4096, max(512, sqrt(totalArea) * 1.5))]. *)
Definition targetWidth (area : Z) : R :=
  Rmin 4096 (Rmax 512 (sqrt (IZR area) * 1.5)).

(** [const padding = 2] *)
Definition padding : Z := 2.

(** The variables the callback of [items.map] updates. *)
Record Cursor := mkCursor {
  currentX : Z;
  currentY : Z;
  rowHeight : Z;
  maxCanvasWidth : Z
}.

Definition startCursor : Cursor := mkCursor 0 0 0 0.

(** [currentX + item.w > maxWidth && currentX > 0]; a comparison with
    [NaN] is false. *)
Definition needsWrap (limit : option Z) (c : Cursor) (it : Item) : bool :=
  match limit with
  | Some m => (m <? currentX c + item_w it) && (0 <? currentX c)
  | None => false
  end.

(** The cursor after the wrap: [currentX = 0],
    [currentY += rowHeight + padding], [rowHeight = 0]. *)
Definition wrap (c : Cursor) : Cursor :=
  mkCursor 0 (currentY c + (rowHeight c + padding)) 0 (maxCanvasWidth c).

(** One call of the callback of [items.map]: the positioned item and the
    updated cursor. *)
Definition placeItem (limit : option Z) (c : Cursor) (it : Item)
  : Positioned * Cursor :=
  let c1 := if needsWrap limit c it then wrap c else c in
  let pos := mkPositioned it (currentX c1) (currentY c1) in
  let nextX := currentX c1 + (item_w it + padding) in
  (pos, mkCursor nextX
                 (currentY c1)
                 (Z.max (rowHeight c1) (item_h it))
                 (Z.max (maxCanvasWidth c1) nextX)).

(** [items.map(item => ...)] with the cursor threaded through. *)
Fixpoint placeItems (limit : option Z) (c : Cursor) (items : list Item)
  : list Positioned * Cursor :=
  match items with
  | [] => ([], c)
  | it :: rest =>
      let '(pos, c1) := placeItem limit c it in
      let '(more, c2) := placeItems limit c1 rest in
      (pos :: more, c2)
  end.

(** [{ id: item.id, name: item.tag || item.name, x, y, w, h }] *)
Definition toSprite (p : Positioned) : Sprite Id Z :=
  mkSprite (item_id (item p))
           (orElse (item_tag (item p)) (item_name (item p)))
           (pos_x p) (pos_y p)
           (item_w (item p)) (item_h (item p)).

(** What [repackSprites] computes for a non-empty list. *)
Record Layout := mkLayout {
  positionedItems : list Positioned;
  finalWidth : Z;
  finalHeight : Z;
  newSprites : list (Sprite Id Z)
}.

Definition layout (items : list Item) : Layout :=
  let limit := maxWidth (totalArea items) in
  let '(positioned, c) := placeItems limit startCursor items in
  mkLayout positioned
           (maxCanvasWidth c)
           (currentY c + rowHeight c)
           (map toSprite positioned).

(** The state [repackSprites] writes: [sprites] and [imageDimensions]
    through their setters, and the calls of [drawComposite] it leaves
    with [setTimeout]. *)
Record Session := mkSession {
  sprites : list (Sprite Id Z);
  imageDimensions : Dimensions Z;
  pendingDraws : list (list Positioned * Z * Z)
}.

(** [repackSprites(items)]: nothing at all for an empty list. *)
Definition repackSprites (items : list Item) (st : Session) : Session :=
  match items with
  | [] => st
  | _ =>
      let l := layout items in
      mkSession (newSprites l)
                (mkDimensions (finalWidth l) (finalHeight l))
                (pendingDraws st
                   ++ [(positionedItems l, finalWidth l, finalHeight l)])
  end.

(** Two sprites overlap when their interiors meet. *)
Definition overlap (a b : Sprite Id Z) : bool :=
  (x a <? x b + w b) && (x b <? x a + w a)
  && (y a <? y b + h b) && (y b <? y a + h a).

(** [m] is the maximum of the list [l]. *)
Definition is_max (m : Z) (l : list Z) : Prop :=
  In m l /\ Forall (fun v => v <= m) l.

(** Sizes as images have them. *)
Definition sized (it : Item) : Prop := 0 <= item_w it /\ 0 <= item_h it.

(** What a run of placements guarantees about an item placed after
    cursor [c] when the cursor ends at [c']: it lies right of [c] in its
    row or below that row, and inside the final canvas. *)
Definition placedFrom (c c' : Cursor) (p : Positioned) : Prop :=
  sized (item p)
  /\ 0 <= pos_x p
  /\ ((pos_y p = currentY c /\ currentX c <= pos_x p)
      \/ currentY c + rowHeight c + padding <= pos_y p)
  /\ currentY c <= pos_y p
  /\ pos_x p + item_w (item p) + padding <= maxCanvasWidth c'
  /\ pos_y p + item_h (item p) <= currentY c' + rowHeight c'.

Definition apart (a b : Positioned) : Prop :=
  overlap (toSprite a) (toSprite b) = false.





End WithHandles.

Arguments mkPositioned {Id Img}.
Arguments startCursor : clear implicits.
Arguments padding : clear implicits.
End Packing.

(* ================================================================== *)
(** * The code generator *)

Module CodeGen.
Import JsString.

(** The line feed and the double quote. *)
Definition nl : string := String (ascii_of_nat 10) EmptyString.
Definition dq : string := String (ascii_of_nat 34) EmptyString.

(** ** Objects with string keys, as [JSON.stringify] sees them *)

(** An array index is the canonical decimal form of an integer from 0 to
    2^32 - 2; an object lists such keys first, in ascending order. *)
Definition arrayIndex (key : string) : option N :=
  match parseDigits key with
  | Some n =>
      if String.eqb (digitsOf n) key && (n <=? 4294967294)%N
      then Some n else None
  | None => None
  end.

(** [map[key] = value] on an object made by [{}]: an existing key keeps its
    place and takes the new value, a new key goes last, and the key
    [__proto__] sets the prototype, not a property. *)
Fixpoint assign {V} (key : string) (value : V) (obj : list (string * V))
  : list (string * V) :=
  match obj with
  | [] => [(key, value)]
  | (k, v) :: rest =>
      if String.eqb k key then (k, value) :: rest
      else (k, v) :: assign key value rest
  end.

Definition setProperty {V} (key : string) (value : V) (obj : list (string * V))
  : list (string * V) :=
  if String.eqb key "__proto__" then obj else assign key value obj.

(** Insertion of an indexed entry into a list kept in ascending order. *)
Fixpoint insertIndexed {V} (n : N) (e : string * V) (l : list (N * (string * V)))
  : list (N * (string * V)) :=
  match l with
  | [] => [(n, e)]
  | (m, f) :: rest =>
      if (n <=? m)%N then (n, e) :: l else (m, f) :: insertIndexed n e rest
  end.

(** The own properties in enumeration order: array indices ascending, then
    the other keys in the order of their creation. *)
Definition ownProperties {V} (obj : list (string * V)) : list (string * V) :=
  let indexed :=
    fold_right (fun e acc =>
                  match arrayIndex (fst e) with
                  | Some n => insertIndexed n e acc
                  | None => acc
                  end) [] obj in
  let named :=
    filter (fun e => match arrayIndex (fst e) with
                     | Some _ => false
                     | None => true
                     end) obj in
  map snd indexed ++ named.

(** ** [JSON.stringify] *)

Definition hexDigit (n : N) : ascii :=
  ascii_of_N (if (n <? 10)%N then 48 + n else 87 + n)%N.

(** The escape of one code unit inside a JSON string. *)
Definition quoteChar (c : ascii) : string :=
  let n := N_of_ascii c in
  if (n =? 8)%N then "\b"
  else if (n =? 9)%N then "\t"
  else if (n =? 10)%N then "\n"
  else if (n =? 12)%N then "\f"
  else if (n =? 13)%N then "\r"
  else if (n =? 34)%N then "\" ++ dq
  else if (n =? 92)%N then "\\"
  else if (n <? 32)%N
       then "\u00" ++ String (hexDigit (n / 16)) (String (hexDigit (n mod 16)) EmptyString)
       else String c EmptyString.

Fixpoint quoteBody (s : string) : string :=
  match s with
  | EmptyString => EmptyString
  | String c t => quoteChar c ++ quoteBody t
  end.

(** [QuoteJSONString] *)
Definition quote (s : string) : string := dq ++ quoteBody s ++ dq.

Section WithNumbers.
Context {num : Type} `{JsNumber num}.

(** A number in JSON: [null] unless it is finite. *)
Definition jsonNumber (v : num) : string :=
  if isFinite v then numToString v else "null".

(** An object whose values are numbers, at the given indentation, with
    the gap of two spaces that [JSON.stringify(_, null, 2)] uses. *)
Definition jsonNumberObject (indent : string) (obj : list (string * num)) : string :=
  match ownProperties obj with
  | [] => "{}"
  | props =>
      let inner := indent ++ "  " in
      "{" ++ nl ++ inner
          ++ join ("," ++ nl ++ inner)
                  (map (fun e => quote (fst e) ++ ": " ++ jsonNumber (snd e)) props)
          ++ nl ++ indent ++ "}"
  end.

(** [JSON.stringify(map, null, 2)] for an object whose values are
    objects of numbers. *)
Definition jsonStringify (obj : list (string * list (string * num))) : string :=
  match ownProperties obj with
  | [] => "{}"
  | props =>
      "{" ++ nl ++ "  "
          ++ join ("," ++ nl ++ "  ")
                  (map (fun e => quote (fst e) ++ ": " ++ jsonNumberObject "  " (snd e)) props)
          ++ nl ++ "}"
  end.

(** ** [generateCode] *)

Definition placeholder : string := "/* Paste images to generate Mixins */".

Section Templates.
Variable Id : Type.
Variable sprites : list (Sprite Id num).
Variable imageDimensions : Dimensions num.

(** The [scss] branch. *)
Definition scssEntry (s : Sprite Id num) : string :=
  "  '" ++ name s ++ "': (x: -" ++ numToString (x s) ++ "px, y: -"
        ++ numToString (y s) ++ "px, w: " ++ numToString (w s)
        ++ "px, h: " ++ numToString (h s) ++ "px)," ++ nl.

Definition scssCode : string :=
  let width := numToString (width imageDimensions) in
  let height := numToString (height imageDimensions) in
  let code :=
    "/* Generated by Sprite Builder */" ++ nl
    ++ "/* Binary Source Size: " ++ width ++ "x" ++ height ++ "px */" ++ nl
    ++ nl
    ++ "// 1. Config Map" ++ nl
    ++ "$sprite-image: 'sprites.png';" ++ nl
    ++ "$sprite-width: " ++ width ++ "px;" ++ nl
    ++ "$sprite-height: " ++ height ++ "px;" ++ nl
    ++ nl
    ++ "$sprites: (" ++ nl in
  let code := fold_left (fun code s => code ++ scssEntry s) sprites code in
  let code :=
    code
    ++ ");" ++ nl ++ nl
    ++ "// 2. Mixin: Reference by Tag Name" ++ nl
    ++ "@mixin sprite($name) {" ++ nl
    ++ "  $icon: map-get($sprites, $name);" ++ nl
    ++ "  background-image: url(#{$sprite-image});" ++ nl
    ++ "  background-repeat: no-repeat;" ++ nl
    ++ "  background-size: $sprite-width $sprite-height;" ++ nl
    ++ "  background-position: map-get($icon, 'x') map-get($icon, 'y');" ++ nl
    ++ "  width: map-get($icon, 'w');" ++ nl
    ++ "  height: map-get($icon, 'h');" ++ nl
    ++ "  " ++ nl
    ++ "  // UX: Disable default touch actions for better gesture control" ++ nl
    ++ "  touch-action: none;" ++ nl
    ++ "}" ++ nl ++ nl in
  code
  ++ "// 3. Highlight Helper (GPU Accelerated)" ++ nl
  ++ "// Perfect for click/touch feedback on transparent PNGs" ++ nl
  ++ "@mixin sprite-highlight($scale: 1.1) {" ++ nl
  ++ "  filter: drop-shadow(0 4px 6px rgba(0,0,0,0.2)) brightness(1.1);" ++ nl
  ++ "  transform: scale($scale);" ++ nl
  ++ "  transition: transform 0.1s ease, filter 0.1s ease;" ++ nl
  ++ "}" ++ nl ++ nl
  ++ "// Usage:" ++ nl
  ++ "// .btn-play { @include sprite('start-btn'); }" ++ nl
  ++ "// .btn-play:active { @include sprite-highlight; }".

(** The [css] branch. *)
Definition cssEntry (s : Sprite Id num) : string :=
  "/* Tag: " ++ name s ++ " */" ++ nl
  ++ "." ++ name s ++ " {" ++ nl
  ++ "  width: " ++ numToString (w s) ++ "px;" ++ nl
  ++ "  height: " ++ numToString (h s) ++ "px;" ++ nl
  ++ "  background-position: -" ++ numToString (x s) ++ "px -"
  ++ numToString (y s) ++ "px;" ++ nl
  ++ "}" ++ nl.

Definition cssCode : string :=
  let code :=
    "/* Base Class */" ++ nl
    ++ ".sprite {" ++ nl
    ++ "  background-image: url('sprites.png');" ++ nl
    ++ "  background-repeat: no-repeat;" ++ nl
    ++ "  display: inline-block;" ++ nl
    ++ "  background-size: " ++ numToString (width imageDimensions) ++ "px "
    ++ numToString (height imageDimensions) ++ "px;" ++ nl
    ++ "}" ++ nl ++ nl in
  fold_left (fun code s => code ++ cssEntry s) sprites code.

(** The [json] branch. *)
Definition jsonCode : string :=
  let map :=
    fold_left (fun map s =>
                 setProperty (name s)
                   [("x", x s); ("y", y s); ("width", w s); ("height", h s)]
                   map)
              sprites [] in
  jsonStringify map.

(** [generateCode()], reading [sprites], [imageDimensions] and
    [codeMode]; [None] is the [undefined] of a function that ends
    without [return]. *)
Definition generateCode (codeMode : string) : option string :=
  match sprites with
  | [] => Some placeholder
  | _ =>
      if String.eqb codeMode "scss" then Some scssCode
      else if String.eqb codeMode "css" then Some cssCode
      else if String.eqb codeMode "json" then Some jsonCode
      else None
  end.

End Templates.
End WithNumbers.

(** The formats the three buttons offer. *)
Definition supported (codeMode : string) : Prop :=
  codeMode = "scss" \/ codeMode = "css" \/ codeMode = "json".

End CodeGen.

(* ================================================================== *)
(** * Sample inputs *)

Module Samples.
Import Packing.

(** A pasted image of the given size, named like the paste handler names
    it. *)
Definition pasted (n : nat) (tag : string) (w h : Z) : Item nat unit :=
  mkItem n tag (Some tag) w h None "blob:sample".

(** Three 100 x 50 images. *)
Definition threeItems : list (Item nat unit) :=
  [pasted 1 "sprite-1" 100 50; pasted 2 "sprite-2" 100 50; pasted 3 "sprite-3" 100 50].


(** Six 150 x 40 images: two rows of three under the width limit 512. *)
Definition sixItems : list (Item nat unit) :=
  [pasted 1 "a" 150 40; pasted 2 "b" 150 40; pasted 3 "c" 150 40;
   pasted 4 "d" 150 40; pasted 5 "e" 150 40; pasted 6 "f" 150 40].

(** The session before anything is pasted. *)
Definition freshSession : Session nat unit :=
  mkSession [] (mkDimensions 0 0) [].

(** The session in builder mode after its only sprite, a 100 x 50 image,
    has been removed from [sprites] by the delete button. *)
Definition afterDelete : Session nat unit :=
  mkSession [] (mkDimensions 102 50) [].

(** A 32 x 32 sprite at the origin, over the decimal numbers. *)
Definition icon (name : string) : Sprite Z DecNumber.t :=
  mkSprite 7 name (DecNumber.ofZ 0) (DecNumber.ofZ 0)
           (DecNumber.ofZ 32) (DecNumber.ofZ 32).

(** Two sprites side by side. *)
Definition twoIcons : list (Sprite Z DecNumber.t) :=
  [mkSprite 7 "icon-a" (DecNumber.ofZ 0) (DecNumber.ofZ 0)
            (DecNumber.ofZ 32) (DecNumber.ofZ 32);
   mkSprite 8 "icon-b" (DecNumber.ofZ 34) (DecNumber.ofZ 0)
            (DecNumber.ofZ 32) (DecNumber.ofZ 32)].

(** A 64 x 64 composite. *)
Definition canvas : Dimensions DecNumber.t :=
  mkDimensions (DecNumber.ofZ 64) (DecNumber.ofZ 64).

(** A clock that stands still. *)
Definition noon : nat -> Z := fun _ => 1700000000000.

End Samples.

(* ================================================================== *)
(** * The geometry of a layout *)

Module Rows.
Import Packing.

(** Rectangle [b] comes after rectangle [a] in the layout: in the same row
    to its right, or in a row below, in both cases beyond the padding. *)
Definition follows {Id} (a b : Sprite Id Z) : Prop :=
  (y a = y b /\ x a + w a + padding <= x b)
  \/ y a + h a + padding <= y b.

(** The width of a row holding all the items, each with its padding. *)
Definition rowWidth {Id Img} (items : list (Item Id Img)) : Z :=
  fold_right (fun it acc => item_w it + padding + acc) 0 items.

(** The positions of the items of a single row that starts at column
    [x0] of the top row. *)
Fixpoint rowPositions {Id Img} (x0 : Z) (items : list (Item Id Img)) : list (Z * Z) :=
  match items with
  | [] => []
  | it :: rest => (x0, 0) :: rowPositions (x0 + (item_w it + padding)) rest
  end.

(** The tallest item, 0 for none. *)
Definition tallest {Id Img} (items : list (Item Id Img)) : Z :=
  fold_right (fun it acc => Z.max (item_h it) acc) 0 items.

End Rows.

(* ================================================================== *)
(** * The handlers of builder mode *)

(** The state the handlers below read and write: the mode, the composite
    image, the raw build items, and the session [repackSprites] writes.
    A handler is the net effect of its setter calls, applied in order. *)
Module Builder.
Import JsString Packing.

(** [mode]: ['analyze'] or ['build']. *)
Inductive Mode := analyze | build.

Section WithHandles.
Variables Id Img : Type.

(** [a === b] on identifiers. *)
Variable sameId : Id -> Id -> bool.

Record App := mkApp {
  mode : Mode;
  imageSrc : option string;
  buildItems : list (Item Id Img);
  session : Session Id Img
}.

(** [!imageSrc]: [null] and the empty string are falsy. *)
Definition noImage (src : option string) : bool :=
  match src with
  | Some s => isEmpty s
  | None => true
  end.

(** The characters [/[^a-zA-Z0-9-_]/] does not match: letters, digits,
    [-] and [_]. *)
Definition tagChar (c : ascii) : bool :=
  let n := N_of_ascii c in
  ((97 <=? n) && (n <=? 122) || (65 <=? n) && (n <=? 90)
   || (48 <=? n) && (n <=? 57) || (n =? 45) || (n =? 95))%N.

(** [newTag.replace(/[^a-zA-Z0-9-_]/g, '-')], on strings whose code units
    are below 256. *)
Definition cleanTag (newTag : string) : string :=
  replaceAll (fun c => negb (tagChar c)) "-" newTag.

(** [handleTagChange(id, newTag)] *)
Definition handleTagChange (id0 : Id) (newTag : string) (st : App) : App :=
  let clean := cleanTag newTag in
  let updatedBuildItems :=
    map (fun it =>
           if sameId (item_id it) id0
           then mkItem (item_id it) clean (Some clean) (item_w it) (item_h it)
                       (imgElement it) (originalSrc it)
           else it) (buildItems st) in
  let updatedSprites :=
    map (fun s =>
           if sameId (id s) id0
           then mkSprite (id s) clean (x s) (y s) (w s) (h s)
           else s) (sprites (session st)) in
  mkApp (mode st) (imageSrc st) updatedBuildItems
        (mkSession updatedSprites (imageDimensions (session st))
                   (pendingDraws (session st))).

(** The click handler of a sprite's delete button. *)
Definition deleteSprite (id0 : Id) (st : App) : App :=
  let newSprites := filter (fun s => negb (sameId (id s) id0)) (sprites (session st)) in
  let session1 := mkSession newSprites (imageDimensions (session st))
                            (pendingDraws (session st)) in
  match mode st with
  | build =>
      let newItems := filter (fun it => negb (sameId (item_id it) id0)) (buildItems st) in
      mkApp (mode st) (imageSrc st) newItems (repackSprites newItems session1)
  | analyze =>
      mkApp (mode st) (imageSrc st) (buildItems st) session1
  end.

(** The paste handler for one pasted image, once the image has loaded:
    [newId] is [Date.now() + Math.random()], [img] the image element,
    [url] its object URL, [w] and [h] its size. Without a composite but
    with sprites, the image becomes the composite; else it becomes a new
    build item and everything is packed again. *)
Definition pasteImage (newId : Id) (img : Img) (url : string) (w h : Z) (st : App) : App :=
  if noImage (imageSrc st) && (0 <? List.length (sprites (session st)))%nat
  then mkApp analyze (Some url) (buildItems st)
             (mkSession (sprites (session st)) (mkDimensions w h)
                        (pendingDraws (session st)))
  else
    let defaultTag :=
      "sprite-" ++ digitsOf (N.of_nat (List.length (buildItems st)
                                       + List.length (sprites (session st)) + 1)) in
    let newItem := mkItem newId defaultTag (Some defaultTag) w h (Some img) url in
    let updated := (buildItems st ++ [newItem])%list in
    mkApp build (imageSrc st) updated (repackSprites updated (session st)).

(** The items [explodeSprites] makes of the sprites: [slice i s] is what
    slicing sprite [s], the [i]-th, produces: a new identifier, the image
    of the slice and its object URL. *)
Fixpoint explodeItems (slice : nat -> Sprite Id Z -> Id * Img * string)
         (index : nat) (sprites : list (Sprite Id Z)) : list (Item Id Img) :=
  match sprites with
  | [] => []
  | s :: rest =>
      let '(newId, img, url) := slice index s in
      mkItem newId (name s) (Some (name s)) (w s) (h s) (Some img) url
      :: explodeItems slice (S index) rest
  end.

(** [explodeSprites()]; [confirmed] is the answer to the question it
    asks. *)
Definition explodeSprites (confirmed : bool)
           (slice : nat -> Sprite Id Z -> Id * Img * string) (st : App) : App :=
  if noImage (imageSrc st) || (List.length (sprites (session st)) =? 0)%nat then st
  else if negb confirmed then st
  else
    let items := explodeItems slice 0 (sprites (session st)) in
    mkApp build (imageSrc st) items (repackSprites items (session st)).

(** What a sprite and a build item have in common. *)
Definition frameOfSprite (s : Sprite Id Z) : Id * string * Z * Z :=
  (id s, name s, w s, h s).

Definition frameOfItem (it : Item Id Img) : Id * string * Z * Z :=
  (item_id it, orElse (item_tag it) (item_name it), item_w it, item_h it).

(** The sprites and the build items are in step: as many, in the same
    order, with the same identifiers, names and sizes. *)
Definition inStep (st : App) : Prop :=
  map frameOfSprite (sprites (session st)) = map frameOfItem (buildItems st).

(** The handlers of builder mode as events. *)
Inductive Event :=
| Paste (newId : Id) (img : Img) (url : string) (w h : Z)
| Delete (id0 : Id)
| Rename (id0 : Id) (newTag : string)
| Explode (confirmed : bool) (slice : nat -> Sprite Id Z -> Id * Img * string).

Definition handle (e : Event) (st : App) : App :=
  match e with
  | Paste newId img url w h => pasteImage newId img url w h st
  | Delete id0 => deleteSprite id0 st
  | Rename id0 newTag => handleTagChange id0 newTag st
  | Explode confirmed slice => explodeSprites confirmed slice st
  end.

End WithHandles.
End Builder.

(* ================================================================== *)
(** * More sample inputs *)

Module MoreSamples.
Import Packing Builder.

(** Builder mode after three 100 x 50 images were pasted. *)
Definition threePasted : App nat unit :=
  mkApp build (Some "blob:composite") Samples.threeItems
        (repackSprites Samples.threeItems Samples.freshSession).

(** Slicing that numbers the slices from 100. *)
Definition numbered : nat -> Sprite nat Z -> nat * unit * string :=
  fun i _ => ((100 + i)%nat, tt, "blob:slice").

End MoreSamples.

(* ================================================================== *)
(** * Loading the URL hash *)

Module UrlState.
Import JsString Codec.

Section WithNumbers.
Context {num : Type} `{JsNumber num}.

(** The effect that runs once on mount: [hash] is [window.location.hash],
    and the sprites are replaced only when the hash decodes to at least
    one sprite. *)
Definition loadHash (now : nat -> Z) (hash : string)
           (sprites : list (Sprite Z num)) : list (Sprite Z num) :=
  if isEmpty hash then sprites
  else
    let loadedSprites := deserializeSprites now hash in
    if (0 <? List.length loadedSprites)%nat then loadedSprites else sprites.

(** A sprite [serializeSprites] can write and [deserializeSprites] read
    back: it has a name, and its coordinates survive. *)
Definition writable {Id} (s : Sprite Id num) : Prop :=
  name s <> EmptyString
  /\ survives (x s) /\ survives (y s) /\ survives (w s) /\ survives (h s).

(** The tuple of a sprite as the URL carries it: the name with every
    reserved character replaced. *)
Definition writtenTuple {Id} (s : Sprite Id num) : string * num * num * num * num :=
  (replaceAll reserved "-" (name s), x s, y s, w s, h s).

End WithNumbers.
End UrlState.

(* ================================================================== *)
(** * The object behind the [json] output *)

Module JsonMap.
Import JsString CodeGen.

Section WithNumbers.
Context {num : Type} `{JsNumber num}.
Variable Id : Type.

(** [{ x: s.x, y: s.y, width: s.w, height: s.h }] *)
Definition entry (s : Sprite Id num) : list (string * num) :=
  [("x", x s); ("y", y s); ("width", w s); ("height", h s)].

(** The object [map] after the loop [sprites.forEach(s => { map[s.name] =
    ... })] of the [json] branch. *)
Definition spriteMap (sprites : list (Sprite Id num))
  : list (string * list (string * num)) :=
  fold_left (fun map s => setProperty (name s) (entry s) map) sprites [].

(** [obj[key]] for an own property. *)
Fixpoint lookup {V} (key : string) (obj : list (string * V)) : option V :=
  match obj with
  | [] => None
  | (k, v) :: rest => if String.eqb k key then Some v else lookup key rest
  end.

(** The last sprite of the list that has the given name. *)
Fixpoint lastNamed (key : string) (sprites : list (Sprite Id num))
  : option (Sprite Id num) :=
  match sprites with
  | [] => None
  | s :: rest =>
      match lastNamed key rest with
      | Some t => Some t
      | None => if String.eqb (name s) key then Some s else None
      end
  end.

(** A name that makes an ordinary property, listed where it was created:
    neither [__proto__] nor an array index. *)
Definition ordinaryName (key : string) : Prop :=
  key <> "__proto__" /\ arrayIndex key = None.

End WithNumbers.
End JsonMap.

(* ================================================================== *)
(** * The saved session *)

(** The IndexedDB database of the application has two object stores,
    [session] and [images], created when it is opened; each maps keys to
    values, [put] replaces the value under a key, [get] yields it or
    [undefined], [clear] empties the store. What follows is the effect of
    the calls on the stores when none of them fails. *)
Module Persistence.
Import Packing Builder.

Section WithHandles.
Variables Id Img Blob : Type.

(** The object stored under [meta]. *)
Record Metadata := mkMetadata {
  meta_sprites : list (Sprite Id Z);
  meta_buildItems : list (Item Id Img);
  meta_dimensions : Dimensions Z;
  meta_mode : Mode;
  meta_timestamp : Z
}.

Record Database := mkDatabase {
  sessionStore : string -> option Metadata;
  imagesStore : string -> option Blob
}.

(** A store with the value under one key replaced. *)
Definition putIn {V} (key : string) (value : V) (store : string -> option V)
  : string -> option V :=
  fun k => if String.eqb k key then Some value else store k.

(** [db.put('session', key, value)] and [db.put('images', key, value)] *)
Definition putSession (key : string) (value : Metadata) (d : Database) : Database :=
  mkDatabase (putIn key value (sessionStore d)) (imagesStore d).

Definition putImage (key : string) (value : Blob) (d : Database) : Database :=
  mkDatabase (sessionStore d) (putIn key value (imagesStore d)).

(** [db.clear()] *)
Definition clear (d : Database) : Database :=
  mkDatabase (fun _ => None) (fun _ => None).

(** [{ ...i, imgElement: null }] *)
Definition withoutImage (i : Item Id Img) : Item Id Img :=
  mkItem (item_id i) (item_name i) (item_tag i) (item_w i) (item_h i)
         None (originalSrc i).

(** [triggerSave(currentSprites, currentBuildItems, currentDim,
    currentMode, currentBlob)] at time [timestamp]: the metadata always,
    the blob when there is one. *)
Definition triggerSave (currentSprites : list (Sprite Id Z))
           (currentBuildItems : list (Item Id Img))
           (currentDim : Dimensions Z) (currentMode : Mode)
           (currentBlob : option Blob) (timestamp : Z) (d : Database) : Database :=
  let d1 :=
    putSession "meta"
               (mkMetadata currentSprites (map withoutImage currentBuildItems)
                           currentDim currentMode timestamp) d in
  match currentBlob with
  | Some blob => putImage "composite" blob d1
  | None => d1
  end.

(** What [loadSession] restores: the mode, the sprites, the build items,
    the dimensions, and the blob the composite image is made of. *)
Record Restored := mkRestored {
  restoredMode : Mode;
  restoredSprites : list (Sprite Id Z);
  restoredBuildItems : list (Item Id Img);
  restoredDimensions : Dimensions Z;
  restoredBlob : Blob
}.

(** [loadSession()]: nothing unless both the metadata and the blob are
    there. *)
Definition loadSession (d : Database) : option Restored :=
  match sessionStore d "meta", imagesStore d "composite" with
  | Some metadata, Some blob =>
      Some (mkRestored (meta_mode metadata) (meta_sprites metadata)
                       (meta_buildItems metadata) (meta_dimensions metadata)
                       blob)
  | _, _ => None
  end.

End WithHandles.
End Persistence.

(* ================================================================== *)
(** * Drawing the composite image *)

(** [drawComposite] draws the items that have an image element at once,
    starts loading the others from their [originalSrc], and draws each of
    those when its image has loaded; [finish], which turns the canvas into
    a blob, is called by the draw that brings [itemsLoaded] to
    [totalItems], or at the end when there are no items. The canvas is
    modelled by the list of [drawImage] calls made on it. *)
Module Composite.
Import JsString Packing.

Section WithHandles.
Variables Id Img : Type.

Record Canvas := mkCanvas {
  drawn : list (Positioned Id Img);
  itemsLoaded : nat;
  waiting : list (Positioned Id Img);
  blobs : list (list (Positioned Id Img))
}.

Definition blank : Canvas := mkCanvas [] 0 [] [].

(** [finish()]: [canvas.toBlob] takes the canvas as it is now. *)
Definition finish (cv : Canvas) : Canvas :=
  mkCanvas (drawn cv) (itemsLoaded cv) (waiting cv) (blobs cv ++ [drawn cv])%list.

(** [ctx.drawImage(...); itemsLoaded++; if (itemsLoaded === totalItems)
    finish();] *)
Definition drawItem (totalItems : nat) (p : Positioned Id Img) (cv : Canvas) : Canvas :=
  let cv1 := mkCanvas (drawn cv ++ [p])%list (S (itemsLoaded cv)) (waiting cv) (blobs cv) in
  if (itemsLoaded cv1 =? totalItems)%nat then finish cv1 else cv1.

(** The callback of [items.forEach]. *)
Definition visit (totalItems : nat) (cv : Canvas) (p : Positioned Id Img) : Canvas :=
  match imgElement (item p) with
  | Some _ => drawItem totalItems p cv
  | None =>
      if isEmpty (originalSrc (item p)) then cv
      else mkCanvas (drawn cv) (itemsLoaded cv) (waiting cv ++ [p])%list (blobs cv)
  end.

(** [drawComposite(items, width, height)] up to its return. *)
Definition drawComposite (items : list (Positioned Id Img)) : Canvas :=
  let totalItems := List.length items in
  let cv := fold_left (visit totalItems) items blank in
  if (totalItems =? 0)%nat then finish cv else cv.

(** The [onload] handler of the [k]-th image that was started. *)
Definition onload (totalItems : nat) (cv : Canvas) (k : nat) : Canvas :=
  match nth_error (waiting cv) k with
  | Some p => drawItem totalItems p cv
  | None => cv
  end.

(** The canvas after the images named by [events] have loaded, in that
    order. *)
Definition afterLoads (items : list (Positioned Id Img)) (events : list nat) : Canvas :=
  fold_left (onload (List.length items)) events (drawComposite items).

(** An item [drawComposite] can draw: it has an image element or a
    source to load one from. *)
Definition drawable (p : Positioned Id Img) : bool :=
  match imgElement (item p) with
  | Some _ => true
  | None => negb (isEmpty (originalSrc (item p)))
  end.

Definition hasImage (p : Positioned Id Img) : bool :=
  match imgElement (item p) with
  | Some _ => true
  | None => false
  end.

Definition loadable (p : Positioned Id Img) : bool :=
  negb (hasImage p) && negb (isEmpty (originalSrc (item p))).

End WithHandles.

(** The image the [k]-th load event draws: the [k]-th of those waiting,
    if there are that many. *)
Definition loadedBy {A} (l : list A) (k : nat) : list A :=
  match nth_error l k with
  | Some p => [p]
  | None => []
  end.

End Composite.

(* ================================================================== *)
(** * The grid of analyze mode *)

(** [generateGrid] computes the cells with JavaScript numbers. What it
    needs of them is collected in a class; the properties shown of the
    grid hold whatever the arithmetic rounds to. *)
Module Grid.
Import JsString.

Class GridNumber (num : Type) := {
  (** [!v] is false *)
  truthy : num -> bool;
  (** how often [for (let i = 0; i < v; i++)] runs its body, [v] being
      finite as the values of a number field are *)
  iterations : num -> nat;
  (** the loop counter [i], and the literal [1], as numbers *)
  ofCounter : nat -> num;
  add : num -> num -> num;
  sub : num -> num -> num;
  mul : num -> num -> num;
  div : num -> num -> num;
  (** [Math.round] *)
  round : num -> num
}.

Section WithNumbers.
Context {num : Type} `{GridNumber num}.

(** [gridConfig], [{ rows, cols, padding }] *)
Record GridConfig := mkGridConfig {
  rows : num;
  cols : num;
  padding : num
}.

(** [for (let i = 0; i < n; i++) body], as the state the body changes:
    [times] iterations are left, [i] is the counter. *)
Fixpoint forLoop {St : Type} (times i : nat) (body : nat -> St -> St) (s : St) : St :=
  match times with
  | O => s
  | S times' => forLoop times' (S i) body (body i s)
  end.

(** The sprite pushed for row [r] and column [c] when [reading] sprites
    were pushed before it, [now reading] being what [Date.now()] returns
    then, and the counter stands at [count]. *)
Definition cell (now : nat -> Z) (padding itemWidth itemHeight : num)
           (r c reading count : nat) : Sprite Z num :=
  mkSprite (now reading + Z.of_nat count)
           ("icon-" ++ digitsOf (N.of_nat count))
           (round (add padding (mul (ofCounter c) (add itemWidth padding))))
           (round (add padding (mul (ofCounter r) (add itemHeight padding))))
           (round itemWidth)
           (round itemHeight).

(** The body of the inner loop: [newSprites.push({...}); count++]. *)
Definition pushCell (now : nat -> Z) (padding itemWidth itemHeight : num)
           (r c : nat) (st : list (Sprite Z num) * nat) : list (Sprite Z num) * nat :=
  ((fst st ++ [cell now padding itemWidth itemHeight r c (List.length (fst st)) (snd st)])%list,
   S (snd st)).

(** [generateGrid()]: the sprites it leaves in [sprites]. *)
Definition generateGrid (now : nat -> Z) (gridConfig : GridConfig)
           (imageDimensions : Dimensions num) (sprites : list (Sprite Z num))
  : list (Sprite Z num) :=
  if negb (truthy (width imageDimensions)) then sprites
  else
    let rows := rows gridConfig in
    let cols := cols gridConfig in
    let padding := padding gridConfig in
    let itemWidth :=
      div (sub (width imageDimensions) (mul padding (add cols (ofCounter 1)))) cols in
    let itemHeight :=
      div (sub (height imageDimensions) (mul padding (add rows (ofCounter 1)))) rows in
    let newSprites :=
      fst (forLoop (iterations rows) 0
             (fun r st =>
                forLoop (iterations cols) 0
                        (fun c st => pushCell now padding itemWidth itemHeight r c st)
                        st)
             ([], 1%nat)) in
    newSprites.

End WithNumbers.

Arguments GridConfig num : clear implicits.

End Grid.

(** Exact arithmetic on rationals, which is what the doubles compute as
    long as no operation has to round. *)
Module GridSamples.
Import Grid.

#[export] Instance exactNumber : GridNumber QArith_base.Q := {
  truthy := fun q => negb (QArith_base.Qeq_bool q (QArith_base.inject_Z 0));
  iterations := fun q => Z.to_nat (Qround.Qceiling q);
  ofCounter := fun n => QArith_base.inject_Z (Z.of_nat n);
  add := QArith_base.Qplus;
  sub := QArith_base.Qminus;
  mul := QArith_base.Qmult;
  div := QArith_base.Qdiv;
  round := fun q =>
    QArith_base.inject_Z
      (Qround.Qfloor (QArith_base.Qplus q (QArith_base.Qmake 1 2)))
}.

(** The grid the dialog offers at first, 4 x 4 without padding, on a
    64 x 64 image. *)
Definition defaultGrid : GridConfig QArith_base.Q :=
  mkGridConfig (QArith_base.inject_Z 4) (QArith_base.inject_Z 4) (QArith_base.inject_Z 0).

Definition image64 : Dimensions QArith_base.Q :=
  mkDimensions (QArith_base.inject_Z 64) (QArith_base.inject_Z 64).

End GridSamples.

(* ================================================================== *)
(** * The handlers that change the mode *)

Module Actions.
Import JsString Packing Builder.

Section WithHandles.
Variables Id Img : Type.
Variable sameId : Id -> Id -> bool.

(** ** The steps of the handlers that wait *)

(** The paste handler, [explodeSprites] and [handleImageUpload] wait for
    an image or a blob between their steps, and [repackSprites] leaves
    the drawing of the composite to a timer; other handlers run in
    between. A handler that waits keeps the variables of the render it
    was made in: its [closure]. *)
Inductive Job :=
| Decoding (closure : App Id Img)
| Backdrop
| NewItem (defaultTag : string)
| Slicing (closure : App Id Img).

(** [setAppMode(m)] *)
Definition setMode (m : Mode) (st : App Id Img) : App Id Img :=
  mkApp m (imageSrc st) (buildItems st) (session st).

(** The callback of [createImageBitmap(blob).then] in the paste handler:
    without a composite but with sprites the image is to become the
    composite, else a build item. What it reads is its closure; what it
    sets is the state. *)
Definition decoded (closure st : App Id Img) : App Id Img * Job :=
  if noImage (imageSrc closure)
     && (0 <? List.length (sprites (session closure)))%nat
  then (setMode analyze st, Backdrop)
  else
    (match mode closure with
     | analyze => setMode build st
     | build => st
     end,
     NewItem ("sprite-"
              ++ digitsOf (N.of_nat (List.length (buildItems closure)
                                     + List.length (sprites (session closure))
                                     + 1)))).

(** [img.onload] of an image that becomes the composite:
    [setImageDimensions({ width: img.width, height: img.height })] and
    [setImageSrc(url)]. *)
Definition backdropLoaded (url : string) (w h : Z) (st : App Id Img) : App Id Img :=
  mkApp (mode st) (Some url) (buildItems st)
        (mkSession (sprites (session st)) (mkDimensions w h)
                   (pendingDraws (session st))).

(** [img.onload] of a pasted image that becomes a build item. *)
Definition itemLoaded (defaultTag : string) (newId : Id) (img : Img)
           (url : string) (w h : Z) (st : App Id Img) : App Id Img :=
  let newItem := mkItem newId defaultTag (Some defaultTag) w h (Some img) url in
  let updated := (buildItems st ++ [newItem])%list in
  mkApp (mode st) (imageSrc st) updated (repackSprites updated (session st)).

(** [handleImageUpload(e)] with a file chosen, up to [img.src = url]. *)
Definition uploadChosen (st : App Id Img) : App Id Img :=
  mkApp analyze (imageSrc st) [] (session st).

(** Does [explodeSprites] go on after its two questions? *)
Definition explodes (confirmed : bool) (closure : App Id Img) : bool :=
  negb (noImage (imageSrc closure)
        || (List.length (sprites (session closure)) =? 0)%nat)
  && confirmed.

(** The end of [explodeSprites], after [await Promise.all(promises)]. *)
Definition sliced (closure : App Id Img)
           (slice : nat -> Sprite Id Z -> Id * Img * string) (st : App Id Img)
  : App Id Img :=
  let items := explodeItems slice 0 (sprites (session closure)) in
  mkApp build (imageSrc st) items (repackSprites items (session st)).

(** A list without its [k]-th element, and with another in its place. *)
Definition removeNth {A} (k : nat) (l : list A) : list A :=
  (firstn k l ++ skipn (S k) l)%list.

Definition replaceNth {A} (k : nat) (a : A) (l : list A) : list A :=
  (firstn k l ++ a :: skipn (S k) l)%list.

(** The callback of [canvas.toBlob] in [finish] of the [k]-th drawing
    that [repackSprites] has left with the timer: [setImageSrc(url)]. *)
Definition compositeDrawn (k : nat) (url : string) (st : App Id Img) : App Id Img :=
  if (k <? List.length (pendingDraws (session st)))%nat
  then mkApp (mode st) (Some url) (buildItems st)
             (mkSession (sprites (session st)) (imageDimensions (session st))
                        (removeNth k (pendingDraws (session st))))
  else st.

(** [clearAll()]; [confirmed] is the answer to the question it asks. *)
Definition clearAll (confirmed : bool) (st : App Id Img) : App Id Img :=
  if confirmed
  then mkApp analyze None []
             (mkSession [] (mkDimensions 0 0) (pendingDraws (session st)))
  else st.

(** ** The program between two events *)

(** The state and the handlers that wait. *)
Record Running := mkRunning {
  app : App Id Img;
  jobs : list Job
}.

(** What happens: the user's actions, and the ends of the waits, each
    naming the job or the drawing it ends. *)
Inductive Action :=
| PasteEvent
| BitmapDecoded (k : nat)
| ImageLoaded (k : nat) (newId : Id) (img : Img) (url : string) (w h : Z)
| UploadChosen
| ExplodeClicked (confirmed : bool)
| SlicesMade (k : nat) (slice : nat -> Sprite Id Z -> Id * Img * string)
| CompositeDrawn (k : nat) (url : string)
| DeleteClicked (id0 : Id)
| TagChanged (id0 : Id) (newTag : string)
| ClearClicked (confirmed : bool).

Definition act (a : Action) (r : Running) : Running :=
  match a with
  | PasteEvent => mkRunning (app r) (jobs r ++ [Decoding (app r)])%list
  | BitmapDecoded k =>
      match nth_error (jobs r) k with
      | Some (Decoding closure) =>
          mkRunning (fst (decoded closure (app r)))
                    (replaceNth k (snd (decoded closure (app r))) (jobs r))
      | _ => r
      end
  | ImageLoaded k newId img url w h =>
      match nth_error (jobs r) k with
      | Some Backdrop =>
          mkRunning (backdropLoaded url w h (app r)) (removeNth k (jobs r))
      | Some (NewItem defaultTag) =>
          mkRunning (itemLoaded defaultTag newId img url w h (app r))
                    (removeNth k (jobs r))
      | _ => r
      end
  | UploadChosen => mkRunning (uploadChosen (app r)) (jobs r ++ [Backdrop])%list
  | ExplodeClicked confirmed =>
      if explodes confirmed (app r)
      then mkRunning (app r) (jobs r ++ [Slicing (app r)])%list
      else r
  | SlicesMade k slice =>
      match nth_error (jobs r) k with
      | Some (Slicing closure) =>
          mkRunning (sliced closure slice (app r)) (removeNth k (jobs r))
      | _ => r
      end
  | CompositeDrawn k url => mkRunning (compositeDrawn k url (app r)) (jobs r)
  | DeleteClicked id0 => mkRunning (deleteSprite sameId id0 (app r)) (jobs r)
  | TagChanged id0 newTag =>
      mkRunning (handleTagChange sameId id0 newTag (app r)) (jobs r)
  | ClearClicked confirmed => mkRunning (clearAll confirmed (app r)) (jobs r)
  end.

Definition run (actions : list Action) (r : Running) : Running :=
  fold_left (fun r a => act a r) actions r.

(** The state of [useState]'s initial values, nothing waiting. *)
Definition initial : Running :=
  mkRunning (mkApp analyze None [] (mkSession [] (mkDimensions 0 0) [])) [].

(** ** What the statements are about *)

(** In builder mode the sprites are the packing of the build items. *)
Definition packed (st : App Id Img) : Prop :=
  mode st = build ->
  sprites (session st) = newSprites (layout (buildItems st)).

(** No pasted image that is to become a build item is still loading. *)
Definition loadingItem (j : Job) : bool :=
  match j with
  | NewItem _ => true
  | _ => false
  end.

Definition idle (r : Running) : Prop :=
  Forall (fun j => loadingItem j = false) (jobs r).

(** An explosion that waits was started with sprites. *)
Definition started (j : Job) : Prop :=
  match j with
  | Slicing closure => sprites (session closure) <> []
  | _ => True
  end.

(** What every action keeps: the waiting explosions were started with
    sprites, and the sprites are packed whenever no build item is
    loading. *)
Definition steady (r : Running) : Prop :=
  Forall started (jobs r) /\ (idle r -> packed (app r)).

End WithHandles.

Arguments Backdrop {Id Img}.
Arguments NewItem {Id Img}.
Arguments PasteEvent {Id Img}.
Arguments BitmapDecoded {Id Img}.
Arguments UploadChosen {Id Img}.
Arguments ExplodeClicked {Id Img}.
Arguments CompositeDrawn {Id Img}.
Arguments DeleteClicked {Id Img}.
Arguments TagChanged {Id Img}.
Arguments ClearClicked {Id Img}.

End Actions.

(** Two pasted 100 x 50 images, each followed by its composite, then the
    first renamed and the second deleted; and a sheet in analyze mode
    with one sprite drawn on it. *)
Module ActionSamples.
Import Packing Builder Actions.

Definition pastesRenameDelete : list (Action nat unit) :=
  [PasteEvent; BitmapDecoded 0; ImageLoaded 0 1%nat tt "blob:1" 100 50;
   CompositeDrawn 0 "blob:sheet-1";
   PasteEvent; BitmapDecoded 0; ImageLoaded 0 2%nat tt "blob:2" 100 50;
   CompositeDrawn 0 "blob:sheet-2";
   TagChanged 1%nat "logo";
   DeleteClicked 2%nat;
   CompositeDrawn 0 "blob:sheet-3"].

Definition analysed : Running nat unit :=
  mkRunning (mkApp analyze (Some "blob:sheet") []
                   (mkSession [mkSprite 7%nat "drawn" 0 0 10 10]
                              (mkDimensions 64 64) []))
            [].

End ActionSamples.

(* ================================================================== *)
(** * Properties of the layout engine *)

Module PackingFacts.
Import Packing.
Local Open Scope list_scope.

Section WithHandles.
Variables Id Img : Type.

Lemma placeItem_eq limit c (it : Item Id Img) :
  placeItem limit c it =
  let c1 := if needsWrap limit c it then wrap c else c in
  (mkPositioned it (currentX c1) (currentY c1),
   mkCursor (currentX c1 + (item_w it + padding))
            (currentY c1)
            (Z.max (rowHeight c1) (item_h it))
            (Z.max (maxCanvasWidth c1) (currentX c1 + (item_w it + padding)))).
Proof. reflexivity. Qed.

Lemma placeItems_cons limit c (it : Item Id Img) rest :
  placeItems limit c (it :: rest) =
  (fst (placeItem limit c it) :: fst (placeItems limit (snd (placeItem limit c it)) rest),
   snd (placeItems limit (snd (placeItem limit c it)) rest)).
Proof.
  cbn [placeItems]. destruct (placeItem limit c it) as [p c1]. cbn [fst snd].
  destruct (placeItems limit c1 rest) as [more c2]. reflexivity.
Qed.

(** Placement keeps every item, in order. *)
Lemma placeItems_items limit : forall (items : list (Item Id Img)) c,
  map (@item Id Img) (fst (placeItems limit c items)) = items.
Proof.
  induction items as [|it rest IH]; intros c.
  - reflexivity.
  - rewrite placeItems_cons. simpl. rewrite IH. reflexivity.
Qed.

Lemma placeItems_length limit (items : list (Item Id Img)) c :
  List.length (fst (placeItems limit c items)) = List.length items.
Proof.
  rewrite <- (placeItems_items limit items c) at 2.
  now rewrite length_map.
Qed.

(** The shelf invariant: from any cursor with a non-negative column and
    row height, the items placed lie right of the cursor in its row or
    below that row, inside the final canvas, pairwise apart; and the
    final width and height are reached unless nothing moved them. *)
Lemma placeItems_shelf limit : forall (items : list (Item Id Img)) c,
  Forall (@sized Id Img) items ->
  0 <= currentX c -> 0 <= rowHeight c ->
  let ps := fst (placeItems limit c items) in
  let c' := snd (placeItems limit c items) in
  0 <= currentX c' /\ 0 <= rowHeight c'
  /\ currentY c <= currentY c'
  /\ currentY c + rowHeight c <= currentY c' + rowHeight c'
  /\ maxCanvasWidth c <= maxCanvasWidth c'
  /\ Forall (placedFrom c c') ps
  /\ ForallOrdPairs (@apart Id Img) ps
  /\ (maxCanvasWidth c' = maxCanvasWidth c
      \/ Exists (fun p => pos_x p + item_w (item p) + padding = maxCanvasWidth c') ps)
  /\ ((currentY c' = currentY c /\ rowHeight c' = rowHeight c)
      \/ Exists (fun p => pos_y p + item_h (item p) = currentY c' + rowHeight c') ps).
Proof.
  induction items as [|it rest IH]; intros c Hs Hx Hr.
  - simpl. repeat split; try lia; auto using FOP_nil.
  - inversion Hs as [|? ? [Hw Hh] Hs']; subst.
    rewrite placeItems_cons. cbv zeta.
    rewrite placeItem_eq. cbv zeta.
    set (c1 := if needsWrap limit c it then wrap c else c).
    assert (Hc1 : 0 <= currentX c1 /\ 0 <= rowHeight c1
                  /\ currentY c <= currentY c1
                  /\ maxCanvasWidth c1 = maxCanvasWidth c
                  /\ ((currentY c1 = currentY c /\ currentX c1 = currentX c
                       /\ rowHeight c1 = rowHeight c)
                      \/ (currentY c1 = currentY c + rowHeight c + padding
                          /\ currentX c1 = 0 /\ rowHeight c1 = 0))).
    { unfold c1, wrap, padding. destruct (needsWrap limit c it); simpl; lia. }
    destruct Hc1 as (H1x & H1r & H1y & H1m & Hcase).
    simpl fst; simpl snd.
    set (c2 := mkCursor _ _ _ _).
    assert (H2 : currentX c2 = currentX c1 + (item_w it + padding)
                 /\ currentY c2 = currentY c1
                 /\ rowHeight c2 = Z.max (rowHeight c1) (item_h it)
                 /\ maxCanvasWidth c2
                    = Z.max (maxCanvasWidth c1) (currentX c1 + (item_w it + padding)))
      by (unfold c2; simpl; auto).
    destruct H2 as (H2x & H2y & H2r & H2m).
    specialize (IH c2 Hs').
    assert (Hx2 : 0 <= currentX c2) by (unfold padding in *; lia).
    assert (Hr2 : 0 <= rowHeight c2) by lia.
    specialize (IH Hx2 Hr2). cbv zeta in IH.
    set (ps := fst (placeItems limit c2 rest)) in *.
    set (c' := snd (placeItems limit c2 rest)) in *.
    destruct IH as (Ix & Ir & Iy & Ih & Im & Ipl & Iap & Iw & Ihh).
    unfold padding in *.
    repeat match goal with |- _ /\ _ => split end; try lia.
    + constructor.
      * unfold placedFrom, sized, padding; simpl. lia.
      * eapply Forall_impl; [|exact Ipl].
        intros p (Hsz & Hpx & Hrow & Hpy & Hpw & Hph).
        unfold placedFrom, padding in *. repeat split; try lia; try apply Hsz.
    + constructor; [|exact Iap].
      eapply Forall_impl; [|exact Ipl].
      intros p (Hsz & Hpx & Hrow & Hpy & Hpw & Hph).
      unfold apart, overlap, padding in *; simpl.
      destruct Hrow as [[Hrow1 Hrow2]|Hrow].
      * replace (pos_x p <? currentX c1 + item_w it) with false
          by (symmetry; apply Z.ltb_ge; lia).
        now rewrite andb_false_r.
      * replace (pos_y p <? currentY c1 + item_h it) with false
          by (symmetry; apply Z.ltb_ge; lia).
        now rewrite !andb_false_r.
    + destruct Iw as [Iw|Iw].
      * destruct (Z.max_spec (maxCanvasWidth c1) (currentX c1 + (item_w it + 2)))
          as [[? Hmx]|[? Hmx]].
        -- right. apply Exists_cons_hd. simpl. lia.
        -- left. lia.
      * right. now apply Exists_cons_tl.
    + destruct Ihh as [[Ihy Ihr]|Ihh].
      * destruct (Z.max_spec (rowHeight c1) (item_h it)) as [[? Hmx]|[? Hmx]].
        -- right. apply Exists_cons_hd. simpl. lia.
        -- destruct Hcase as [(? & ? & ?)|(? & ? & ?)].
           ++ left. lia.
           ++ right. apply Exists_cons_hd. simpl. lia.
      * right. now apply Exists_cons_tl.
Qed.

Lemma placeItems_app limit : forall (l1 l2 : list (Item Id Img)) c,
  placeItems limit c (l1 ++ l2) =
  (fst (placeItems limit c l1)
     ++ fst (placeItems limit (snd (placeItems limit c l1)) l2),
   snd (placeItems limit (snd (placeItems limit c l1)) l2)).
Proof.
  induction l1 as [|it rest IH]; intros l2 c.
  - simpl. now destruct (placeItems limit c l2).
  - rewrite <- app_comm_cons, !placeItems_cons, IH. reflexivity.
Qed.

Lemma layout_eq (items : list (Item Id Img)) :
  layout items =
  let r := placeItems (maxWidth (totalArea items)) (startCursor) items in
  mkLayout (fst r) (maxCanvasWidth (snd r))
           (currentY (snd r) + rowHeight (snd r))
           (map (@toSprite Id Img) (fst r)).
Proof.
  unfold layout. now destruct (placeItems _ _ items).
Qed.

Lemma repackSprites_cons (it : Item Id Img) rest st :
  repackSprites (it :: rest) st =
  let r := placeItems (maxWidth (totalArea (it :: rest))) startCursor (it :: rest) in
  mkSession (map (@toSprite Id Img) (fst r))
            (mkDimensions (maxCanvasWidth (snd r))
                          (currentY (snd r) + rowHeight (snd r)))
            (pendingDraws st
               ++ [(fst r, maxCanvasWidth (snd r),
                    currentY (snd r) + rowHeight (snd r))]).
Proof.
  unfold repackSprites. rewrite layout_eq. reflexivity.
Qed.

(** What a non-empty list leaves in the session. *)
Lemma repackSprites_nonempty (items : list (Item Id Img)) st :
  items <> [] ->
  let r := placeItems (maxWidth (totalArea items)) startCursor items in
  sprites (repackSprites items st) = map (@toSprite Id Img) (fst r)
  /\ imageDimensions (repackSprites items st)
     = mkDimensions (maxCanvasWidth (snd r))
                    (currentY (snd r) + rowHeight (snd r)).
Proof.
  intros Hne. destruct items as [|it rest]; [congruence|].
  unfold repackSprites. rewrite layout_eq. cbv zeta. simpl sprites.
  simpl imageDimensions. split; reflexivity.
Qed.

Lemma ForallOrdPairs_map {A B} (R : B -> B -> Prop) (f : A -> B) l :
  ForallOrdPairs (fun a b => R (f a) (f b)) l ->
  ForallOrdPairs R (map f l).
Proof.
  induction 1 as [|a l Ha Hl IH]; simpl; constructor; auto.
  now apply Forall_map.
Qed.

Lemma ForallOrdPairs_nth {A} (R : A -> A -> Prop) : forall l i j a b,
  ForallOrdPairs R l -> (i < j)%nat ->
  nth_error l i = Some a -> nth_error l j = Some b -> R a b.
Proof.
  induction l as [|c l IH]; intros i j a b Hl Hij Hi Hj.
  - destruct i; discriminate.
  - inversion Hl as [|? ? Hc Hl']; subst.
    destruct j as [|j]; [lia|]. simpl in Hj.
    destruct i as [|i]; simpl in Hi.
    + injection Hi as <-. rewrite Forall_forall in Hc.
      apply Hc. eapply nth_error_In; eauto.
    + apply (IH i j a b Hl'); [lia | assumption | assumption].
Qed.

Lemma overlap_sym (a b : Sprite Id Z) : overlap a b = overlap b a.
Proof.
  unfold overlap.
  destruct (x a <? x b + w b), (x b <? x a + w a),
           (y a <? y b + h b), (y b <? y a + h a); reflexivity.
Qed.

(** ** The width limit over the reals *)





(** ** The canvas of a non-empty layout *)

Lemma placeItems_canvas limit (items : list (Item Id Img)) :
  items <> [] -> Forall (@sized Id Img) items ->
  let ps := fst (placeItems limit startCursor items) in
  let c' := snd (placeItems limit startCursor items) in
  is_max (maxCanvasWidth c')
         (map (fun p => pos_x p + item_w (item p) + padding) ps)
  /\ is_max (currentY c' + rowHeight c')
            (map (fun p => pos_y p + item_h (item p)) ps).
Proof.
  intros Hne Hs ps c'.
  destruct (placeItems_shelf limit startCursor Hs) as
    (_ & _ & _ & _ & _ & Hpl & _ & Hw & Hh); [simpl; lia | simpl; lia |].
  fold ps in Hpl, Hw, Hh. fold c' in Hpl, Hw, Hh.
  assert (Hfirst : exists p rest, ps = p :: rest).
  { destruct ps as [|p rest] eqn:E; [|eauto].
    exfalso. apply Hne. apply length_zero_iff_nil.
    rewrite <- (placeItems_length limit items startCursor).
    fold ps. now rewrite E. }
  destruct Hfirst as (p0 & rest & Eps).
  assert (Hp0 : placedFrom startCursor c' p0)
    by (rewrite Eps in Hpl; now inversion Hpl).
  destruct Hp0 as ((Hw0 & Hh0) & Hx0 & _ & Hy0 & Hxw0 & Hyh0).
  simpl in Hy0. unfold padding in *.
  split; split.
  - destruct Hw as [Hw|Hw].
    + simpl in Hw. lia.
    + apply Exists_exists in Hw. destruct Hw as (p & Hin & Hp).
      apply in_map_iff. exists p. split; [exact Hp | exact Hin].
  - apply Forall_map. eapply Forall_impl; [|exact Hpl].
    intros p (_ & _ & _ & _ & Hp & _). exact Hp.
  - destruct Hh as [[Hy Hr]|Hh].
    + simpl in Hy, Hr. apply in_map_iff. exists p0. split.
      * lia.
      * rewrite Eps. now left.
    + apply Exists_exists in Hh. destruct Hh as (p & Hin & Hp).
      apply in_map_iff. exists p. split; [exact Hp | exact Hin].
  - apply Forall_map. eapply Forall_impl; [|exact Hpl].
    intros p (_ & _ & _ & _ & _ & Hp). exact Hp.
Qed.

(** ** The wrap test *)




(** ** The cursor read off the rectangles *)







End WithHandles.

(** ** What the specification states about [repackSprites] *)

(** C1, as stated, fails: for three 100 x 50 items the canvas is 306 wide,
    while the rightmost edge [x + w] of a rectangle is 304; the stated
    canvas 304 x 50 is not what the code sets. *)
Lemma C1_canvas_width_counterexample :
  let st := repackSprites Samples.threeItems Samples.freshSession in
  map (fun s => (x s, y s, w s, h s)) (sprites st)
    = [(0, 0, 100, 50); (102, 0, 100, 50); (204, 0, 100, 50)]
  /\ imageDimensions st = mkDimensions 306 50
  /\ ~ is_max (width (imageDimensions st))
             (map (fun s => x s + w s) (sprites st)).
Proof.
  cbv zeta. split; [reflexivity|]. split; [reflexivity|].
  intros [Hin _]. vm_compute in Hin. intuition discriminate.
Qed.

(** C1, amended: for every non-empty list of items with non-negative
    sizes, the canvas width that [repackSprites] sets is the maximum over
    its rectangles of [x + w + padding] (the right edge plus one trailing
    padding of 2), and the canvas height is the maximum over its
    rectangles of [y + h]; three 100 x 50 items pack into one row at
    x = 0, 102, 204 with canvas 306 x 50. *)
Theorem C1_canvas_is_padded_bounding_box :
  (forall (Id Img : Type) (items : list (Item Id Img)) (st : Session Id Img),
      items <> [] -> Forall (@sized Id Img) items ->
      let st' := repackSprites items st in
      is_max (width (imageDimensions st'))
             (map (fun s => x s + w s + padding) (sprites st'))
      /\ is_max (height (imageDimensions st'))
                (map (fun s => y s + h s) (sprites st')))
  /\ (let st' := repackSprites Samples.threeItems Samples.freshSession in
      map (fun s => (x s, y s, w s, h s)) (sprites st')
        = [(0, 0, 100, 50); (102, 0, 100, 50); (204, 0, 100, 50)]
      /\ imageDimensions st' = mkDimensions 306 50).
Proof.
  split.
  - intros Id Img items st Hne Hs st'.
    destruct (repackSprites_nonempty st Hne) as [Esp Edim].
    cbv zeta in Esp, Edim. unfold st'. rewrite Esp, Edim.
    simpl width. simpl height. rewrite !map_map.
    exact (placeItems_canvas (maxWidth (totalArea items)) Hne Hs).
  - split; reflexivity.
Qed.

Lemma C1_canvas_is_padded_bounding_box_witness :
  let st' := repackSprites Samples.sixItems Samples.freshSession in
  is_max (width (imageDimensions st'))
         (map (fun s => x s + w s + padding) (sprites st'))
  /\ is_max (height (imageDimensions st'))
            (map (fun s => y s + h s) (sprites st')).
Proof.
  apply (proj1 C1_canvas_is_padded_bounding_box nat unit
               Samples.sixItems Samples.freshSession).
  - discriminate.
  - repeat constructor; simpl; lia.
Defined.

(** C6, as stated, fails: with the session left by deleting the only
    sprite (no sprites, canvas still 102 x 50), packing the empty list
    leaves the canvas 102 x 50, not 0 x 0; and after three items were
    packed it leaves their three rectangles. *)
Lemma C6_empty_pack_counterexample :
  imageDimensions (repackSprites [] Samples.afterDelete) = mkDimensions 102 50
  /\ List.length
       (sprites (repackSprites []
                   (repackSprites Samples.threeItems Samples.freshSession)))
     = 3%nat.
Proof. split; reflexivity. Qed.

(** C6, amended: [repackSprites] applied to the empty item list is a
    no-op, not an error: it computes no layout and leaves the session's
    rectangles, canvas size and pending draws exactly as they were. *)
Theorem C6_empty_pack_is_noop :
  forall (Id Img : Type) (st : Session Id Img),
    repackSprites [] st = st.
Proof. reflexivity. Qed.

(** C7: for every non-empty item list whose items all have [w > 0] and
    [h > 0], no two rectangles that [repackSprites] produces overlap. *)
Theorem C7_no_overlap :
  forall (Id Img : Type) (items : list (Item Id Img)) (st : Session Id Img),
    items <> [] ->
    Forall (fun it => 0 < item_w it /\ 0 < item_h it) items ->
    forall i j a b,
      i <> j ->
      nth_error (sprites (repackSprites items st)) i = Some a ->
      nth_error (sprites (repackSprites items st)) j = Some b ->
      overlap a b = false.
Proof.
  intros Id Img items st Hne Hpos i j a b Hij Ha Hb.
  destruct (repackSprites_nonempty st Hne) as [Esp _]. cbv zeta in Esp.
  rewrite Esp in Ha, Hb.
  assert (Hs : Forall (@sized Id Img) items).
  { eapply Forall_impl; [|exact Hpos]. unfold sized. intros it [? ?]. lia. }
  destruct (placeItems_shelf (maxWidth (totalArea items)) startCursor Hs) as
    (_ & _ & _ & _ & _ & _ & Hap & _); [simpl; lia | simpl; lia |].
  apply (ForallOrdPairs_map (fun a b => overlap a b = false)) in Hap.
  destruct (Nat.lt_total i j) as [Hlt|[Heq|Hlt]]; [|congruence|].
  - exact (ForallOrdPairs_nth Hap Hlt Ha Hb).
  - rewrite overlap_sym. exact (ForallOrdPairs_nth Hap Hlt Hb Ha).
Qed.

Lemma C7_no_overlap_witness :
  overlap (mkSprite 1%nat "a" 0 0 150 40) (mkSprite 4%nat "d" 0 42 150 40) = false.
Proof.
  apply (@C7_no_overlap nat unit Samples.sixItems Samples.freshSession)
    with (i := 0%nat) (j := 3%nat).
  - discriminate.
  - repeat constructor; simpl; lia.
  - discriminate.
  - reflexivity.
  - reflexivity.
Defined.



(** C9: [repackSprites] keeps the input order and each item's frame: the
    i-th rectangle has the id, w and h of the i-th item and the name
    [item.tag || item.name]; the positioned items handed to the drawing
    are the items themselves, in order, with only [x] and [y] added. The
    empty list produces nothing. *)
Theorem C9_order_and_frame :
  forall (Id Img : Type) (items : list (Item Id Img)) (st : Session Id Img),
    match items with
    | [] => repackSprites items st = st
    | _ =>
        map (fun s => (id s, name s, w s, h s)) (sprites (repackSprites items st))
        = map (fun it => (item_id it,
                          JsString.orElse (item_tag it) (item_name it),
                          item_w it, item_h it)) items
        /\ exists ps fw fh,
             pendingDraws (repackSprites items st)
             = pendingDraws st ++ [(ps, fw, fh)]
             /\ map (@item Id Img) ps = items
             /\ sprites (repackSprites items st) = map (@toSprite Id Img) ps
    end.
Proof.
  intros Id Img items st. destruct items as [|it rest]; [reflexivity|].
  rewrite repackSprites_cons. cbv zeta.
  cbn [sprites pendingDraws].
  set (r := placeItems (maxWidth (totalArea (it :: rest))) startCursor (it :: rest)).
  assert (Hitems : map (@item Id Img) (fst r) = it :: rest)
    by apply placeItems_items.
  split.
  - rewrite map_map. rewrite <- Hitems. rewrite map_map. reflexivity.
  - do 3 eexists. split; [reflexivity|]. split; [exact Hitems | reflexivity].
Qed.

End PackingFacts.

(* ================================================================== *)
(** * Properties of strings *)

Module JsStringFacts.
Import JsString.

Lemma contains_app c (a b : string) :
  contains c (a ++ b) = contains c a || contains c b.
Proof.
  induction a as [|d a IH]; simpl.
  - reflexivity.
  - rewrite IH. now rewrite orb_assoc.
Qed.

Lemma split_nonempty sep s : split sep s <> [].
Proof.
  destruct s as [|c t]; simpl.
  - discriminate.
  - destruct (Ascii.eqb c sep); [discriminate|].
    destruct (split sep t); discriminate.
Qed.

(** A string without the separator is its own single piece. *)
Lemma split_none sep : forall s,
  contains sep s = false -> split sep s = [s].
Proof.
  induction s as [|c t IH]; simpl; intros Hc.
  - reflexivity.
  - apply orb_false_iff in Hc. destruct Hc as [Hc Ht].
    rewrite Hc, (IH Ht). reflexivity.
Qed.

(** The first separator ends the first piece. *)
Lemma split_app sep : forall a b,
  contains sep a = false ->
  split sep (a ++ String sep b) = a :: split sep b.
Proof.
  induction a as [|c a IH]; simpl; intros b Hc.
  - now rewrite Ascii.eqb_refl.
  - apply orb_false_iff in Hc. destruct Hc as [Hc Ha].
    rewrite Hc, (IH b Ha). reflexivity.
Qed.

Lemma join_cons sep a b (l : list string) :
  join sep (a :: b :: l) = a ++ sep ++ join sep (b :: l).
Proof. reflexivity. Qed.

(** [split] undoes [join] on pieces that do not contain the separator. *)
Lemma split_join sep : forall l,
  l <> [] ->
  Forall (fun s => contains sep s = false) l ->
  split sep (join (String sep EmptyString) l) = l.
Proof.
  induction l as [|a l IH]; intros Hne Hl; [congruence|].
  inversion Hl as [|? ? Ha Hl']; subst.
  destruct l as [|b l].
  - simpl. now apply split_none.
  - rewrite join_cons. simpl append.
    rewrite (@split_app sep a _ Ha). f_equal. apply IH; [discriminate | exact Hl'].
Qed.

(** ** Pieces of a split *)

Lemma split_pieces_sep sep : forall s,
  Forall (fun p => contains sep p = false) (split sep s).
Proof.
  induction s as [|c t IH]; simpl.
  - repeat constructor.
  - destruct (Ascii.eqb c sep) eqn:E.
    + constructor; [reflexivity | exact IH].
    + destruct (split sep t) as [|p ps]; [repeat constructor; simpl; now rewrite E|].
      inversion IH as [|? ? Hp Hps]; subst.
      constructor; [simpl; now rewrite E, Hp | exact Hps].
Qed.

Lemma split_pieces_other sep c : forall s,
  contains c s = false ->
  Forall (fun p => contains c p = false) (split sep s).
Proof.
  induction s as [|d t IH]; simpl; intros Hc.
  - repeat constructor.
  - apply orb_false_iff in Hc. destruct Hc as [Hd Ht]. specialize (IH Ht).
    destruct (Ascii.eqb d sep).
    + constructor; [reflexivity | exact IH].
    + destruct (split sep t) as [|p ps]; [repeat constructor; simpl; now rewrite Hd|].
      inversion IH as [|? ? Hp Hps]; subst.
      constructor; [simpl; now rewrite Hd, Hp | exact Hps].
Qed.

(** [join] undoes [split]. *)
Lemma join_split sep : forall s,
  join (String sep EmptyString) (split sep s) = s.
Proof.
  induction s as [|c t IH]; [reflexivity|].
  cbn [split]. destruct (Ascii.eqb_spec c sep) as [->|Hne].
  - pose proof (@split_nonempty sep t) as Hn.
    destruct (split sep t) as [|p ps] eqn:E; [congruence|].
    rewrite join_cons. cbn [append]. now rewrite IH.
  - destruct (split sep t) as [|p ps] eqn:E.
    + now destruct (@split_nonempty sep t).
    + rewrite <- IH. destruct ps; reflexivity.
Qed.

(** A string with a separator in it splits into two pieces at least. *)
Lemma split_two sep s :
  contains sep s = true -> exists a b l, split sep s = a :: b :: l.
Proof.
  intros Hc. pose proof (join_split sep s) as Hj.
  pose proof (split_pieces_sep sep s) as Hp.
  destruct (split sep s) as [|a [|b l]] eqn:E.
  - now destruct (@split_nonempty sep s).
  - cbn in Hj. subst a. inversion Hp; congruence.
  - eauto.
Qed.

Lemma replaceAll_id cls by_ : forall s,
  (forall c, cls c = true -> contains c s = false) ->
  replaceAll cls by_ s = s.
Proof.
  induction s as [|c t IH]; simpl; intros Hs.
  - reflexivity.
  - destruct (cls c) eqn:E.
    + specialize (Hs c E). simpl in Hs. now rewrite Ascii.eqb_refl in Hs.
    + f_equal. apply IH. intros d Hd. specialize (Hs d Hd). simpl in Hs.
      now apply orb_false_iff in Hs.
Qed.

Lemma isEmpty_false_iff s : isEmpty s = false <-> s <> EmptyString.
Proof. destruct s; simpl; split; congruence. Qed.

End JsStringFacts.

(* ================================================================== *)
(** * Properties of the decimal numbers *)

Module DecNumberFacts.
Import JsString JsStringFacts DecNumber.

Lemma allDigits_uint d : allDigits (NilEmpty.string_of_uint d) = true.
Proof. induction d; simpl; auto. Qed.

Lemma allDigits_digitsOf n : allDigits (digitsOf n) = true.
Proof.
  unfold digitsOf, NilZero.string_of_uint.
  destruct (N.to_uint n) eqn:E; try reflexivity;
    rewrite <- E; apply allDigits_uint.
Qed.

Lemma digitsOf_nonempty n : digitsOf n <> EmptyString.
Proof.
  unfold digitsOf, NilZero.string_of_uint.
  destruct (N.to_uint n); simpl; discriminate.
Qed.

Lemma parseDigits_digitsOf n : parseDigits (digitsOf n) = Some n.
Proof.
  unfold parseDigits, digitsOf. rewrite NilZero.usu.
  - simpl. now rewrite DecimalN.Unsigned.of_to.
  - destruct n; [discriminate | apply DecimalPos.Unsigned.to_uint_nonnil].
Qed.

(** A character that is no digit does not occur among digits. *)
Lemma allDigits_contains c : forall s,
  allDigits s = true -> isDigit c = false -> contains c s = false.
Proof.
  induction s as [|d t IH]; simpl; intros Hs Hc; [reflexivity|].
  apply andb_true_iff in Hs. destruct Hs as [Hd Ht].
  rewrite (IH Ht Hc), orb_false_r.
  destruct (Ascii.eqb_spec d c) as [->|]; [congruence|reflexivity].
Qed.

Lemma allDigits_breakAt p : forall s,
  allDigits s = true -> (forall c, isDigit c = true -> p c = false) ->
  breakAt p s = (s, None).
Proof.
  induction s as [|d t IH]; simpl; intros Hs Hp; [reflexivity|].
  apply andb_true_iff in Hs. destruct Hs as [Hd Ht].
  rewrite (Hp d Hd), (IH Ht Hp). reflexivity.
Qed.

Lemma isDigit_not_white c : isDigit c = true -> isWhiteSpace c = false.
Proof.
  unfold isDigit, isWhiteSpace. intros Hd.
  apply andb_true_iff in Hd. destruct Hd as [H1 H2].
  apply N.leb_le in H1. apply N.leb_le in H2.
  apply orb_false_iff. split.
  - apply andb_false_iff. right. apply N.leb_gt. lia.
  - apply N.eqb_neq. lia.
Qed.

Lemma allDigits_trimStart s : allDigits s = true -> trimStart s = s.
Proof.
  destruct s as [|c t]; simpl; intros Hs; [reflexivity|].
  apply andb_true_iff in Hs. destruct Hs as [Hd _].
  now rewrite (isDigit_not_white _ Hd).
Qed.

Lemma allDigits_trimEnd : forall s, allDigits s = true -> trimEnd s = s.
Proof.
  induction s as [|c t IH]; simpl; intros Hs; [reflexivity|].
  apply andb_true_iff in Hs. destruct Hs as [Hd Ht].
  now rewrite (IH Ht), (isDigit_not_white _ Hd).
Qed.

Lemma append_empty : forall s : string, (s ++ "")%string = s.
Proof. induction s as [|c t IH]; simpl; [reflexivity | now rewrite IH]. Qed.

(** A string of digits read as an unsigned literal. *)
Lemma parseUnsigned_digits n :
  parseUnsigned (digitsOf n) = Some (Finite (Z.of_N n) 0).
Proof.
  pose proof (allDigits_digitsOf n) as Hd.
  unfold parseUnsigned.
  destruct (String.eqb_spec (digitsOf n) "Infinity") as [E|_].
  - rewrite E in Hd. discriminate.
  - rewrite (allDigits_breakAt _ _ Hd).
    + rewrite (allDigits_breakAt _ _ Hd).
      * rewrite append_empty, parseDigits_digitsOf.
        unfold scaled. simpl. now rewrite Z.mul_1_r.
      * intros c Hc. destruct (Ascii.eqb_spec "." c) as [<-|]; [discriminate|reflexivity].
    + intros c Hc. apply orb_false_iff.
      split; [destruct (Ascii.eqb_spec c "e") as [->|]
             | destruct (Ascii.eqb_spec c "E") as [->|]];
        try discriminate; reflexivity.
Qed.

(** A string of digits is read as the literal it is: no white space to
    trim, no sign, and no radix prefix. *)
Lemma ofString_digits s :
  allDigits s = true -> s <> EmptyString ->
  ofString s = orNaN (parseUnsigned s).
Proof.
  intros Hd Hne. unfold ofString.
  rewrite (allDigits_trimStart _ Hd), (allDigits_trimEnd _ Hd).
  destruct s as [|c t]; [congruence|].
  simpl in Hd. apply andb_true_iff in Hd. destruct Hd as [Hc Ht].
  destruct c as [[|] [|] [|] [|] [|] [|] [|] [|]]; try discriminate Hc;
    try reflexivity.
  destruct t as [|c2 t2]; [reflexivity|].
  simpl in Ht. apply andb_true_iff in Ht. destruct Ht as [Hc2 _].
  destruct c2 as [[|] [|] [|] [|] [|] [|] [|] [|]]; try discriminate Hc2;
    reflexivity.
Qed.

Lemma ofString_digitsOf n : ofString (digitsOf n) = Finite (Z.of_N n) 0.
Proof.
  rewrite ofString_digits;
    [| apply allDigits_digitsOf | apply digitsOf_nonempty].
  now rewrite parseUnsigned_digits.
Qed.

Lemma ofString_minus_digitsOf n :
  ofString ("-" ++ digitsOf n) = Finite (- Z.of_N n) 0.
Proof.
  unfold ofString. cbn [append trimStart isWhiteSpace].
  change (isWhiteSpace "-") with false. cbv iota.
  cbn [trimEnd]. change (isWhiteSpace "-") with false. cbn [andb].
  rewrite (allDigits_trimEnd _ (allDigits_digitsOf n)).
  now rewrite parseUnsigned_digits.
Qed.

Lemma stripZeros_length : forall s,
  (String.length (stripZeros s) <= String.length s)%nat.
Proof.
  induction s as [|c t IH]; simpl; [lia|].
  destruct (Ascii.eqb c "0" && isEmpty (stripZeros t)); simpl; lia.
Qed.

(** The zeros [stripZeros] removes, put back. *)
Lemma stripZeros_zeros : forall s,
  (stripZeros s
   ++ zeros (String.length s - String.length (stripZeros s)))%string = s.
Proof.
  induction s as [|c t IH]; [reflexivity|].
  pose proof (stripZeros_length t) as Hl.
  cbn [stripZeros String.length].
  destruct (Ascii.eqb_spec c "0") as [->|Hc]; cbn [andb].
  - destruct (stripZeros t) as [|d u] eqn:E; cbn [isEmpty].
    + simpl in IH. rewrite Nat.sub_0_r in IH. simpl. now rewrite IH.
    + cbn [String.length append].
      replace (S (String.length t) - S (String.length (String d u)))%nat
        with (String.length t - String.length (String d u))%nat
        by (simpl; lia).
      simpl in IH |- *. now rewrite IH.
  - cbn [String.length append].
    replace (S (String.length t) - S (String.length (stripZeros t)))%nat
      with (String.length t - String.length (stripZeros t))%nat by lia.
    now rewrite IH.
Qed.

(** An integer of at most 21 digits prints as its digits. *)
Lemma toStringPositive_integer m :
  (String.length (digitsOf (Z.to_N m)) <= 21)%nat ->
  toStringPositive m 0 = digitsOf (Z.to_N m).
Proof.
  intros Hlen. unfold toStringPositive.
  set (all := digitsOf (Z.to_N m)) in *.
  pose proof (stripZeros_length all) as Hk.
  replace (Z.of_nat (String.length all) - Z.of_nat 0)
    with (Z.of_nat (String.length all)) by lia.
  replace ((Z.of_nat (String.length (stripZeros all)) <=? Z.of_nat (String.length all))
           && (Z.of_nat (String.length all) <=? 21)) with true
    by (symmetry; apply andb_true_iff; split; apply Z.leb_le; lia).
  replace (Z.to_nat (Z.of_nat (String.length all)
                     - Z.of_nat (String.length (stripZeros all))))
    with (String.length all - String.length (stripZeros all))%nat by lia.
  apply stripZeros_zeros.
Qed.

(** Integers of at most 21 digits are printed in plain decimal notation,
    without any delimiter, and read back as themselves. *)
Lemma toString_ofZ z :
  (String.length (digitsOf (Z.abs_N z)) <= 21)%nat ->
  toString (ofZ z)
  = if z <? 0 then ("-" ++ digitsOf (Z.abs_N z))%string else digitsOf (Z.abs_N z).
Proof.
  intros Hlen. unfold toString, ofZ.
  destruct (Z.eqb_spec z 0) as [->|Hz]; [reflexivity|].
  destruct (Z.ltb_spec z 0) as [Hneg|Hpos].
  - rewrite toStringPositive_integer;
      replace (Z.to_N (- z)) with (Z.abs_N z) by lia; auto.
  - rewrite toStringPositive_integer;
      replace (Z.to_N z) with (Z.abs_N z) by lia; auto.
Qed.

Lemma ofZ_survives z :
  (String.length (digitsOf (Z.abs_N z)) <= 21)%nat ->
  Codec.survives (ofZ z).
Proof.
  intros Hlen. unfold Codec.survives.
  split; [reflexivity|].
  change (numToString (ofZ z)) with (toString (ofZ z)).
  change (Number (toString (ofZ z))) with (ofString (toString (ofZ z))).
  rewrite (toString_ofZ _ Hlen).
  pose proof (allDigits_digitsOf (Z.abs_N z)) as Hd.
  destruct (Z.ltb_spec z 0) as [Hneg|Hpos]; split.
  - rewrite ofString_minus_digitsOf. unfold ofZ. f_equal. lia.
  - unfold Codec.delimiterFree. cbn [append contains].
    rewrite !(allDigits_contains _ _ Hd) by reflexivity.
    repeat split; reflexivity.
  - rewrite ofString_digitsOf. unfold ofZ. f_equal. lia.
  - unfold Codec.delimiterFree.
    rewrite !(allDigits_contains _ _ Hd) by reflexivity.
    repeat split; reflexivity.
Qed.

End DecNumberFacts.

(* ================================================================== *)
(** * Properties of the URL hash codec *)

Module CodecFacts.
Import JsString JsStringFacts Codec.
Local Open Scope list_scope.

(** Case analysis on every scrutinee of the goal. *)
Ltac break_matches :=
  repeat match goal with
         | |- context [match ?v with _ => _ end] => destruct v eqn:?
         end.

Section WithNumbers.
Context {num : Type} `{JsNumber num}.

Lemma deserializeSprites_prefixed now data :
  deserializeSprites now ("#v1|" ++ data)%string =
  if isEmpty data then [] else deserializeItems now 0 (split ";" data).
Proof. reflexivity. Qed.

(** Without the prefix [#v1|] nothing is decoded. *)
Lemma deserializeSprites_unprefixed now hash :
  startsWith hash "#v1|" = false -> deserializeSprites now hash = [].
Proof.
  unfold deserializeSprites. intros Hp.
  destruct hash as [|c t]; [reflexivity|].
  cbn [startsWith] in Hp. cbn [isEmpty orb startsWith drop].
  destruct (Ascii.eqb c "#"); [|reflexivity].
  cbn [andb negb] in *. rewrite Hp. reflexivity.
Qed.

Lemma isEmpty_app_String a c b : isEmpty (a ++ String c b)%string = false.
Proof. now destruct a. Qed.

(** The callback on a record with a name and four fields. *)
Lemma deserializeItem_record now i name fx fy fw fh :
  name <> EmptyString -> contains ":" name = false ->
  delimiterFree fx -> delimiterFree fy -> delimiterFree fw -> delimiterFree fh ->
  deserializeItem now i (recordText name fx fy fw fh) =
  if isNaN (Number fx) || isNaN (Number fy) || isNaN (Number fw) || isNaN (Number fh)
  then None
  else Some (mkSprite (now i + Z.of_nat i) name
                      (Number fx) (Number fy) (Number fw) (Number fh)).
Proof.
  intros Hne Hn (Hx1 & _ & Hx2) (Hy1 & _ & Hy2) (Hw1 & _ & Hw2) (Hh1 & _ & Hh2).
  unfold deserializeItem, recordText.
  set (coords := (fx ++ "," ++ fy ++ "," ++ fw ++ "," ++ fh)%string).
  assert (Hc : contains ":" coords = false).
  { unfold coords. rewrite !contains_app, Hx1, Hy1, Hw1, Hh1. reflexivity. }
  change (name ++ ":" ++ coords)%string with (name ++ String ":" coords)%string.
  rewrite (@split_app ":" name coords Hn), (split_none _ _ Hc).
  cbn [nth_error].
  apply isEmpty_false_iff in Hne. rewrite Hne.
  assert (Hce : isEmpty coords = false) by apply isEmpty_app_String.
  rewrite Hce. cbn [orb].
  unfold coords.
  change (fx ++ "," ++ fy ++ "," ++ fw ++ "," ++ fh)%string
    with (fx ++ String "," (fy ++ String "," (fw ++ String "," fh)))%string.
  rewrite (@split_app "," fx _ Hx2), (@split_app "," fy _ Hy2),
          (@split_app "," fw _ Hw2), (split_none _ _ Hh2).
  reflexivity.
Qed.

(** The tuple a record decodes to depends neither on its position nor on
    the clock. *)
Lemma deserializeItem_tuple now now' i j r :
  option_map tuple (deserializeItem now i r)
  = option_map tuple (deserializeItem now' j r).
Proof.
  unfold deserializeItem. break_matches; reflexivity.
Qed.

(** A record decoded alone. *)
Lemma decodeRecord_item now r :
  contains ";" r = false ->
  decodeRecord now r =
  match deserializeItem now 0 r with Some s => [s] | None => [] end.
Proof.
  intros Hr. unfold decodeRecord. rewrite deserializeSprites_prefixed.
  destruct r as [|c t]; [reflexivity|].
  cbn [isEmpty]. rewrite (split_none _ _ Hr). reflexivity.
Qed.

Lemma deserializeItems_tuples now now' : forall recs i,
  Forall (fun r => contains ";" r = false) recs ->
  map tuple (deserializeItems now i recs)
  = flat_map (fun r => map tuple (decodeRecord now' r)) recs.
Proof.
  induction recs as [|r recs IH]; intros i Hrecs; [reflexivity|].
  inversion Hrecs as [|? ? Hr Hrecs']; subst.
  cbn [deserializeItems flat_map].
  rewrite (decodeRecord_item now' r Hr).
  pose proof (deserializeItem_tuple now now' i 0 r) as Ht.
  destruct (deserializeItem now i r) as [s|],
           (deserializeItem now' 0 r) as [s'|];
    cbn [option_map] in Ht; try discriminate; cbn [map app].
  - assert (Hs : tuple s = tuple s') by congruence.
    rewrite Hs. change ([tuple s'] ++ ?l) with (tuple s' :: l).
    f_equal. now apply IH.
  - now apply IH.
Qed.

(** Decoding several records is decoding each of them alone. *)
Lemma deserializeSprites_records now now' recs :
  recs <> [] ->
  Forall (fun r => contains ";" r = false) recs ->
  map tuple (deserializeSprites now ("#v1|" ++ join ";" recs)%string)
  = flat_map (fun r => map tuple (decodeRecord now' r)) recs.
Proof.
  intros Hne Hrecs. rewrite deserializeSprites_prefixed.
  destruct (isEmpty (join ";" recs)) eqn:E.
  - destruct recs as [|r [|r' recs]]; [congruence| |].
    + simpl in E. destruct r; [reflexivity|discriminate].
    + rewrite join_cons in E. destruct r; discriminate.
  - change (join ";" recs) with (join (String ";" EmptyString) recs).
    rewrite (@split_join ";"%char recs Hne Hrecs).
    now apply deserializeItems_tuples.
Qed.

(** ** Records that are skipped *)

Lemma decodeRecord_no_colon now r :
  contains ":" r = false -> contains ";" r = false -> decodeRecord now r = [].
Proof.
  intros Hc Hs. rewrite (decodeRecord_item now r Hs).
  unfold deserializeItem. rewrite (split_none _ _ Hc). reflexivity.
Qed.

Lemma contains_join c sep : forall l,
  contains c sep = false ->
  Forall (fun s => contains c s = false) l ->
  contains c (join sep l) = false.
Proof.
  induction l as [|a l IH]; intros Hsep Hl; [reflexivity|].
  inversion Hl as [|? ? Ha Hl']; subst.
  destruct l as [|b l]; [exact Ha|].
  rewrite join_cons, !contains_app, Ha, Hsep. now apply IH.
Qed.

Lemma contains_recordText c name fx fy fw fh :
  contains c (recordText name fx fy fw fh)
  = contains c name || Ascii.eqb ":" c
    || contains c fx || Ascii.eqb "," c
    || contains c fy || Ascii.eqb "," c
    || contains c fw || Ascii.eqb "," c
    || contains c fh.
Proof.
  unfold recordText. rewrite !contains_app. cbn [contains].
  rewrite !orb_false_r, !orb_assoc. reflexivity.
Qed.

Lemma recordText_no_semicolon name fx fy fw fh :
  contains ";" name = false ->
  delimiterFree fx -> delimiterFree fy -> delimiterFree fw -> delimiterFree fh ->
  contains ";" (recordText name fx fy fw fh) = false.
Proof.
  intros Hn (_ & Hx & _) (_ & Hy & _) (_ & Hw & _) (_ & Hh & _).
  rewrite contains_recordText, Hn, Hx, Hy, Hw, Hh. reflexivity.
Qed.

Lemma decodeRecord_good now name fx fy fw fh :
  name <> EmptyString ->
  contains ":" name = false -> contains ";" name = false ->
  delimiterFree fx -> delimiterFree fy -> delimiterFree fw -> delimiterFree fh ->
  isNaN (Number fx) = false -> isNaN (Number fy) = false ->
  isNaN (Number fw) = false -> isNaN (Number fh) = false ->
  decodeRecord now (recordText name fx fy fw fh)
  = [mkSprite (now 0%nat + 0) name
              (Number fx) (Number fy) (Number fw) (Number fh)].
Proof.
  intros Hne Hc Hs Hx Hy Hw Hh Nx Ny Nw Nh.
  rewrite decodeRecord_item by now apply recordText_no_semicolon.
  rewrite deserializeItem_record by assumption.
  now rewrite Nx, Ny, Nw, Nh.
Qed.

(** ** Records by their pieces *)

Lemma recordOf_semicolon name fields more :
  piece name -> Forall delimiterFree fields -> Forall piece more ->
  contains ";" (recordOf name fields more) = false.
Proof.
  intros [_ Hn] Hf Hm. unfold recordOf.
  apply contains_join; [reflexivity|].
  constructor; [exact Hn|]. constructor.
  - apply contains_join; [reflexivity|].
    eapply Forall_impl; [|exact Hf]. now intros f (_ & ? & _).
  - eapply Forall_impl; [|exact Hm]. now intros f (_ & ?).
Qed.

Lemma recordOf_split name fields more :
  piece name -> Forall delimiterFree fields -> Forall piece more ->
  split ":" (recordOf name fields more) = name :: join "," fields :: more.
Proof.
  intros [Hn _] Hf Hm. unfold recordOf.
  change (join ":" ?l) with (join (String ":" EmptyString) l).
  apply split_join; [discriminate|].
  constructor; [exact Hn|]. constructor.
  - apply contains_join; [reflexivity|].
    eapply Forall_impl; [|exact Hf]. now intros f (? & _).
  - eapply Forall_impl; [|exact Hm]. now intros f (? & _).
Qed.

Lemma fields_split fields :
  fields <> [] -> Forall delimiterFree fields ->
  split "," (join "," fields) = fields.
Proof.
  intros Hne Hf.
  change (join "," fields) with (join (String "," EmptyString) fields).
  apply split_join; [exact Hne|].
  eapply Forall_impl; [|exact Hf]. now intros f (_ & _ & ?).
Qed.

(** The callback on a record given by its pieces: what follows a second
    colon and what follows the fourth field are not looked at. *)
Lemma deserializeItem_pieces now i name fields more :
  piece name -> Forall delimiterFree fields -> Forall piece more ->
  deserializeItem now i (recordOf name fields more) =
  match fields with
  | fx :: fy :: fw :: fh :: _ =>
      if isEmpty name then None
      else if isNaN (Number fx) || isNaN (Number fy)
              || isNaN (Number fw) || isNaN (Number fh)
           then None
           else Some (mkSprite (now i + Z.of_nat i) name
                               (Number fx) (Number fy) (Number fw) (Number fh))
  | _ => None
  end.
Proof.
  intros Hn Hf Hm. unfold deserializeItem.
  rewrite (recordOf_split Hn Hf Hm). cbn [nth_error].
  destruct fields as [|fx fields'].
  - cbn [join String.concat isEmpty]. now rewrite orb_true_r.
  - rewrite (fields_split (fields := fx :: fields')) by (discriminate || exact Hf).
    destruct fields' as [|fy [|fw [|fh extra]]];
      try (destruct (isEmpty name || isEmpty _); reflexivity).
    rewrite join_cons.
    change (fx ++ "," ++ ?z)%string with (fx ++ String "," z)%string.
    rewrite isEmpty_app_String, orb_false_r.
    cbn [map nth_error]. reflexivity.
Qed.

Lemma decodeRecord_pieces now name fields more :
  piece name -> Forall delimiterFree fields -> Forall piece more ->
  decodeRecord now (recordOf name fields more) =
  match deserializeItem now 0 (recordOf name fields more) with
  | Some s => [s]
  | None => []
  end.
Proof.
  intros Hn Hf Hm. apply decodeRecord_item. now apply recordOf_semicolon.
Qed.

(** Every record with a colon is made of pieces, in the way [recordOf]
    puts them together. *)
Lemma record_pieces r :
  contains ";" r = false -> contains ":" r = true ->
  exists name fields more,
    r = recordOf name fields more
    /\ piece name /\ Forall delimiterFree fields /\ fields <> []
    /\ Forall piece more.
Proof.
  intros Hsemi Hcolon.
  destruct (split_two ":" r Hcolon) as (a & b & l & E).
  pose proof (split_pieces_sep ":" r) as Hc.
  pose proof (split_pieces_other ":" ";" r Hsemi) as Hs.
  rewrite E in Hc, Hs.
  inversion Hc as [|? ? Hca Hc1]; subst. inversion Hc1 as [|? ? Hcb Hcl]; subst.
  inversion Hs as [|? ? Hsa Hs1]; subst. inversion Hs1 as [|? ? Hsb Hsl]; subst.
  exists a, (split "," b), l. split; [|split; [|split; [|split]]].
  - unfold recordOf.
    change (join "," (split "," b)) with (join (String "," EmptyString) (split "," b)).
    rewrite join_split, <- E.
    change (join ":" ?x) with (join (String ":" EmptyString) x).
    now rewrite join_split.
  - split; assumption.
  - pose proof (split_pieces_sep "," b) as H1.
    pose proof (split_pieces_other "," ":" b Hcb) as H2.
    pose proof (split_pieces_other "," ";" b Hsb) as H3.
    apply Forall_forall. intros f Hin. rewrite Forall_forall in H1, H2, H3.
    repeat split; auto.
  - apply split_nonempty.
  - apply Forall_forall. intros f Hin. rewrite Forall_forall in Hcl, Hsl.
    split; auto.
Qed.

(** ** Encoding *)

Lemma hasReserved_contains : forall s c,
  hasReserved s = false -> reserved c = true -> contains c s = false.
Proof.
  induction s as [|d t IH]; simpl; intros c Hs Hc; [reflexivity|].
  apply orb_false_iff in Hs. destruct Hs as [Hd Ht].
  rewrite (IH c Ht Hc), orb_false_r.
  destruct (Ascii.eqb_spec d c) as [->|]; [congruence|reflexivity].
Qed.

Lemma serializeSprite_carried {Id} (s : Sprite Id num) :
  carried s ->
  serializeSprite s
  = recordText (name s) (numToString (x s)) (numToString (y s))
               (numToString (w s)) (numToString (h s)).
Proof.
  intros (_ & Hr & _). unfold serializeSprite, recordText.
  rewrite replaceAll_id; [reflexivity|].
  intros c Hc. now apply hasReserved_contains.
Qed.

Lemma decodeRecord_serializeSprite {Id} now (s : Sprite Id num) :
  carried s ->
  contains ";" (serializeSprite s) = false
  /\ map tuple (decodeRecord now (serializeSprite s)) = [tuple s].
Proof.
  intros Hs. rewrite (serializeSprite_carried Hs).
  destruct Hs as (Hne & Hr & (Nx & Rx & Dx) & (Ny & Ry & Dy)
                  & (Nw & Rw & Dw) & (Nh & Rh & Dh)).
  assert (Hc : contains ":" (name s) = false)
    by (apply hasReserved_contains; [exact Hr | reflexivity]).
  assert (Hsc : contains ";" (name s) = false)
    by (apply hasReserved_contains; [exact Hr | reflexivity]).
  split; [now apply recordText_no_semicolon|].
  rewrite decodeRecord_good; try assumption; try congruence.
  cbn [map]. unfold tuple. cbn [name x y w h]. now rewrite Rx, Ry, Rw, Rh.
Qed.

End WithNumbers.

(** ** What the specification states about the codec *)

(** C2, as stated, fails: [serializeSprites] writes [v1|icon:0,0,32,32]
    without the [#] that [deserializeSprites] demands first, so decoding
    its output yields nothing; and behind a [#], a sprite whose name is
    empty (a name with no reserved character in it) is skipped. *)
Lemma C2_roundtrip_counterexample :
  serializeSprites [Samples.icon "icon"] = "v1|icon:0,0,32,32"
  /\ map tuple (deserializeSprites Samples.noon
                  (serializeSprites [Samples.icon "icon"]))
     <> map tuple [Samples.icon "icon"]
  /\ hasReserved "" = false
  /\ map tuple (deserializeSprites Samples.noon
                  ("#" ++ serializeSprites [Samples.icon ""]))
     <> map tuple [Samples.icon ""].
Proof.
  split; [reflexivity|]. split; [vm_compute; discriminate|].
  split; [reflexivity|]. vm_compute; discriminate.
Qed.

(** C2, amended: for every rectangle list whose names are non-empty and
    contain none of the reserved characters [: ; , |], and whose
    coordinates survive printing and reading back (they are not [NaN]),
    decoding [#] followed by [encode(rs)], which is the hash as the URL
    holds it, reproduces the same [(name, x, y, w, h)] tuples in the same
    order; identifiers need not match. Over the decimal numbers every
    integer coordinate of at most 21 digits is such a coordinate. *)
Theorem C2_roundtrip :
  (forall (num : Type) (N : JsNumber num) (Id : Type)
          (rs : list (Sprite Id num)) (now : nat -> Z),
      Forall carried rs ->
      map tuple (deserializeSprites now ("#" ++ serializeSprites rs)) = map tuple rs)
  /\ (forall (Id : Type) (rs : list (Sprite Id DecNumber.t)) (now : nat -> Z),
        Forall plain rs ->
        map tuple (deserializeSprites now ("#" ++ serializeSprites rs)) = map tuple rs).
Proof.
  assert (Hgen : forall (num : Type) (N : JsNumber num) (Id : Type)
                        (rs : list (Sprite Id num)) (now : nat -> Z),
             Forall carried rs ->
             map tuple (deserializeSprites now ("#" ++ serializeSprites rs))
             = map tuple rs).
  { intros num N Id rs now Hrs.
    destruct rs as [|r rs]; [reflexivity|].
    set (all := r :: rs) in *.
    assert (Hne : map serializeSprite all <> []) by discriminate.
    assert (Hsc : Forall (fun t => contains ";" t = false) (map serializeSprite all)).
    { apply Forall_map. eapply Forall_impl; [|exact Hrs].
      intros s Hs. exact (proj1 (decodeRecord_serializeSprite now Hs)). }
    change ("#" ++ serializeSprites all)%string
      with ("#v1|" ++ join ";" (map serializeSprite all))%string.
    rewrite (deserializeSprites_records now now Hne Hsc).
    clearbody all. clear Hne Hsc.
    induction Hrs as [|s l Hs Hl IH]; [reflexivity|].
    cbn [map flat_map].
    rewrite (proj2 (decodeRecord_serializeSprite now Hs)), IH. reflexivity. }
  split; [exact Hgen|].
  intros Id rs now Hrs. apply Hgen.
  eapply Forall_impl; [|exact Hrs].
  intros s (Hne & Hr & (zx & Ex & Lx) & (zy & Ey & Ly) & (zw & Ew & Lw) & (zh & Eh & Lh)).
  unfold carried. rewrite Ex, Ey, Ew, Eh.
  repeat split; try assumption;
    try (apply DecNumberFacts.ofZ_survives; assumption).
Qed.

Lemma C2_roundtrip_witness :
  map tuple (deserializeSprites Samples.noon
               ("#" ++ serializeSprites Samples.twoIcons))
  = map tuple Samples.twoIcons.
Proof.
  apply (proj2 C2_roundtrip Z Samples.twoIcons Samples.noon).
  repeat constructor; try discriminate;
    eexists; (split; [reflexivity | vm_compute; lia]).
Defined.

(** C3, as stated, fails on its example: the string
    [v1|a:1,2,3,x;b:0,0,10,10] does not begin with [#], and
    [deserializeSprites] returns nothing for it, not the [b] rectangle. *)
Lemma C3_decode_example_counterexample :
  deserializeSprites (num := DecNumber.t) Samples.noon "v1|a:1,2,3,x;b:0,0,10,10"
  = [].
Proof. reflexivity. Qed.

(** C3, amended: the prefix [deserializeSprites] expects is [#v1|]. A
    string without it decodes to the empty sequence. Behind it, the
    records are decoded one by one: the result for records joined with
    [;] is the concatenation of the results for each record alone. A
    record is cut at its colons into a name, a coordinate part and
    whatever follows a second colon, and the coordinate part at its
    commas into fields; every record with a colon is made of such pieces.
    A record yields nothing when it has no colon, when its name is empty,
    when it has fewer than four fields (an empty coordinate part has
    one), or when one of its first four fields is not a number; otherwise
    it yields its name with the numbers of its first four fields, and
    neither the text after a second colon nor a field after the fourth is
    looked at. In particular [#v1|a:1,2,3,x;b:0,0,10,10] decodes to
    exactly the [b] rectangle, and [#v1|a:1,2,3,4:junk;b:0,0,10,10] to
    both. *)
Theorem C3_decode_skips_records :
  (forall (num : Type) (N : JsNumber num) now hash,
      startsWith hash "#v1|" = false -> deserializeSprites now hash = [])
  /\ (forall (num : Type) (N : JsNumber num) now now' recs,
        recs <> [] ->
        Forall (fun r => contains ";" r = false) recs ->
        map tuple (deserializeSprites now ("#v1|" ++ join ";" recs)%string)
        = flat_map (fun r => map tuple (decodeRecord now' r)) recs)
  /\ (forall r,
        contains ";" r = false ->
        contains ":" r = false
        \/ exists name fields more,
             r = recordOf name fields more
             /\ piece name /\ Forall delimiterFree fields /\ fields <> []
             /\ Forall piece more)
  /\ (forall (num : Type) (N : JsNumber num) now r,
        contains ":" r = false -> contains ";" r = false ->
        decodeRecord now r = [])
  /\ (forall (num : Type) (N : JsNumber num) now fields more,
        Forall delimiterFree fields -> Forall piece more ->
        decodeRecord now (recordOf "" fields more) = [])
  /\ (forall (num : Type) (N : JsNumber num) now name fields more,
        piece name -> Forall delimiterFree fields -> Forall piece more ->
        (List.length fields < 4)%nat ->
        decodeRecord now (recordOf name fields more) = [])
  /\ (forall (num : Type) (N : JsNumber num) now name fx fy fw fh extra more,
        piece name ->
        Forall delimiterFree (fx :: fy :: fw :: fh :: extra) ->
        Forall piece more ->
        isNaN (Number fx) || isNaN (Number fy)
        || isNaN (Number fw) || isNaN (Number fh) = true ->
        decodeRecord now (recordOf name (fx :: fy :: fw :: fh :: extra) more) = [])
  /\ (forall (num : Type) (N : JsNumber num) now name fx fy fw fh extra more,
        name <> EmptyString ->
        piece name ->
        Forall delimiterFree (fx :: fy :: fw :: fh :: extra) ->
        Forall piece more ->
        isNaN (Number fx) || isNaN (Number fy)
        || isNaN (Number fw) || isNaN (Number fh) = false ->
        decodeRecord now (recordOf name (fx :: fy :: fw :: fh :: extra) more)
        = [mkSprite (now 0%nat + 0) name
                    (Number fx) (Number fy) (Number fw) (Number fh)])
  /\ deserializeSprites Samples.noon "#v1|a:1,2,3,x;b:0,0,10,10"
     = [mkSprite (Samples.noon 1%nat + 1) "b"
                 (DecNumber.ofZ 0) (DecNumber.ofZ 0)
                 (DecNumber.ofZ 10) (DecNumber.ofZ 10)]
  /\ deserializeSprites Samples.noon "#v1|a:1,2,3,4:junk;b:0,0,10,10"
     = [mkSprite (Samples.noon 0%nat + 0) "a"
                 (DecNumber.ofZ 1) (DecNumber.ofZ 2)
                 (DecNumber.ofZ 3) (DecNumber.ofZ 4);
        mkSprite (Samples.noon 1%nat + 1) "b"
                 (DecNumber.ofZ 0) (DecNumber.ofZ 0)
                 (DecNumber.ofZ 10) (DecNumber.ofZ 10)].
Proof.
  repeat match goal with |- _ /\ _ => split end.
  - intros; now apply deserializeSprites_unprefixed.
  - intros; now apply deserializeSprites_records.
  - intros r Hsemi. destruct (contains ":" r) eqn:E; [right|now left].
    now apply record_pieces.
  - intros; now apply decodeRecord_no_colon.
  - intros num N now fields more Hf Hm.
    assert (Hn : piece "") by (split; reflexivity).
    rewrite decodeRecord_pieces, deserializeItem_pieces by assumption.
    now destruct fields as [|fx [|fy [|fw [|fh extra]]]].
  - intros num N now name fields more Hn Hf Hm Hlen.
    rewrite decodeRecord_pieces, deserializeItem_pieces by assumption.
    destruct fields as [|fx [|fy [|fw [|fh extra]]]]; try reflexivity.
    simpl in Hlen. lia.
  - intros num N now name fx fy fw fh extra more Hn Hf Hm Hnan.
    rewrite decodeRecord_pieces, deserializeItem_pieces by assumption.
    rewrite Hnan. now destruct (isEmpty name).
  - intros num N now name fx fy fw fh extra more Hne Hn Hf Hm Hnum.
    rewrite decodeRecord_pieces, deserializeItem_pieces by assumption.
    apply isEmpty_false_iff in Hne. now rewrite Hne, Hnum.
  - reflexivity.
  - reflexivity.
Qed.

Lemma C3_decode_skips_records_witness :
  deserializeSprites (num := DecNumber.t) Samples.noon "icon-a:0,0,32,32" = []
  /\ map tuple (deserializeSprites (num := DecNumber.t) Samples.noon
                  ("#v1|" ++ join ";" ["a:1,2,3,x"; "b:0,0,10,10"; "c"])%string)
     = flat_map (fun r => map tuple (decodeRecord Samples.noon r))
                ["a:1,2,3,x"; "b:0,0,10,10"; "c"]
  /\ decodeRecord (num := DecNumber.t) Samples.noon "c" = []
  /\ decodeRecord (num := DecNumber.t) Samples.noon
       (recordOf "" ["1"; "2"; "3"; "4"] []) = []
  /\ decodeRecord (num := DecNumber.t) Samples.noon (recordOf "a" [""] []) = []
  /\ decodeRecord (num := DecNumber.t) Samples.noon
       (recordOf "e" ["1"; "2"; "3"] ["4"]) = []
  /\ decodeRecord (num := DecNumber.t) Samples.noon
       (recordOf "a" ["1"; "2"; "3"; "x"] []) = []
  /\ decodeRecord (num := DecNumber.t) Samples.noon
       (recordOf "a" ["1"; "2"; "3"; "4"; "5"] ["junk"])
     = [mkSprite (Samples.noon 0%nat + 0) "a"
                 (DecNumber.ofZ 1) (DecNumber.ofZ 2)
                 (DecNumber.ofZ 3) (DecNumber.ofZ 4)].
Proof.
  destruct C3_decode_skips_records
    as (H1 & H2 & _ & H4 & H5 & H6 & H7 & H8 & _).
  repeat match goal with |- _ /\ _ => split end.
  - apply H1. reflexivity.
  - apply H2; [discriminate | repeat constructor].
  - apply H4; reflexivity.
  - apply H5; repeat constructor.
  - apply H6; [split; reflexivity | repeat constructor .. | simpl; lia].
  - apply H6; [split; reflexivity | repeat constructor .. | simpl; lia].
  - apply H7; [split; reflexivity | repeat constructor .. | reflexivity].
  - rewrite (H8 _ decNumber Samples.noon "a" "1" "2" "3" "4" ["5"] ["junk"]);
      [reflexivity | discriminate | split; reflexivity
       | repeat constructor .. | reflexivity].
Defined.

(** C10: [deserializeSprites] checks neither range nor integrality: a
    record behind the prefix whose four fields are numbers decodes to a
    rectangle with exactly the values [Number] gives them, wherever the
    record stands among the others; so [#v1|a:-1,0,1.5,-2.25] decodes to
    a rectangle with a negative [x], a zero [y], a fractional [w] and a
    negative fractional [h], which the Rectangle invariant excludes. *)
Theorem C10_no_range_validation :
  (forall (num : Type) (N : JsNumber num) now name fx fy fw fh,
      name <> EmptyString ->
      contains ":" name = false -> contains ";" name = false ->
      delimiterFree fx -> delimiterFree fy ->
      delimiterFree fw -> delimiterFree fh ->
      isNaN (Number fx) = false -> isNaN (Number fy) = false ->
      isNaN (Number fw) = false -> isNaN (Number fh) = false ->
      deserializeSprites now ("#v1|" ++ recordText name fx fy fw fh)%string
      = [mkSprite (now 0%nat + 0) name
                  (Number fx) (Number fy) (Number fw) (Number fh)]
      /\ forall pre post,
          Forall (fun r => contains ";" r = false) pre ->
          Forall (fun r => contains ";" r = false) post ->
          map tuple
              (deserializeSprites now
                 ("#v1|" ++ join ";" (pre ++ recordText name fx fy fw fh :: post))%string)
          = flat_map (fun r => map tuple (decodeRecord now r)) pre
            ++ (name, Number fx, Number fy, Number fw, Number fh)
            :: flat_map (fun r => map tuple (decodeRecord now r)) post)
  /\ deserializeSprites Samples.noon "#v1|a:-1,0,1.5,-2.25"
     = [mkSprite (Samples.noon 0%nat + 0) "a"
                 (DecNumber.Finite (-1) 0) (DecNumber.Finite 0 0)
                 (DecNumber.Finite 15 1) (DecNumber.Finite (-225) 2)].
Proof.
  split; [|reflexivity].
  intros num N now name fx fy fw fh Hne Hc Hs Hx Hy Hw Hh Nx Ny Nw Nh.
  pose proof (decodeRecord_good now Hne Hc Hs Hx Hy Hw Hh Nx Ny Nw Nh) as Hgood.
  split; [exact Hgood|].
  intros pre post Hpre Hpost.
  rewrite (@deserializeSprites_records _ _ now now).
  - rewrite flat_map_app. cbn [flat_map]. rewrite Hgood. reflexivity.
  - now destruct pre.
  - apply Forall_app. split; [exact Hpre|]. constructor; [|exact Hpost].
    now apply recordText_no_semicolon.
Qed.

Lemma C10_no_range_validation_witness :
  deserializeSprites (num := DecNumber.t) Samples.noon
    ("#v1|" ++ recordText "a" "-1" "0" "1.5" "-2.25")%string
  = [mkSprite (Samples.noon 0%nat + 0) "a"
              (Number "-1") (Number "0") (Number "1.5") (Number "-2.25")].
Proof.
  apply (proj1 C10_no_range_validation DecNumber.t decNumber Samples.noon
               "a" "-1" "0" "1.5" "-2.25")%string;
    try reflexivity; try discriminate; repeat split.
Defined.

End CodecFacts.

(* ================================================================== *)
(** * Properties of the code generator *)

Module CodeGenFacts.
Import CodeGen.

Section WithNumbers.
Context {num : Type} `{JsNumber num}.

Lemma generateCode_empty Id (dims : Dimensions num) codeMode :
  generateCode (@nil (Sprite Id num)) dims codeMode = Some placeholder.
Proof. reflexivity. Qed.

Lemma generateCode_supported Id (s : Sprite Id num) rest dims codeMode :
  supported codeMode ->
  generateCode (s :: rest) dims codeMode
  = Some (if String.eqb codeMode "scss" then scssCode (s :: rest) dims
          else if String.eqb codeMode "css" then cssCode (s :: rest) dims
          else jsonCode (s :: rest)).
Proof.
  intros [-> | [-> | ->]]; reflexivity.
Qed.

Lemma generateCode_unsupported Id (s : Sprite Id num) rest dims codeMode :
  ~ supported codeMode ->
  generateCode (s :: rest) dims codeMode = None.
Proof.
  intros Hn. unfold generateCode, supported in *.
  destruct (String.eqb_spec codeMode "scss"); [tauto|].
  destruct (String.eqb_spec codeMode "css"); [tauto|].
  destruct (String.eqb_spec codeMode "json"); [tauto|].
  reflexivity.
Qed.

End WithNumbers.

(** C4, as stated, fails: asked for the unknown format [xml],
    [generateCode] returns the placeholder text when there are no
    sprites, and with a sprite it reaches its end without returning
    anything, which is the silent fall-through, not a rejection. *)
Lemma C4_unsupported_format_counterexample :
  ~ supported "xml"
  /\ generateCode (@nil (Sprite Z DecNumber.t)) Samples.canvas "xml"
     = Some "/* Paste images to generate Mixins */"
  /\ generateCode [Samples.icon "play"] Samples.canvas "xml" = None.
Proof.
  split; [|split; reflexivity].
  intros [E|[E|E]]; discriminate.
Qed.

(** C4, amended: for a format other than [css], [scss] and [json],
    [generateCode] rejects nothing: without sprites it returns the
    placeholder text, and with sprites it ends without a return value
    ([undefined]), never the output of another format; for the three
    supported formats it always returns a text. *)
Theorem C4_formats :
  forall (num : Type) (N : JsNumber num) (Id : Type)
         (sprites : list (Sprite Id num)) (dims : Dimensions num) codeMode,
    (~ supported codeMode ->
     generateCode sprites dims codeMode
     = match sprites with [] => Some placeholder | _ => None end)
    /\ (supported codeMode ->
        exists text, generateCode sprites dims codeMode = Some text).
Proof.
  intros num N Id sprites dims codeMode. split; intros Hs.
  - destruct sprites as [|s rest]; [reflexivity|].
    now apply generateCode_unsupported.
  - destruct sprites as [|s rest].
    + eexists. reflexivity.
    + eexists. now apply generateCode_supported.
Qed.

Lemma C4_formats_witness :
  generateCode [Samples.icon "play"] Samples.canvas "xml" = None
  /\ exists text,
       generateCode [Samples.icon "play"] Samples.canvas "css" = Some text.
Proof.
  split.
  - apply (proj1 (C4_formats decNumber [Samples.icon "play"] Samples.canvas "xml")).
    intros [E|[E|E]]; discriminate.
  - apply (proj2 (C4_formats decNumber [Samples.icon "play"] Samples.canvas "css")).
    right. left. reflexivity.
Defined.

(** C5, as stated, fails for [json]: with zero rectangles the result in
    format [json] is the placeholder comment, not the empty mapping
    [{}]. *)
Lemma C5_empty_json_counterexample :
  generateCode (@nil (Sprite Z DecNumber.t)) Samples.canvas "json"
  = Some "/* Paste images to generate Mixins */"
  /\ generateCode (@nil (Sprite Z DecNumber.t)) Samples.canvas "json"
     <> Some "{}".
Proof. split; [reflexivity | discriminate]. Qed.

(** C5, amended: with zero rectangles [generateCode] returns the same
    short placeholder text, never empty output, in every format, [json]
    included. *)
Theorem C5_empty_placeholder :
  forall (num : Type) (N : JsNumber num) (Id : Type)
         (dims : Dimensions num) codeMode,
    generateCode (@nil (Sprite Id num)) dims codeMode
    = Some "/* Paste images to generate Mixins */"
    /\ placeholder <> "".
Proof.
  intros. split; [reflexivity | discriminate].
Qed.

End CodeGenFacts.

(* ================================================================== *)
(** * More properties of the layout engine *)

Module LayoutFacts.
Import Packing PackingFacts Rows.
Local Open Scope list_scope.

Section WithHandles.
Variables Id Img : Type.

Lemma totalArea_from (items : list (Item Id Img)) : forall acc,
  fold_left (fun acc it => acc + item_w it * item_h it) items acc
  = acc + totalArea items.
Proof.
  unfold totalArea. induction items as [|it rest IH]; intros acc; simpl.
  - lia.
  - rewrite IH, (IH (item_w it * item_h it)). lia.
Qed.

Lemma totalArea_cons (it : Item Id Img) rest :
  totalArea (it :: rest) = item_w it * item_h it + totalArea rest.
Proof. unfold totalArea at 1. simpl. now rewrite totalArea_from. Qed.

Lemma totalArea_app (l1 l2 : list (Item Id Img)) :
  totalArea (l1 ++ l2) = totalArea l1 + totalArea l2.
Proof.
  induction l1 as [|it rest IH]; [reflexivity|].
  rewrite <- app_comm_cons, !totalArea_cons, IH. lia.
Qed.

Lemma totalArea_nonneg (items : list (Item Id Img)) :
  Forall (@sized Id Img) items -> 0 <= totalArea items.
Proof.
  induction 1 as [|it rest [Hw Hh] _ IH]; [reflexivity|].
  rewrite totalArea_cons. nia.
Qed.

(** ** The width limit *)

Lemma maxWidth_some area :
  0 <= area ->
  maxWidth area = Some (Z.min 4096 (Z.max 512 (Z.sqrt (9 * area / 4)))).
Proof.
  intros Ha. unfold maxWidth, roughWidth.
  replace (area <? 0) with false by (symmetry; apply Z.ltb_ge; lia).
  reflexivity.
Qed.

Lemma scaled_sqrt_mono a b :
  0 <= a <= b -> Z.sqrt (9 * a / 4) <= Z.sqrt (9 * b / 4).
Proof.
  intros H. apply Z.sqrt_le_mono. apply Z.div_le_mono; lia.
Qed.

(** ** Rows *)

(** Every placed item comes after the items placed before it. *)
Lemma placeItems_follow limit : forall (items : list (Item Id Img)) c,
  Forall (@sized Id Img) items ->
  0 <= currentX c -> 0 <= rowHeight c ->
  ForallOrdPairs (fun a b => follows (toSprite a) (toSprite b))
                 (fst (placeItems limit c items)).
Proof.
  induction items as [|it rest IH]; intros c Hs Hx Hr.
  - constructor.
  - inversion Hs as [|? ? [Hw Hh] Hs']; subst.
    rewrite placeItems_cons, placeItem_eq. cbv zeta. cbn [fst snd].
    set (c1 := if needsWrap limit c it then wrap c else c).
    assert (Hc1 : 0 <= currentX c1 /\ 0 <= rowHeight c1)
      by (unfold c1, wrap; destruct (needsWrap limit c it); simpl; lia).
    destruct Hc1 as [H1x H1r].
    set (c2 := mkCursor _ _ _ _).
    assert (Hx2 : 0 <= currentX c2) by (unfold c2, padding; simpl; lia).
    assert (Hr2 : 0 <= rowHeight c2) by (unfold c2; simpl; lia).
    constructor; [|now apply IH].
    destruct (placeItems_shelf limit c2 Hs' Hx2 Hr2)
      as (_ & _ & _ & _ & _ & Hpl & _).
    eapply Forall_impl; [|exact Hpl].
    intros p (_ & _ & Hrow & _).
    unfold follows, c2, padding in *; simpl in *.
    destruct Hrow as [[Hy Hxp]|Hy]; [left|right]; lia.
Qed.

(** The cursor never runs past the limit, or the widest item, by more
    than the padding. *)
Lemma placeItems_width_bound m wmax : forall (items : list (Item Id Img)) c,
  Forall (fun it => 0 <= item_w it <= wmax) items ->
  0 <= currentX c ->
  maxCanvasWidth (snd (placeItems (Some m) c items))
  <= Z.max (maxCanvasWidth c) (Z.max m wmax + padding).
Proof.
  induction items as [|it rest IH]; intros c Hs Hx.
  - simpl. lia.
  - inversion Hs as [|? ? Hw Hs']; subst.
    rewrite placeItems_cons, placeItem_eq. cbv zeta. cbn [fst snd].
    set (c1 := if needsWrap (Some m) c it then wrap c else c).
    assert (Hc1 : 0 <= currentX c1
                  /\ maxCanvasWidth c1 = maxCanvasWidth c
                  /\ (currentX c1 = 0 \/ currentX c1 + item_w it <= m)).
    { unfold c1. destruct (needsWrap (Some m) c it) eqn:E.
      - simpl. lia.
      - unfold needsWrap in E. apply andb_false_iff in E.
        rewrite !Z.ltb_ge in E. repeat split; try lia. }
    destruct Hc1 as (H1x & H1m & Hfit).
    set (c2 := mkCursor _ _ _ _).
    assert (H2 : 0 <= currentX c2
                 /\ maxCanvasWidth c2
                    <= Z.max (maxCanvasWidth c) (Z.max m wmax + padding))
      by (unfold c2, padding; simpl; lia).
    destruct H2 as [H2x H2m].
    specialize (IH c2 Hs' H2x). lia.
Qed.

(** Items that fit in one row are laid out in one row. *)
Lemma placeItems_single_row m : forall (items : list (Item Id Img)) c,
  Forall (@sized Id Img) items ->
  0 <= currentX c -> 0 <= rowHeight c ->
  currentX c + rowWidth items - padding <= m ->
  let r := placeItems (Some m) c items in
  map (fun p => (pos_x p, pos_y p)) (fst r)
  = map (fun xy => (fst xy, currentY c)) (rowPositions (currentX c) items)
  /\ currentX (snd r) = currentX c + rowWidth items
  /\ currentY (snd r) = currentY c
  /\ rowHeight (snd r) = Z.max (rowHeight c) (tallest items)
  /\ maxCanvasWidth (snd r)
     = match items with
       | [] => maxCanvasWidth c
       | _ => Z.max (maxCanvasWidth c) (currentX c + rowWidth items)
       end.
Proof.
  induction items as [|it rest IH]; intros c Hs Hx Hr Hfit.
  - simpl. repeat split; try lia.
  - inversion Hs as [|? ? [Hw Hh] Hs']; subst.
    assert (Hrest : 0 <= rowWidth rest).
    { clear -Hs'. induction Hs' as [|a l [Ha _] _ IHl]; simpl; unfold padding in *; lia. }
    change (rowWidth (it :: rest)) with (item_w it + padding + rowWidth rest) in *.
    assert (Hnw : needsWrap (Some m) c it = false).
    { unfold needsWrap. apply andb_false_iff. left. apply Z.ltb_ge.
      unfold padding in *. lia. }
    cbv zeta. rewrite placeItems_cons, placeItem_eq. cbv zeta. rewrite Hnw.
    cbn [fst snd].
    set (c2 := mkCursor _ _ _ _).
    assert (Hfit2 : currentX c2 + rowWidth rest - padding <= m).
    { unfold c2, padding in *; simpl.
      destruct rest as [|it2 rest2]; [simpl; lia|].
      change (rowWidth (it2 :: rest2))
        with (item_w it2 + padding + rowWidth rest2) in *.
      unfold padding in *. lia. }
    assert (Hx2 : 0 <= currentX c2) by (unfold c2, padding; simpl; lia).
    assert (Hr2 : 0 <= rowHeight c2) by (unfold c2; simpl; lia).
    destruct (IH c2 Hs' Hx2 Hr2 Hfit2) as (Ipos & Ix & Iy & Ih & Im).
    cbn [map rowPositions fst snd].
    rewrite Ipos, Ix, Iy, Ih, Im.
    unfold c2, padding in *; simpl.
    repeat split; try lia.
    destruct rest as [|it2 rest2]; [unfold rowWidth; simpl; lia | lia].
Qed.

Lemma rowPositions_top : forall (items : list (Item Id Img)) x0,
  map (fun xy : Z * Z => (fst xy, 0)) (rowPositions x0 items)
  = rowPositions x0 items.
Proof.
  induction items as [|a l IHl]; intros x0; simpl; [reflexivity|].
  now rewrite IHl.
Qed.

(** The frames of the sprites of a non-empty layout are the frames of its
    items. *)
Lemma repackSprites_frames (items : list (Item Id Img)) st :
  items <> [] ->
  map (@Builder.frameOfSprite Id) (sprites (repackSprites items st))
  = map (@Builder.frameOfItem Id Img) items.
Proof.
  intros Hne. destruct (repackSprites_nonempty st Hne) as [Esp _].
  cbv zeta in Esp. rewrite Esp, map_map.
  set (r := placeItems (maxWidth (totalArea items)) startCursor items).
  assert (Hitems : map (@item Id Img) (fst r) = items) by apply placeItems_items.
  rewrite <- Hitems, map_map. reflexivity.
Qed.

End WithHandles.
(** ** Statements about the layout *)

(** X1: the width limit of a layout lies between 512 and 4096, grows with
    the total area, is 512 up to an area of 116508 and 4096 from an area
    of 7456541 on; the limit over the reals has the same range. *)
Theorem X1_width_limit_range :
  forall area : Z,
    0 <= area ->
    exists m,
      maxWidth area = Some m
      /\ 512 <= m <= 4096
      /\ (512 <= targetWidth area <= 4096)%R
      /\ (area <= 116508 -> m = 512)
      /\ (7456541 <= area -> m = 4096)
      /\ (forall area', area <= area' ->
                        exists m', maxWidth area' = Some m' /\ m <= m').
Proof.
  intros area Ha. eexists. split; [apply (maxWidth_some Ha)|].
  split; [lia|]. split; [|split; [|split]].
  - unfold targetWidth. split.
    + apply Rmin_glb; [lra | apply Rmax_l].
    + apply Rmin_l.
  - intros Hsmall.
    assert (Z.sqrt (9 * area / 4) <= Z.sqrt (9 * 116508 / 4))
      by (apply scaled_sqrt_mono; lia).
    change (Z.sqrt (9 * 116508 / 4)) with 511 in *. lia.
  - intros Hbig.
    assert (Z.sqrt (9 * 7456541 / 4) <= Z.sqrt (9 * area / 4))
      by (apply scaled_sqrt_mono; lia).
    change (Z.sqrt (9 * 7456541 / 4)) with 4096 in *. lia.
  - intros area' Hle. eexists. split; [apply maxWidth_some; lia|].
    pose proof (@scaled_sqrt_mono area area' ltac:(lia)). lia.
Qed.

Lemma X1_width_limit_range_witness :
  exists m, maxWidth 15000 = Some m /\ 512 <= m <= 4096.
Proof.
  destruct (@X1_width_limit_range 15000 ltac:(lia)) as (m & Hm & Hr & _).
  exists m. split; assumption.
Defined.

(** X2: the canvas of a non-empty layout is at most the padding wider
    than the larger of the width limit and the widest item; when no item
    is wider than 512, it is at most 4098 wide. *)
Theorem X2_canvas_width_bound :
  forall (Id Img : Type) (items : list (Item Id Img)) (st : Session Id Img)
         (wmax : Z),
    items <> [] ->
    Forall (fun it => 0 <= item_w it <= wmax /\ 0 <= item_h it) items ->
    exists m,
      maxWidth (totalArea items) = Some m
      /\ width (imageDimensions (repackSprites items st)) <= Z.max m wmax + padding
      /\ (wmax <= 512 ->
          width (imageDimensions (repackSprites items st)) <= m + padding
          /\ m + padding <= 4098).
Proof.
  intros Id Img items st wmax Hne Hs.
  assert (Hsz : Forall (@sized Id Img) items)
    by (eapply Forall_impl; [|exact Hs]; intros it H; unfold sized; simpl in *; lia).
  assert (Hw : Forall (fun it => 0 <= item_w it <= wmax) items)
    by (eapply Forall_impl; [|exact Hs]; intros it H; simpl in *; lia).
  pose proof (maxWidth_some (totalArea_nonneg Hsz)) as Hm.
  set (m := Z.min 4096 (Z.max 512 (Z.sqrt (9 * totalArea items / 4)))) in Hm.
  assert (Hrange : 512 <= m <= 4096) by (unfold m; lia).
  exists m. split; [exact Hm|].
  destruct (repackSprites_nonempty st Hne) as [_ Edim]. cbv zeta in Edim.
  rewrite Edim, Hm. cbn [width].
  pose proof (@placeItems_width_bound Id Img m wmax items startCursor Hw
                ltac:(simpl; lia)) as Hb.
  change (maxCanvasWidth startCursor) with 0 in Hb. unfold padding in *.
  split; [lia|]. intros Hsmall. lia.
Qed.

Lemma X2_canvas_width_bound_witness :
  exists m,
    maxWidth (totalArea Samples.sixItems) = Some m
    /\ width (imageDimensions (repackSprites Samples.sixItems Samples.freshSession))
       <= Z.max m 150 + padding.
Proof.
  destruct (@X2_canvas_width_bound nat unit Samples.sixItems Samples.freshSession 150)
    as (m & Hm & Hb & _).
  - discriminate.
  - repeat constructor; simpl; lia.
  - exists m. split; assumption.
Defined.

(** X3: the rectangles of a layout are in reading order and kept apart by
    the padding: of two rectangles the later one lies in the same row at
    least the padding to the right of the right edge of the earlier one,
    or at least the padding below its bottom edge; no coordinate is
    negative. *)
Theorem X3_reading_order_with_padding :
  forall (Id Img : Type) (items : list (Item Id Img)) (st : Session Id Img),
    items <> [] ->
    Forall (@sized Id Img) items ->
    (forall i j a b,
        (i < j)%nat ->
        nth_error (sprites (repackSprites items st)) i = Some a ->
        nth_error (sprites (repackSprites items st)) j = Some b ->
        follows a b)
    /\ Forall (fun s => 0 <= x s /\ 0 <= y s) (sprites (repackSprites items st)).
Proof.
  intros Id Img items st Hne Hs.
  destruct (repackSprites_nonempty st Hne) as [Esp _]. cbv zeta in Esp.
  rewrite Esp. split.
  - intros i j a b Hij Ha Hb.
    pose proof (@placeItems_follow Id Img (maxWidth (totalArea items)) items
                  startCursor Hs ltac:(simpl; lia) ltac:(simpl; lia)) as Hf.
    apply (ForallOrdPairs_map (fun a b => follows a b)) in Hf.
    exact (ForallOrdPairs_nth Hf Hij Ha Hb).
  - destruct (placeItems_shelf (maxWidth (totalArea items)) startCursor Hs)
      as (_ & _ & _ & _ & _ & Hpl & _); [simpl; lia | simpl; lia |].
    apply Forall_map. eapply Forall_impl; [|exact Hpl].
    intros p (_ & Hx & _ & Hy & _). simpl in *. lia.
Qed.

Lemma X3_reading_order_with_padding_witness :
  follows (mkSprite 3%nat "c" 304 0 150 40) (mkSprite 4%nat "d" 0 42 150 40).
Proof.
  apply (proj1 (@X3_reading_order_with_padding nat unit Samples.sixItems
                  Samples.freshSession ltac:(discriminate)
                  ltac:(repeat constructor; simpl; lia)))
    with (i := 2%nat) (j := 3%nat).
  - lia.
  - reflexivity.
  - reflexivity.
Defined.

(** X4: items whose widths, with one padding between neighbours, fit in
    the width limit are laid out in a single row in input order: item [i]
    at [y = 0] and [x] the sum of the widths and paddings before it; the
    canvas is as wide as all widths and paddings together and as high as
    the tallest item. *)
Theorem X4_single_row :
  forall (Id Img : Type) (items : list (Item Id Img)) (st : Session Id Img) (m : Z),
    items <> [] ->
    Forall (@sized Id Img) items ->
    maxWidth (totalArea items) = Some m ->
    rowWidth items - padding <= m ->
    map (fun s => (x s, y s)) (sprites (repackSprites items st))
    = rowPositions 0 items
    /\ imageDimensions (repackSprites items st)
       = mkDimensions (rowWidth items) (tallest items).
Proof.
  intros Id Img items st m Hne Hs Hm Hfit.
  destruct (repackSprites_nonempty st Hne) as [Esp Edim].
  cbv zeta in Esp, Edim. rewrite Esp, Edim, Hm.
  destruct (@placeItems_single_row Id Img m items startCursor Hs)
    as (Hpos & Hx & Hy & Hh & Hw); try (simpl; lia).
  simpl in Hx, Hy, Hh, Hw, Hpos.
  assert (Hrw : 0 <= rowWidth items).
  { clear -Hs. induction Hs as [|a l [Ha _] _ IHl]; simpl; unfold padding in *; lia. }
  assert (Hta : 0 <= tallest items).
  { clear. induction items as [|a l IHl]; simpl; lia. }
  split.
  - rewrite map_map.
    change (map (fun p => (x (toSprite p), y (toSprite p))))
      with (map (fun p : Positioned Id Img => (pos_x p, pos_y p))).
    rewrite Hpos. apply rowPositions_top.
  - rewrite Hy, Hh, Hw. destruct items as [|it rest]; [congruence|].
    f_equal; lia.
Qed.

Lemma X4_single_row_witness :
  map (fun s => (x s, y s))
      (sprites (repackSprites Samples.threeItems Samples.freshSession))
  = rowPositions 0 Samples.threeItems
  /\ imageDimensions (repackSprites Samples.threeItems Samples.freshSession)
     = mkDimensions (rowWidth Samples.threeItems) (tallest Samples.threeItems).
Proof.
  apply (@X4_single_row nat unit Samples.threeItems Samples.freshSession 512).
  - discriminate.
  - repeat constructor; simpl; lia.
  - reflexivity.
  - vm_compute. discriminate.
Defined.

(** X5: adding items at the end leaves the rectangles of the earlier items
    where they were, as long as the width limit stays the same; it stays
    512 as long as the total area is at most 116508. *)
Theorem X5_appending_keeps_earlier_rectangles :
  forall (Id Img : Type) (pre post : list (Item Id Img)) (st st' : Session Id Img),
    pre <> [] ->
    (maxWidth (totalArea (pre ++ post)) = maxWidth (totalArea pre)
     \/ (Forall (@sized Id Img) (pre ++ post) /\ totalArea (pre ++ post) <= 116508)) ->
    exists more,
      sprites (repackSprites (pre ++ post) st)
      = sprites (repackSprites pre st') ++ more
      /\ List.length more = List.length post.
Proof.
  intros Id Img pre post st st' Hne Hlim.
  assert (Hsame : maxWidth (totalArea (pre ++ post)) = maxWidth (totalArea pre)).
  { destruct Hlim as [Hlim|[Hs Ha]]; [exact Hlim|].
    apply Forall_app in Hs. destruct Hs as [Hpre Hpost].
    pose proof (totalArea_nonneg Hpre). pose proof (totalArea_nonneg Hpost).
    rewrite totalArea_app in *.
    rewrite !maxWidth_some by lia.
    assert (H1 : Z.sqrt (9 * (totalArea pre + totalArea post) / 4)
                 <= Z.sqrt (9 * 116508 / 4)) by (apply scaled_sqrt_mono; lia).
    assert (H2 : Z.sqrt (9 * totalArea pre / 4) <= Z.sqrt (9 * 116508 / 4))
      by (apply scaled_sqrt_mono; lia).
    change (Z.sqrt (9 * 116508 / 4)) with 511 in *.
    f_equal. lia. }
  assert (Hne2 : pre ++ post <> []) by (destruct pre; [congruence|discriminate]).
  destruct (repackSprites_nonempty st Hne2) as [E2 _].
  destruct (repackSprites_nonempty st' Hne) as [E1 _].
  cbv zeta in E1, E2. rewrite E1, E2, Hsame, placeItems_app. cbn [fst].
  rewrite map_app. eexists. split; [reflexivity|].
  now rewrite length_map, placeItems_length.
Qed.

Lemma X5_appending_keeps_earlier_rectangles_witness :
  exists more,
    sprites (repackSprites (Samples.threeItems ++ Samples.sixItems) Samples.freshSession)
    = sprites (repackSprites Samples.threeItems Samples.freshSession) ++ more
    /\ List.length more = List.length Samples.sixItems.
Proof.
  apply (@X5_appending_keeps_earlier_rectangles nat unit
           Samples.threeItems Samples.sixItems).
  - discriminate.
  - right. split; [repeat constructor; simpl; lia | vm_compute; discriminate].
Defined.

End LayoutFacts.

(* ================================================================== *)
(** * Properties of the handlers of builder mode *)

Module BuilderFacts.
Import JsString JsStringFacts Packing PackingFacts Builder.
Local Open Scope list_scope.

(** ** Cleaned tags *)

Lemma tagChar_dash : tagChar "-" = true.
Proof. reflexivity. Qed.

Lemma reserved_not_tagChar c : Codec.reserved c = true -> tagChar c = false.
Proof.
  unfold Codec.reserved. intros Hc.
  repeat (apply orb_true_iff in Hc; destruct Hc as [Hc|Hc]);
    apply Ascii.eqb_eq in Hc; subst; reflexivity.
Qed.

(** The character a cleaned tag has where the tag had [c]. *)
Lemma cleaned_char c : tagChar (if negb (tagChar c) then "-"%char else c) = true.
Proof. destruct (tagChar c) eqn:E; simpl; [exact E | reflexivity]. Qed.

Lemma cleanTag_contains d : forall s,
  tagChar d = false -> contains d (cleanTag s) = false.
Proof.
  unfold cleanTag. induction s as [|c t IH]; intros Hd; simpl; [reflexivity|].
  rewrite (IH Hd), orb_false_r.
  pose proof (cleaned_char c) as Hc.
  destruct (Ascii.eqb_spec (if negb (tagChar c) then "-"%char else c) d) as [E|];
    [|reflexivity].
  rewrite E in Hc. congruence.
Qed.

Lemma cleanTag_length : forall s, String.length (cleanTag s) = String.length s.
Proof.
  unfold cleanTag. induction s as [|c t IH]; simpl; [reflexivity | now rewrite IH].
Qed.

Lemma cleanTag_hasReserved : forall s, Codec.hasReserved (cleanTag s) = false.
Proof.
  unfold cleanTag. induction s as [|c t IH]; simpl; [reflexivity|].
  rewrite IH, orb_false_r.
  pose proof (cleaned_char c) as Hc.
  destruct (Codec.reserved (if negb (tagChar c) then "-"%char else c)) eqn:E;
    [|reflexivity].
  apply reserved_not_tagChar in E. congruence.
Qed.

Lemma cleanTag_idempotent : forall s, cleanTag (cleanTag s) = cleanTag s.
Proof.
  unfold cleanTag. induction s as [|c t IH]; simpl; [reflexivity|].
  rewrite IH. f_equal.
  pose proof (cleaned_char c) as Hc. now rewrite Hc.
Qed.

Section WithHandles.
Variables Id Img : Type.
Variable sameId : Id -> Id -> bool.

(** ** Lists in step *)

Lemma filter_in_step id0 : forall (ss : list (Sprite Id Z)) (its : list (Item Id Img)),
  map (@frameOfSprite Id) ss = map (@frameOfItem Id Img) its ->
  map (@frameOfSprite Id) (filter (fun s => negb (sameId (id s) id0)) ss)
  = map (@frameOfItem Id Img) (filter (fun it => negb (sameId (item_id it) id0)) its).
Proof.
  induction ss as [|s ss IH]; intros [|it its] H; try discriminate; [reflexivity|].
  cbn [map] in H.
  assert (Hf : frameOfSprite s = frameOfItem it) by congruence.
  assert (Hrest : map (@frameOfSprite Id) ss = map (@frameOfItem Id Img) its)
    by congruence.
  assert (Hid : id s = item_id it) by (unfold frameOfSprite, frameOfItem in Hf; congruence).
  cbn [filter]. rewrite Hid.
  destruct (sameId (item_id it) id0); cbn [negb map].
  - now apply IH.
  - rewrite Hf. f_equal. now apply IH.
Qed.

Lemma rename_in_step id0 clean : forall (ss : list (Sprite Id Z)) (its : list (Item Id Img)),
  map (@frameOfSprite Id) ss = map (@frameOfItem Id Img) its ->
  map (@frameOfSprite Id)
      (map (fun s => if sameId (id s) id0
                     then mkSprite (id s) clean (x s) (y s) (w s) (h s)
                     else s) ss)
  = map (@frameOfItem Id Img)
        (map (fun it => if sameId (item_id it) id0
                        then mkItem (item_id it) clean (Some clean)
                                    (item_w it) (item_h it)
                                    (imgElement it) (originalSrc it)
                        else it) its).
Proof.
  induction ss as [|s ss IH]; intros [|it its] H; try discriminate; [reflexivity|].
  cbn [map] in H.
  assert (Hf : frameOfSprite s = frameOfItem it) by congruence.
  assert (Hrest : map (@frameOfSprite Id) ss = map (@frameOfItem Id Img) its)
    by congruence.
  assert (Hid : id s = item_id it) by (unfold frameOfSprite, frameOfItem in Hf; congruence).
  cbn [map]. rewrite Hid. f_equal; [|now apply IH].
  destruct (sameId (item_id it) id0); [|exact Hf].
  unfold frameOfSprite, frameOfItem in *.
  cbn [id name w h item_id item_tag item_name item_w item_h].
  assert (Ho : orElse (Some clean) clean = clean)
    by (unfold orElse; now destruct (isEmpty clean)).
  rewrite Ho. congruence.
Qed.

Lemma orElse_same n : orElse (Some n) n = n.
Proof. unfold orElse. now destruct (isEmpty n). Qed.

Lemma explodeItems_frames (slice : nat -> Sprite Id Z -> Id * Img * string) : forall (ss : list (Sprite Id Z)) i,
  map (fun it : Item Id Img =>
         (orElse (item_tag it) (item_name it), item_w it, item_h it))
      (explodeItems slice i ss)
  = map (fun s => (name s, w s, h s)) ss.
Proof.
  induction ss as [|s ss IH]; intros i; [reflexivity|].
  cbn [explodeItems]. destruct (slice i s) as [[newId img] url].
  cbn [map item_tag item_name item_w item_h].
  now rewrite orElse_same, IH.
Qed.

Lemma explodeItems_nonempty (slice : nat -> Sprite Id Z -> Id * Img * string)
      (ss : list (Sprite Id Z)) i :
  ss <> [] -> explodeItems slice i ss <> [].
Proof.
  destruct ss as [|s ss]; [congruence|]. intros _.
  cbn [explodeItems]. destruct (slice i s) as [[newId img] url]. discriminate.
Qed.

Lemma repackSprites_ids (items : list (Item Id Img)) st :
  items <> [] ->
  map id (sprites (repackSprites items st)) = map (@item_id Id Img) items.
Proof.
  intros Hne. pose proof (LayoutFacts.repackSprites_frames st Hne) as Hf.
  apply (f_equal (map (fun f : Id * string * Z * Z => fst (fst (fst f))))) in Hf.
  rewrite !map_map in Hf. exact Hf.
Qed.

Lemma noImage_or_empty (st : App Id Img) :
  noImage (imageSrc st) = false -> sprites (session st) <> [] ->
  noImage (imageSrc st) || (List.length (sprites (session st)) =? 0)%nat = false.
Proof.
  intros Hi Hs. rewrite Hi. simpl.
  destruct (sprites (session st)); [congruence|reflexivity].
Qed.

End WithHandles.

(** ** Statements about the handlers *)

(** X6: the name [handleTagChange] gives has as many characters as the
    text typed and consists of letters, digits, [-] and [_] only, so it
    holds none of the URL format's reserved characters and
    [serializeSprites] writes it unchanged; cleaning a cleaned name
    changes nothing. Every sprite with the given identifier gets that
    name, and no identifier, position or size changes. *)
Theorem X6_clean_tags :
  forall (Id Img : Type) (sameId : Id -> Id -> bool) (id0 : Id) (newTag : string)
         (st : App Id Img),
    String.length (cleanTag newTag) = String.length newTag
    /\ (forall d, tagChar d = false -> contains d (cleanTag newTag) = false)
    /\ Codec.hasReserved (cleanTag newTag) = false
    /\ replaceAll Codec.reserved "-" (cleanTag newTag) = cleanTag newTag
    /\ cleanTag (cleanTag newTag) = cleanTag newTag
    /\ (forall s, In s (sprites (session (handleTagChange sameId id0 newTag st))) ->
                  sameId (id s) id0 = true -> name s = cleanTag newTag)
    /\ map (fun s => (id s, x s, y s, w s, h s))
           (sprites (session (handleTagChange sameId id0 newTag st)))
       = map (fun s => (id s, x s, y s, w s, h s)) (sprites (session st)).
Proof.
  intros Id Img sameId id0 newTag st.
  split; [apply cleanTag_length|].
  split; [intros d Hd; now apply cleanTag_contains|].
  split; [apply cleanTag_hasReserved|].
  split.
  { apply replaceAll_id. intros c Hc.
    apply cleanTag_contains. now apply reserved_not_tagChar. }
  split; [apply cleanTag_idempotent|].
  unfold handleTagChange. cbn [session sprites]. split.
  - intros s Hin Hs. apply in_map_iff in Hin. destruct Hin as (s0 & E & _).
    destruct (sameId (id s0) id0) eqn:E0; subst s; [reflexivity|].
    congruence.
  - rewrite map_map. apply map_ext. intros s.
    now destruct (sameId (id s) id0).
Qed.

(** X7: the sprites and the build items stay in step (as many, in the
    same order, with the same identifiers, names and sizes) through a
    paste, a rename, an explosion, and a deletion made in builder mode. *)
Theorem X7_sprites_and_items_in_step :
  forall (Id Img : Type) (sameId : Id -> Id -> bool) (e : Event Id Img)
         (st : App Id Img),
    inStep st ->
    (forall id0, e = Delete Img id0 -> mode st = build) ->
    inStep (handle sameId e st).
Proof.
  intros Id Img sameId e st Hst Hdel. unfold inStep in *.
  destruct e as [newId img url w0 h0 | id0 | id0 newTag | confirmed slice];
    cbn [handle].
  - unfold pasteImage.
    destruct (noImage (imageSrc st) && (0 <? List.length (sprites (session st)))%nat).
    + exact Hst.
    + cbn [session buildItems]. apply LayoutFacts.repackSprites_frames.
      now destruct (buildItems st).
  - unfold deleteSprite. rewrite (Hdel id0 eq_refl). cbn [session buildItems].
    destruct (filter (fun it => negb (sameId (item_id it) id0)) (buildItems st))
      as [|it its] eqn:E.
    + cbn [repackSprites sprites]. rewrite <- E. now apply filter_in_step.
    + apply LayoutFacts.repackSprites_frames. discriminate.
  - unfold handleTagChange. cbn [session buildItems sprites].
    now apply rename_in_step.
  - unfold explodeSprites.
    destruct (noImage (imageSrc st) || (List.length (sprites (session st)) =? 0)%nat)
      eqn:E; [exact Hst|].
    destruct confirmed; cbn [negb]; [|exact Hst].
    cbn [session buildItems]. apply LayoutFacts.repackSprites_frames.
    apply explodeItems_nonempty.
    apply orb_false_iff in E. destruct E as [_ E].
    destruct (sprites (session st)); [discriminate|discriminate].
Qed.

Lemma X7_sprites_and_items_in_step_witness :
  inStep (handle Nat.eqb (Delete unit 2%nat) MoreSamples.threePasted).
Proof.
  apply X7_sprites_and_items_in_step.
  - reflexivity.
  - intros id0 _. reflexivity.
Defined.

(** X8: after the delete button of a sprite no sprite carries its
    identifier, and in builder mode no build item does either. *)
Theorem X8_delete_removes_the_id :
  forall (Id Img : Type) (sameId : Id -> Id -> bool) (id0 : Id) (st : App Id Img),
    (forall a, sameId a a = true) ->
    ~ In id0 (map id (sprites (session (deleteSprite sameId id0 st))))
    /\ (mode st = build ->
        ~ In id0 (map (@item_id Id Img) (buildItems (deleteSprite sameId id0 st)))).
Proof.
  intros Id Img sameId id0 st Hrefl.
  assert (Hs : ~ In id0 (map id (filter (fun s => negb (sameId (id s) id0))
                                        (sprites (session st))))).
  { intros Hin. apply in_map_iff in Hin. destruct Hin as (s & E & Hin).
    apply filter_In in Hin. destruct Hin as [_ Hneq].
    rewrite E, Hrefl in Hneq. discriminate. }
  assert (Hi : ~ In id0 (map (@item_id Id Img)
                             (filter (fun it => negb (sameId (item_id it) id0))
                                     (buildItems st)))).
  { intros Hin. apply in_map_iff in Hin. destruct Hin as (it & E & Hin).
    apply filter_In in Hin. destruct Hin as [_ Hneq].
    rewrite E, Hrefl in Hneq. discriminate. }
  unfold deleteSprite. destruct (mode st); cbn [session buildItems sprites].
  - split; [exact Hs | discriminate].
  - split; [|intros _; exact Hi].
    destruct (filter (fun it => negb (sameId (item_id it) id0)) (buildItems st))
      as [|it its] eqn:E.
    + exact Hs.
    + rewrite repackSprites_ids by discriminate. exact Hi.
Qed.

Lemma X8_delete_removes_the_id_witness :
  ~ In 2%nat (map id (sprites (session (deleteSprite Nat.eqb 2%nat
                                          MoreSamples.threePasted)))).
Proof.
  apply (proj1 (@X8_delete_removes_the_id nat unit Nat.eqb 2%nat
                  MoreSamples.threePasted Nat.eqb_refl)).
Defined.

(** X9: exploding a sheet that has an image and sprites, once confirmed,
    switches to builder mode and packs again as many sprites, in the same
    order, each with the name, width and height it had; sprites and build
    items are then in step. Unconfirmed, or without an image, it changes
    nothing. *)
Theorem X9_explode_then_repack :
  forall (Id Img : Type) (slice : nat -> Sprite Id Z -> Id * Img * string)
         (st : App Id Img),
    (noImage (imageSrc st) = false -> sprites (session st) <> [] ->
     let st' := explodeSprites true slice st in
     mode st' = build
     /\ map (fun s => (name s, w s, h s)) (sprites (session st'))
        = map (fun s => (name s, w s, h s)) (sprites (session st))
     /\ inStep st')
    /\ explodeSprites false slice st = st
    /\ (noImage (imageSrc st) = true -> explodeSprites true slice st = st).
Proof.
  intros Id Img slice st. split; [|split].
  - intros Hi Hs. cbv zeta. unfold explodeSprites.
    rewrite (noImage_or_empty st Hi Hs). cbn [negb mode session].
    pose proof (@explodeItems_nonempty Id Img slice _ 0%nat Hs) as Hne.
    pose proof (LayoutFacts.repackSprites_frames (session st) Hne) as Hf.
    split; [reflexivity|]. split.
    + apply (f_equal (map (fun f : Id * string * Z * Z =>
                             (snd (fst (fst f)), snd (fst f), snd f)))) in Hf.
      rewrite !map_map in Hf. cbn [frameOfSprite frameOfItem fst snd] in Hf.
      rewrite <- (explodeItems_frames slice (sprites (session st)) 0).
      exact Hf.
    + exact Hf.
  - unfold explodeSprites.
    now destruct (noImage (imageSrc st) || (List.length (sprites (session st)) =? 0)%nat).
  - intros Hi. unfold explodeSprites. now rewrite Hi.
Qed.

Lemma X9_explode_then_repack_witness :
  let st' := explodeSprites true MoreSamples.numbered MoreSamples.threePasted in
  mode st' = build
  /\ map (fun s => (name s, w s, h s)) (sprites (session st'))
     = map (fun s => (name s, w s, h s)) (sprites (session MoreSamples.threePasted))
  /\ inStep st'.
Proof.
  apply (proj1 (X9_explode_then_repack MoreSamples.numbered MoreSamples.threePasted)).
  - reflexivity.
  - discriminate.
Defined.

End BuilderFacts.

(* ================================================================== *)
(** * More properties of the URL hash codec *)

Module CodecMoreFacts.
Import JsString JsStringFacts Codec CodecFacts.
Local Open Scope list_scope.

Lemma replaceAll_length cls by_ : forall s,
  String.length (replaceAll cls by_ s) = String.length s.
Proof. induction s as [|c t IH]; simpl; [reflexivity | now rewrite IH]. Qed.

Lemma replaceAll_reserved_clean : forall s,
  hasReserved (replaceAll reserved "-" s) = false.
Proof.
  induction s as [|c t IH]; simpl; [reflexivity|].
  rewrite IH, orb_false_r. destruct (reserved c) eqn:E; [reflexivity | exact E].
Qed.

Section WithNumbers.
Context {num : Type} `{JsNumber num}.

(** The sprite as [serializeSprites] writes it: with its name cleaned. *)
Lemma sanitized_carried {Id} (s : Sprite Id num) :
  name s <> EmptyString ->
  survives (x s) -> survives (y s) -> survives (w s) -> survives (h s) ->
  carried (mkSprite (id s) (replaceAll reserved "-" (name s))
                    (x s) (y s) (w s) (h s))
  /\ serializeSprite (mkSprite (id s) (replaceAll reserved "-" (name s))
                               (x s) (y s) (w s) (h s))
     = serializeSprite s.
Proof.
  intros Hne Hx Hy Hw Hh. split.
  - unfold carried. cbn [name x y w h]. repeat split; try assumption;
      try apply replaceAll_reserved_clean; try apply Hx; try apply Hy;
      try apply Hw; try apply Hh.
    intros E. apply (f_equal String.length) in E.
    rewrite replaceAll_length in E. destruct (name s); [congruence|discriminate].
  - unfold serializeSprite. cbn [name x y w h].
    rewrite (replaceAll_id reserved "-" (replaceAll reserved "-" (name s)));
      [reflexivity|].
    intros c Hc. apply hasReserved_contains; [apply replaceAll_reserved_clean | exact Hc].
Qed.

(** The round trip of sprites the format can carry. *)
Lemma roundtrip_carried {Id} (rs : list (Sprite Id num)) now :
  Forall carried rs ->
  map tuple (deserializeSprites now ("#" ++ serializeSprites rs)) = map tuple rs.
Proof.
  intros Hrs. destruct rs as [|r rs]; [reflexivity|].
  set (all := r :: rs) in *.
  assert (Hne : map serializeSprite all <> []) by discriminate.
  assert (Hsc : Forall (fun t => contains ";" t = false) (map serializeSprite all)).
  { apply Forall_map. eapply Forall_impl; [|exact Hrs].
    intros s Hs. exact (proj1 (decodeRecord_serializeSprite now Hs)). }
  change ("#" ++ serializeSprites all)%string
    with ("#v1|" ++ join ";" (map serializeSprite all))%string.
  rewrite (deserializeSprites_records now now Hne Hsc).
  clearbody all. clear Hne Hsc.
  induction Hrs as [|s l Hs Hl IH]; [reflexivity|].
  cbn [map flat_map].
  rewrite (proj2 (decodeRecord_serializeSprite now Hs)), IH. reflexivity.
Qed.

(** The text written depends on the tuples only. *)
Lemma serializeSprites_tuples {Id Id'} : forall (a : list (Sprite Id num))
                                                (b : list (Sprite Id' num)),
  map tuple a = map tuple b -> serializeSprites a = serializeSprites b.
Proof.
  intros a b Hab.
  assert (Hrec : map serializeSprite a = map serializeSprite b).
  { revert b Hab. induction a as [|s a IH]; intros [|t b] Hab; try discriminate;
      [reflexivity|].
    cbn [map] in *.
    assert (Hst : tuple s = tuple t) by congruence.
    assert (Hrest : map tuple a = map tuple b) by congruence.
    rewrite (IH b Hrest). f_equal.
    unfold tuple in Hst. unfold serializeSprite.
    injection Hst as -> -> -> -> ->. reflexivity. }
  unfold serializeSprites. rewrite Hrec.
  destruct a, b; try discriminate; reflexivity.
Qed.

(** A sprite that [deserializeItem] makes is well formed. *)
Lemma deserializeItem_wellformed now i item s :
  contains ";" item = false ->
  deserializeItem now i item = Some s ->
  name s <> EmptyString
  /\ contains ":" (name s) = false /\ contains ";" (name s) = false
  /\ isNaN (x s) = false /\ isNaN (y s) = false
  /\ isNaN (w s) = false /\ isNaN (h s) = false
  /\ id s = now i + Z.of_nat i.
Proof.
  intros Hsemi. unfold deserializeItem.
  pose proof (split_pieces_sep ":" item) as Hcolon.
  pose proof (@split_pieces_other ":" ";" item Hsemi) as Hsc.
  destruct (split ":" item) as [|nm [|coords rest]]; cbn [nth_error];
    try discriminate.
  destruct (isEmpty nm || isEmpty coords) eqn:E; [discriminate|].
  apply orb_false_iff in E. destruct E as [Enm _].
  destruct (map Number (split "," coords)) as [|vx [|vy [|vw [|vh more]]]];
    cbn [nth_error]; try discriminate.
  destruct (isNaN vx || isNaN vy || isNaN vw || isNaN vh) eqn:En; [discriminate|].
  intros [= <-]. cbn [name x y w h id].
  repeat (apply orb_false_iff in En; destruct En as [En ?]).
  inversion Hcolon; subst. inversion Hsc; subst.
  repeat split; try assumption.
  now apply isEmpty_false_iff.
Qed.

Lemma deserializeItem_id now i item s :
  deserializeItem now i item = Some s -> id s = now i + Z.of_nat i.
Proof.
  unfold deserializeItem. break_matches; intros E; try discriminate.
  injection E as <-. reflexivity.
Qed.

Lemma deserializeItems_in now : forall items i s,
  In s (deserializeItems now i items) ->
  exists j item, (i <= j)%nat /\ In item items
                 /\ deserializeItem now j item = Some s.
Proof.
  induction items as [|item rest IH]; intros i s Hin; [contradiction|].
  cbn [deserializeItems] in Hin.
  destruct (deserializeItem now i item) as [t|] eqn:E.
  - destruct Hin as [<-|Hin].
    + exists i, item. repeat split; [lia | now left | exact E].
    + destruct (IH _ _ Hin) as (j & it & Hj & Hit & Hd).
      exists j, it. repeat split; [lia | now right | exact Hd].
  - destruct (IH _ _ Hin) as (j & it & Hj & Hit & Hd).
    exists j, it. repeat split; [lia | now right | exact Hd].
Qed.

(** What [deserializeSprites] returns comes from the records. *)
Lemma deserializeSprites_in now hash s :
  In s (deserializeSprites now hash) ->
  exists j item, contains ";" item = false
                 /\ deserializeItem now j item = Some s.
Proof.
  unfold deserializeSprites.
  destruct (isEmpty hash || negb (startsWith hash "#")); [contradiction|].
  destruct (negb (startsWith (drop 1 hash) "v1|")); [contradiction|].
  destruct (isEmpty (drop 3 (drop 1 hash))); [contradiction|].
  intros Hin. destruct (deserializeItems_in _ _ _ _ Hin) as (j & item & _ & Hit & Hd).
  exists j, item. split; [|exact Hd].
  pose proof (split_pieces_sep ";" (drop 3 (drop 1 hash))) as Hp.
  rewrite Forall_forall in Hp. now apply Hp.
Qed.

(** With a clock that does not run backwards, identifiers grow along the
    records. *)
Lemma deserializeItems_ids now :
  (forall i j, (i <= j)%nat -> now i <= now j) ->
  forall items i,
    Forall (fun s => now i + Z.of_nat i <= id s) (deserializeItems now i items)
    /\ StronglySorted Z.lt (map id (deserializeItems now i items)).
Proof.
  intros Hclock. induction items as [|item rest IH]; intros i.
  - split; constructor.
  - destruct (IH (S i)) as [Hlow Hsorted].
    assert (Hstep : now i + Z.of_nat i < now (S i) + Z.of_nat (S i))
      by (pose proof (Hclock i (S i) ltac:(lia)); lia).
    assert (Hlow' : Forall (fun s => now i + Z.of_nat i < id s)
                           (deserializeItems now (S i) rest))
      by (eapply Forall_impl; [|exact Hlow]; intros s Hs; simpl in *; lia).
    cbn [deserializeItems].
    destruct (deserializeItem now i item) as [t|] eqn:E.
    + pose proof (deserializeItem_id _ _ _ E) as Hid.
      split.
      * constructor; [lia|]. eapply Forall_impl; [|exact Hlow'].
        intros s Hs. simpl in *. lia.
      * cbn [map]. constructor; [exact Hsorted|].
        apply Forall_map. rewrite Hid. exact Hlow'.
    + split; [|exact Hsorted].
      eapply Forall_impl; [|exact Hlow']. intros s Hs. simpl in *. lia.
Qed.

(** The round trip of sprites with a name, whatever is in the name. *)
Lemma roundtrip_writable {Id} (rs : list (Sprite Id num)) now :
  Forall UrlState.writable rs ->
  map tuple (deserializeSprites now ("#" ++ serializeSprites rs))
  = map UrlState.writtenTuple rs.
Proof.
  intros Hrs.
  set (clean := fun s : Sprite Id num =>
                  mkSprite (id s) (replaceAll reserved "-" (name s))
                           (x s) (y s) (w s) (h s)).
  assert (Hser : serializeSprites (map clean rs) = serializeSprites rs).
  { unfold serializeSprites.
    assert (Hrec : map serializeSprite (map clean rs) = map serializeSprite rs).
    { rewrite map_map. apply map_ext_in. intros s Hin.
      destruct (proj1 (Forall_forall _ _) Hrs s Hin) as (Hne & Hx & Hy & Hw & Hh).
      exact (proj2 (sanitized_carried s Hne Hx Hy Hw Hh)). }
    rewrite Hrec. now destruct rs. }
  rewrite <- Hser, roundtrip_carried.
  - rewrite map_map. reflexivity.
  - apply Forall_map. eapply Forall_impl; [|exact Hrs].
    intros s (Hne & Hx & Hy & Hw & Hh).
    exact (proj1 (sanitized_carried s Hne Hx Hy Hw Hh)).
Qed.

End WithNumbers.

Lemma sorted_nodup : forall l : list Z, StronglySorted Z.lt l -> NoDup l.
Proof.
  induction 1 as [|a l Hs IH Ha]; constructor; [|exact IH].
  intros Hin. rewrite Forall_forall in Ha. specialize (Ha a Hin). lia.
Qed.

(** ** Statements about the codec *)

(** X10: for sprites that have a name and coordinates that survive
    printing, decoding [#] followed by the encoding gives back every
    sprite, in order, with its coordinates and with its name in which each
    of [: ; , |] has become [-]: a reserved character in a name never
    breaks the record or its neighbours. *)
Theorem X10_encoding_cleans_names :
  forall (num : Type) (N : JsNumber num) (Id : Type)
         (rs : list (Sprite Id num)) (now : nat -> Z),
    Forall UrlState.writable rs ->
    map tuple (deserializeSprites now ("#" ++ serializeSprites rs))
    = map UrlState.writtenTuple rs.
Proof. intros. now apply roundtrip_writable. Qed.

Lemma X10_encoding_cleans_names_witness :
  map tuple (deserializeSprites Samples.noon
               ("#" ++ serializeSprites [Samples.icon "a:b,c"]))
  = map UrlState.writtenTuple [Samples.icon "a:b,c"].
Proof.
  apply (@X10_encoding_cleans_names _ decNumber Z [Samples.icon "a:b,c"] Samples.noon).
  repeat constructor; try discriminate.
Defined.

(** X11: encoding is stable under a reload: encoding the sprites decoded
    from [#] followed by an encoding gives that encoding again. *)
Theorem X11_encoding_is_stable :
  forall (num : Type) (N : JsNumber num) (Id : Type)
         (rs : list (Sprite Id num)) (now : nat -> Z),
    Forall UrlState.writable rs ->
    serializeSprites (deserializeSprites now ("#" ++ serializeSprites rs))
    = serializeSprites rs.
Proof.
  intros num N Id rs now Hrs.
  set (clean := fun s : Sprite Id num =>
                  mkSprite (id s) (replaceAll reserved "-" (name s))
                           (x s) (y s) (w s) (h s)).
  transitivity (serializeSprites (map clean rs)).
  - apply serializeSprites_tuples.
    rewrite (roundtrip_writable now Hrs), map_map. reflexivity.
  - unfold serializeSprites.
    assert (Hrec : map serializeSprite (map clean rs) = map serializeSprite rs).
    { rewrite map_map. apply map_ext_in. intros s Hin.
      destruct (proj1 (Forall_forall _ _) Hrs s Hin) as (Hne & Hx & Hy & Hw & Hh).
      exact (proj2 (sanitized_carried s Hne Hx Hy Hw Hh)). }
    rewrite Hrec. now destruct rs.
Qed.

Lemma X11_encoding_is_stable_witness :
  serializeSprites (deserializeSprites Samples.noon
                      ("#" ++ serializeSprites [Samples.icon "a:b,c"]))
  = serializeSprites [Samples.icon "a:b,c"].
Proof.
  apply (@X11_encoding_is_stable _ decNumber Z [Samples.icon "a:b,c"] Samples.noon).
  repeat constructor; try discriminate.
Defined.

(** X12: every sprite [deserializeSprites] returns, whatever the hash, has
    a non-empty name without [:] and [;] and four coordinates none of
    which is [NaN]. *)
Theorem X12_decoded_sprites_are_wellformed :
  forall (num : Type) (N : JsNumber num) (now : nat -> Z) (hash : string)
         (s : Sprite Z num),
    In s (deserializeSprites now hash) ->
    name s <> EmptyString
    /\ contains ":" (name s) = false /\ contains ";" (name s) = false
    /\ isNaN (x s) = false /\ isNaN (y s) = false
    /\ isNaN (w s) = false /\ isNaN (h s) = false.
Proof.
  intros num N now hash s Hin.
  destruct (deserializeSprites_in _ _ _ Hin) as (j & item & Hsemi & Hd).
  pose proof (deserializeItem_wellformed _ _ _ Hsemi Hd) as Hw.
  tauto.
Qed.

Lemma X12_decoded_sprites_are_wellformed_witness :
  name (Samples.icon "b") <> EmptyString
  /\ contains ":" (name (Samples.icon "b")) = false
  /\ contains ";" (name (Samples.icon "b")) = false
  /\ isNaN (x (Samples.icon "b")) = false /\ isNaN (y (Samples.icon "b")) = false
  /\ isNaN (w (Samples.icon "b")) = false /\ isNaN (h (Samples.icon "b")) = false.
Proof.
  apply (@X12_decoded_sprites_are_wellformed _ decNumber
           (fun _ => 6) "#v1|a:1,2,3,x;b:0,0,32,32").
  left. reflexivity.
Defined.

(** X13: when the clock does not run backwards while a hash is decoded,
    the identifiers of the decoded sprites increase strictly along the
    list, so no two decoded sprites share an identifier. *)
Theorem X13_decoded_ids_are_distinct :
  forall (num : Type) (N : JsNumber num) (now : nat -> Z) (hash : string),
    (forall i j, (i <= j)%nat -> now i <= now j) ->
    StronglySorted Z.lt (map id (deserializeSprites now hash))
    /\ NoDup (map id (deserializeSprites now hash)).
Proof.
  intros num N now hash Hclock.
  assert (Hs : StronglySorted Z.lt (map id (deserializeSprites now hash))).
  { unfold deserializeSprites.
    destruct (isEmpty hash || negb (startsWith hash "#")); [constructor|].
    destruct (negb (startsWith (drop 1 hash) "v1|")); [constructor|].
    destruct (isEmpty (drop 3 (drop 1 hash))); [constructor|].
    apply (deserializeItems_ids now Hclock). }
  split; [exact Hs | now apply sorted_nodup].
Qed.

Lemma X13_decoded_ids_are_distinct_witness :
  NoDup (map id (deserializeSprites (num := DecNumber.t) Samples.noon
                   "#v1|a:0,0,32,32;b:34,0,32,32")).
Proof.
  apply (@X13_decoded_ids_are_distinct _ decNumber Samples.noon
           "#v1|a:0,0,32,32;b:34,0,32,32").
  intros i j _. unfold Samples.noon. lia.
Defined.

(** X14: what the effect that loads the URL hash leaves in [sprites]. A
    hash without the prefix [#v1|] leaves the sprites as they are, and so
    does a hash behind whose prefix no record decodes; any other hash
    replaces them by the sprites decoded, of which there is at least one,
    so loading a hash never empties the sprite list. The hash made of [#]
    and the encoding of sprites that have names replaces the sprites by
    those, names cleaned. *)
Theorem X14_loading_a_hash :
  forall (num : Type) (N : JsNumber num) (now : nat -> Z)
         (old : list (Sprite Z num)),
    (forall hash, startsWith hash "#v1|" = false ->
                  UrlState.loadHash now hash old = old)
    /\ (forall now' recs,
          Forall (fun r => contains ";" r = false /\ decodeRecord now' r = []) recs ->
          UrlState.loadHash now ("#v1|" ++ join ";" recs) old = old)
    /\ (forall now' recs,
          Forall (fun r => contains ";" r = false) recs ->
          Exists (fun r => decodeRecord now' r <> []) recs ->
          UrlState.loadHash now ("#v1|" ++ join ";" recs) old
          = deserializeSprites now ("#v1|" ++ join ";" recs)
          /\ map tuple (UrlState.loadHash now ("#v1|" ++ join ";" recs) old)
             = flat_map (fun r => map tuple (decodeRecord now' r)) recs)
    /\ (forall hash, UrlState.loadHash now hash old = [] -> old = [])
    /\ (forall (Id : Type) (rs : list (Sprite Id num)),
          rs <> [] -> Forall UrlState.writable rs ->
          map tuple (UrlState.loadHash now ("#" ++ serializeSprites rs) old)
          = map UrlState.writtenTuple rs).
Proof.
  intros num N now old.
  assert (Hkeep : forall hash, deserializeSprites now hash = [] ->
                               UrlState.loadHash now hash old = old).
  { intros hash E. unfold UrlState.loadHash. rewrite E. now destruct (isEmpty hash). }
  assert (Hload : forall hash, deserializeSprites now hash <> [] ->
                               UrlState.loadHash now hash old
                               = deserializeSprites now hash).
  { intros hash E. unfold UrlState.loadHash.
    destruct hash as [|c t]; [now destruct E|]. cbn [isEmpty].
    destruct (deserializeSprites now (String c t)); [congruence|reflexivity]. }
  assert (Hrecs : forall now' recs,
            Forall (fun r => contains ";" r = false) recs ->
            map tuple (deserializeSprites now ("#v1|" ++ join ";" recs)%string)
            = flat_map (fun r => map tuple (decodeRecord now' r)) recs).
  { intros now' recs Hs. destruct recs as [|r recs]; [reflexivity|].
    apply deserializeSprites_records; [discriminate | exact Hs]. }
  split; [|split; [|split; [|split]]].
  - intros hash Hp. apply Hkeep. now apply deserializeSprites_unprefixed.
  - intros now' recs Hall. apply Hkeep.
    apply (map_eq_nil tuple). rewrite (Hrecs now').
    + induction Hall as [|r l [_ Hr] _ IH]; [reflexivity|].
      cbn [flat_map]. now rewrite Hr, IH.
    + eapply Forall_impl; [|exact Hall]. now intros r [? _].
  - intros now' recs Hs Hex.
    assert (Hne : deserializeSprites now ("#v1|" ++ join ";" recs)%string <> []).
    { intros E. apply (f_equal (map tuple)) in E. rewrite (Hrecs now' recs Hs) in E.
      cbn [map] in E. clear -Hex E.
      induction Hex as [r l Hr|r l _ IH].
      - cbn [flat_map] in E. apply app_eq_nil in E. destruct E as [E _].
        apply map_eq_nil in E. contradiction.
      - cbn [flat_map] in E. apply app_eq_nil in E. destruct E as [_ E]. auto. }
    rewrite (Hload _ Hne). split; [reflexivity | now apply Hrecs].
  - intros hash. unfold UrlState.loadHash.
    destruct (isEmpty hash); [auto|].
    destruct (deserializeSprites now hash) as [|s l]; simpl; [auto|discriminate].
  - intros Id rs Hne Hrs.
    pose proof (roundtrip_writable now Hrs) as Hrt.
    rewrite Hload; [exact Hrt|].
    intros E. rewrite E in Hrt. destruct rs; [congruence|discriminate].
Qed.

Lemma X14_loading_a_hash_witness :
  UrlState.loadHash Samples.noon "v1|icon-a:0,0,32,32" Samples.twoIcons
  = Samples.twoIcons
  /\ UrlState.loadHash Samples.noon ("#v1|" ++ join ";" ["zzz"; "a:1,2,3,x"; ":0,0,1,1"])
                       Samples.twoIcons
     = Samples.twoIcons
  /\ map tuple (UrlState.loadHash Samples.noon
                  ("#v1|" ++ join ";" ["zzz"; "b:0,0,10,10"]) Samples.twoIcons)
     = flat_map (fun r => map tuple (decodeRecord (num := DecNumber.t) Samples.noon r))
                ["zzz"; "b:0,0,10,10"]
  /\ map tuple (UrlState.loadHash Samples.noon
                  ("#" ++ serializeSprites [Samples.icon "a:b,c"]) Samples.twoIcons)
     = map UrlState.writtenTuple [Samples.icon "a:b,c"].
Proof.
  destruct (@X14_loading_a_hash _ decNumber Samples.noon Samples.twoIcons)
    as (H1 & H2 & H3 & _ & H5).
  split; [|split; [|split]].
  - apply H1. reflexivity.
  - apply (H2 Samples.noon). repeat constructor.
  - apply (H3 Samples.noon).
    + repeat constructor.
    + right. left. discriminate.
  - apply H5; [discriminate | repeat constructor; try discriminate].
Defined.

End CodecMoreFacts.

(* ================================================================== *)
(** * Properties of the object behind the [json] output *)

Module JsonMapFacts.
Import JsString CodeGen JsonMap.
Local Open Scope list_scope.

Lemma lookup_assign {V} key key' (v : V) : forall obj,
  lookup key (assign key' v obj)
  = if String.eqb key' key then Some v else lookup key obj.
Proof.
  induction obj as [|[k u] rest IH]; cbn [assign lookup].
  - reflexivity.
  - destruct (String.eqb_spec k key') as [->|Hk]; cbn [lookup].
    + destruct (String.eqb key' key); reflexivity.
    + rewrite IH. destruct (String.eqb_spec k key) as [->|]; [|reflexivity].
      destruct (String.eqb_spec key' key) as [->|]; [congruence|reflexivity].
Qed.

Lemma lookup_setProperty {V} key key' (v : V) obj :
  lookup key (setProperty key' v obj)
  = if String.eqb key' "__proto__" then lookup key obj
    else if String.eqb key' key then Some v else lookup key obj.
Proof.
  unfold setProperty. destruct (String.eqb key' "__proto__"); [reflexivity|].
  apply lookup_assign.
Qed.

Lemma assign_new {V} key (v : V) : forall obj,
  lookup key obj = None -> assign key v obj = obj ++ [(key, v)].
Proof.
  induction obj as [|[k u] rest IH]; cbn [assign lookup]; intros Hl; [reflexivity|].
  destruct (String.eqb k key); [discriminate|].
  cbn [app]. now rewrite IH.
Qed.

Lemma indexed_none {V} : forall obj : list (string * V),
  Forall (fun e => arrayIndex (fst e) = None) obj ->
  fold_right (fun e acc =>
                match arrayIndex (fst e) with
                | Some n => insertIndexed n e acc
                | None => acc
                end) [] obj = [].
Proof.
  induction 1 as [|e l He _ IH]; simpl; [reflexivity|]. now rewrite He.
Qed.

Lemma named_all {V} : forall obj : list (string * V),
  Forall (fun e => arrayIndex (fst e) = None) obj ->
  filter (fun e : string * V =>
            match arrayIndex (fst e) with
            | Some _ => false
            | None => true
            end) obj = obj.
Proof.
  induction 1 as [|e l He _ IH]; simpl; [reflexivity|].
  rewrite He. now rewrite IH.
Qed.

(** An object without array indices among its keys is listed as it was
    built. *)
Lemma ownProperties_ordinary {V} : forall obj : list (string * V),
  Forall (fun e => arrayIndex (fst e) = None) obj -> ownProperties obj = obj.
Proof.
  intros obj Hobj. unfold ownProperties.
  now rewrite (indexed_none Hobj), (named_all Hobj).
Qed.

Section WithNumbers.
Context {num : Type} `{JsNumber num}.
Variable Id : Type.

Lemma spriteMap_lookup_from key : forall (sprites : list (Sprite Id num)) m,
  key <> "__proto__" ->
  lookup key (fold_left (fun map s => setProperty (name s) (entry s) map) sprites m)
  = match lastNamed key sprites with
    | Some s => Some (entry s)
    | None => lookup key m
    end.
Proof.
  induction sprites as [|s rest IH]; intros m Hkey; [reflexivity|].
  cbn [fold_left lastNamed]. rewrite (IH _ Hkey).
  destruct (lastNamed key rest) as [t|]; [reflexivity|].
  rewrite lookup_setProperty.
  destruct (String.eqb_spec (name s) "__proto__") as [E|_].
  - destruct (String.eqb_spec (name s) key) as [E'|]; [congruence|reflexivity].
  - destruct (String.eqb (name s) key); reflexivity.
Qed.

Lemma spriteMap_proto_from : forall (sprites : list (Sprite Id num)) m,
  lookup "__proto__"
         (fold_left (fun map s => setProperty (name s) (entry s) map) sprites m)
  = lookup "__proto__" m.
Proof.
  induction sprites as [|s rest IH]; intros m; [reflexivity|].
  cbn [fold_left]. rewrite IH, lookup_setProperty.
  destruct (String.eqb_spec (name s) "__proto__") as [E|E]; [reflexivity|].
  destruct (String.eqb_spec (name s) "__proto__"); [congruence|reflexivity].
Qed.

Lemma spriteMap_ordered_from : forall (sprites : list (Sprite Id num)) m,
  NoDup (map name sprites) ->
  Forall (fun s => ordinaryName (name s)) sprites ->
  Forall (fun s => lookup (name s) m = None) sprites ->
  fold_left (fun map s => setProperty (name s) (entry s) map) sprites m
  = m ++ map (fun s => (name s, entry s)) sprites.
Proof.
  induction sprites as [|s rest IH]; intros m Hnd Hord Hnew.
  - cbn. now rewrite app_nil_r.
  - inversion Hnd as [|? ? Hnotin Hnd']; subst.
    inversion Hord as [|? ? [Hproto _] Hord']; subst.
    inversion Hnew as [|? ? Hs Hnew']; subst.
    cbn [fold_left map]. unfold setProperty at 2.
    destruct (String.eqb_spec (name s) "__proto__") as [E|_]; [congruence|].
    rewrite (assign_new _ _ _ Hs), IH; try assumption.
    + now rewrite <- app_assoc.
    + rewrite Forall_forall in *. intros t Ht.
      rewrite <- (assign_new _ _ _ Hs), lookup_assign.
      destruct (String.eqb_spec (name s) (name t)) as [E|_].
      * exfalso. apply Hnotin. rewrite E. now apply in_map.
      * now apply Hnew'.
Qed.

End WithNumbers.

(** X15: the object the [json] output prints holds, under each name other
    than [__proto__], the coordinates of the last sprite of that name,
    and nothing under [__proto__]; so sprites that share a name give one
    entry. When the names are distinct and none is [__proto__] or an
    array index, the object lists one entry per sprite in sprite order. *)
Theorem X15_json_object :
  forall (num : Type) (N : JsNumber num) (Id : Type)
         (sprites : list (Sprite Id num)),
    jsonCode sprites = jsonStringify (spriteMap sprites)
    /\ (forall key, key <> "__proto__" ->
                    lookup key (spriteMap sprites)
                    = option_map (@entry num Id) (lastNamed key sprites))
    /\ lookup "__proto__" (spriteMap sprites) = None
    /\ (NoDup (map name sprites) ->
        Forall (fun s => ordinaryName (name s)) sprites ->
        ownProperties (spriteMap sprites)
        = map (fun s => (name s, entry s)) sprites).
Proof.
  intros num N Id sprites. split; [reflexivity|]. split; [|split].
  - intros key Hkey. unfold spriteMap. rewrite (spriteMap_lookup_from _ _ Hkey).
    now destruct (lastNamed key sprites).
  - unfold spriteMap. now rewrite spriteMap_proto_from.
  - intros Hnd Hord. unfold spriteMap.
    rewrite spriteMap_ordered_from; try assumption.
    + cbn [app]. apply ownProperties_ordinary.
      apply Forall_map. eapply Forall_impl; [|exact Hord].
      intros s [_ Hidx]. exact Hidx.
    + apply Forall_forall. reflexivity.
Qed.

Lemma X15_json_object_witness :
  ownProperties (spriteMap Samples.twoIcons)
  = map (fun s => (name s, entry s)) Samples.twoIcons.
Proof.
  destruct (@X15_json_object _ decNumber Z Samples.twoIcons) as (_ & _ & _ & Hord).
  apply Hord.
  - repeat constructor; simpl; intuition discriminate.
  - repeat constructor; discriminate.
Defined.

End JsonMapFacts.

(* ================================================================== *)
(** * Properties of the saved session *)

Module PersistenceFacts.
Import Packing Builder Persistence.
Local Open Scope list_scope.

(** X16: a save with a blob, whatever the database held, is loaded back
    as the same mode, sprites and dimensions, the same blob, and the build
    items without their image elements. A save without a blob changes the
    metadata only: the load pairs it with the blob stored before, and
    restores nothing if there was none, as after [clear]. *)
Theorem X16_save_then_load :
  forall (Id Img Blob : Type) (sprites : list (Sprite Id Z))
         (items : list (Item Id Img)) (dim : Dimensions Z) (mode : Mode)
         (blob : Blob) (timestamp : Z) (d : Database Id Img Blob),
    loadSession (triggerSave sprites items dim mode (Some blob) timestamp d)
    = Some (mkRestored mode sprites (map (@withoutImage Id Img) items) dim blob)
    /\ loadSession (triggerSave sprites items dim mode None timestamp d)
       = option_map (mkRestored mode sprites (map (@withoutImage Id Img) items) dim)
                    (imagesStore d "composite")
    /\ loadSession (triggerSave sprites items dim mode None timestamp (clear d))
       = None
    /\ loadSession (clear (triggerSave sprites items dim mode (Some blob) timestamp d))
       = None
    /\ map (fun i => (item_id i, item_name i, item_tag i, item_w i, item_h i,
                      originalSrc i))
           (map (@withoutImage Id Img) items)
       = map (fun i => (item_id i, item_name i, item_tag i, item_w i, item_h i,
                        originalSrc i)) items
    /\ Forall (fun i => imgElement i = None) (map (@withoutImage Id Img) items).
Proof.
  intros. repeat split; try reflexivity.
  - rewrite map_map. reflexivity.
  - apply Forall_map. apply Forall_forall. reflexivity.
Qed.

End PersistenceFacts.

(* ================================================================== *)
(** * Properties of the drawing of the composite *)

Module CompositeFacts.
Import JsString Packing Composite.
Local Open Scope list_scope.
Local Open Scope nat_scope.

Section WithHandles.
Variables Id Img : Type.

(** ** Lists *)

Lemma filter_partition {A} (f : A -> bool) : forall l,
  Permutation (filter f l ++ filter (fun a => negb (f a)) l) l.
Proof.
  induction l as [|a l IH]; simpl; [constructor|].
  destruct (f a); simpl.
  - now constructor.
  - apply Permutation_sym, Permutation_cons_app, Permutation_sym, IH.
Qed.

Lemma filter_all_length {A} (f : A -> bool) : forall l,
  List.length (filter f l) = List.length l -> filter f l = l.
Proof.
  induction l as [|a l IH]; simpl; intros Hl; [reflexivity|].
  destruct (f a); simpl in Hl.
  - f_equal. apply IH. lia.
  - pose proof (filter_length_le f l). lia.
Qed.

Lemma nth_all {A} : forall (l pre : list A),
  flat_map (loadedBy (pre ++ l)) (seq (List.length pre) (List.length l)) = l.
Proof.
  induction l as [|a l IH]; intros pre; [reflexivity|].
  cbn [List.length seq flat_map]. unfold loadedBy at 1.
  rewrite nth_error_app2, Nat.sub_diag by lia. cbn [nth_error].
  change ([a] ++ ?t) with (a :: t). f_equal.
  specialize (IH (pre ++ [a])).
  rewrite <- app_assoc, length_app in IH. cbn [app List.length] in IH.
  rewrite Nat.add_1_r in IH. exact IH.
Qed.

Lemma loaded_valid {A} (l : list A) : forall events,
  flat_map (loadedBy l) events
  = flat_map (loadedBy l) (filter (fun k => k <? List.length l) events)
  /\ List.length (flat_map (loadedBy l) events)
     = List.length (filter (fun k => k <? List.length l) events).
Proof.
  induction events as [|k events [IH1 IH2]]; [split; reflexivity|].
  cbn [flat_map filter].
  destruct (Nat.ltb_spec k (List.length l)) as [Hk|Hk].
  - destruct (nth_error l k) as [p|] eqn:E; [|apply nth_error_None in E; lia].
    assert (Hp : loadedBy l k = [p]) by (unfold loadedBy; now rewrite E).
    cbn [flat_map]. rewrite Hp, <- IH1. split; [reflexivity|].
    cbn [Datatypes.app List.length]. now rewrite IH2.
  - assert (Hp : loadedBy l k = []).
    { unfold loadedBy. now rewrite (proj2 (nth_error_None l k)) by lia. }
    rewrite Hp. cbn [Datatypes.app]. split; assumption.
Qed.

(** Distinct load events draw at most every waiting image, and when they
    draw as many images as are waiting, they draw each one once. *)
Lemma loaded_count {A} (l : list A) events :
  NoDup events ->
  List.length (flat_map (loadedBy l) events) <= List.length l
  /\ (List.length (flat_map (loadedBy l) events) = List.length l ->
      Permutation (flat_map (loadedBy l) events) l
      /\ forall k, k < List.length l -> In k events)
  /\ ((forall k, k < List.length l -> In k events) ->
      List.length (flat_map (loadedBy l) events) = List.length l).
Proof.
  intros Hnd.
  destruct (loaded_valid l events) as [Hflat Hlen].
  set (valid := filter (fun k => k <? List.length l) events) in *.
  assert (Hvnd : NoDup valid) by (apply NoDup_filter; exact Hnd).
  assert (Hincl : incl valid (seq 0 (List.length l))).
  { intros k Hk. apply filter_In in Hk. destruct Hk as [_ Hk].
    apply Nat.ltb_lt in Hk. apply in_seq. lia. }
  assert (Hle : List.length valid <= List.length l).
  { pose proof (NoDup_incl_length Hvnd Hincl) as Hl.
    now rewrite length_seq in Hl. }
  rewrite Hlen. split; [exact Hle|]. split.
  - intros Heq.
    assert (Hperm : Permutation valid (seq 0 (List.length l))).
    { apply NoDup_Permutation_bis; [exact Hvnd | | exact Hincl].
      rewrite length_seq. lia. }
    split.
    + rewrite Hflat.
      rewrite (Permutation_flat_map (loadedBy l) Hperm).
      change l with ([] ++ l) at 1. change 0 with (@List.length A []).
      now rewrite nth_all.
    + intros k Hk.
      assert (Hin : In k valid).
      { apply (Permutation_in k (Permutation_sym Hperm)). apply in_seq. lia. }
      apply filter_In in Hin. tauto.
  - intros Hall.
    assert (Hincl2 : incl (seq 0 (List.length l)) valid).
    { intros k Hk. apply in_seq in Hk. apply filter_In. split.
      - apply Hall. lia.
      - apply Nat.ltb_lt. lia. }
    pose proof (NoDup_incl_length (seq_NoDup _ _) Hincl2) as Hl.
    rewrite length_seq in Hl. lia.
Qed.

(** ** Draws *)

Lemma drawItem_fields t (p : Positioned Id Img) cv :
  drawn (drawItem t p cv) = drawn cv ++ [p]
  /\ itemsLoaded (drawItem t p cv) = S (itemsLoaded cv)
  /\ waiting (drawItem t p cv) = waiting cv
  /\ blobs (drawItem t p cv)
     = blobs cv ++ (if S (itemsLoaded cv) =? t then [drawn cv ++ [p]] else []).
Proof.
  unfold drawItem, finish. cbn [itemsLoaded].
  destruct (S (itemsLoaded cv) =? t); cbn [drawn itemsLoaded waiting blobs];
    repeat split; try reflexivity.
  now rewrite app_nil_r.
Qed.

(** A run of steps each of which draws one chosen image or nothing: the
    canvas collects the images in order, and a blob is made at most once,
    by the draw that completes the count, of the canvas as it is at the
    end. *)
Lemma fold_draws t {X} (step : Canvas Id Img -> X -> Canvas Id Img)
      (sel : X -> list (Positioned Id Img)) (Inv : Canvas Id Img -> Prop) :
  (forall cv x, Inv cv ->
     Inv (step cv x)
     /\ ((sel x = []
          /\ drawn (step cv x) = drawn cv
          /\ itemsLoaded (step cv x) = itemsLoaded cv
          /\ blobs (step cv x) = blobs cv)
         \/ (exists p, sel x = [p]
                       /\ drawn (step cv x) = drawn (drawItem t p cv)
                       /\ itemsLoaded (step cv x) = itemsLoaded (drawItem t p cv)
                       /\ blobs (step cv x) = blobs (drawItem t p cv)))) ->
  forall xs cv,
    Inv cv ->
    itemsLoaded cv = List.length (drawn cv) ->
    itemsLoaded cv + List.length (flat_map sel xs) <= t ->
    let cv' := fold_left step xs cv in
    Inv cv'
    /\ drawn cv' = drawn cv ++ flat_map sel xs
    /\ itemsLoaded cv' = itemsLoaded cv + List.length (flat_map sel xs)
    /\ blobs cv'
       = blobs cv ++ (if (itemsLoaded cv <? t) && (itemsLoaded cv' =? t)
                      then [drawn cv'] else []).
Proof.
  intros Hstep. induction xs as [|x xs IH]; intros cv Hinv Hlen Hpot.
  - cbn [fold_left flat_map List.length]. rewrite !app_nil_r, Nat.add_0_r.
    assert (Hb : (itemsLoaded cv <? t) && (itemsLoaded cv =? t) = false).
    { destruct (Nat.ltb_spec (itemsLoaded cv) t), (Nat.eqb_spec (itemsLoaded cv) t);
        try reflexivity. lia. }
    rewrite Hb, app_nil_r. repeat split; try assumption; reflexivity.
  - cbn [fold_left flat_map] in *. rewrite length_app in Hpot.
    set (cv' := fold_left step xs (step cv x)).
    destruct (Hstep cv x Hinv) as [Hinv1 [(Hsel & Hd & Hl & Hb)|(p & Hsel & Hd & Hl & Hb)]].
    + rewrite Hsel in *. cbn [Datatypes.app List.length] in *.
      destruct (IH (step cv x) Hinv1) as (I1 & I2 & I3 & I4); try lia.
      { rewrite Hl, Hd. exact Hlen. }
      fold cv' in I1, I2, I3, I4.
      rewrite Hd in I2. rewrite Hl in I3, I4. rewrite Hb in I4.
      repeat split; assumption.
    + destruct (drawItem_fields t p cv) as (Fd & Fl & _ & Fb).
      rewrite Hsel in *. cbn [Datatypes.app List.length] in *.
      rewrite Fd in Hd. rewrite Fl in Hl. rewrite Fb in Hb.
      destruct (IH (step cv x) Hinv1) as (I1 & I2 & I3 & I4); try lia.
      { rewrite Hl, Hd, length_app. cbn [List.length]. lia. }
      fold cv' in I1, I2, I3, I4.
      rewrite Hd in I2. rewrite Hl in I3, I4. rewrite Hb in I4.
      rewrite <- app_assoc in I2. cbn [Datatypes.app] in I2.
      split; [exact I1|]. split; [exact I2|]. split; [lia|].
      rewrite I4.
      replace (itemsLoaded cv <? t) with true by (symmetry; apply Nat.ltb_lt; lia).
      cbn [andb].
      destruct (Nat.eqb_spec (S (itemsLoaded cv)) t) as [Heq|Hneq].
      * assert (Hnil : flat_map sel xs = [])
          by (apply length_zero_iff_nil; lia).
        rewrite Hnil in I2, I3. rewrite Nat.add_0_r in I3.
        replace (S (itemsLoaded cv) <? t) with false
          by (symmetry; apply Nat.ltb_ge; lia).
        replace (itemsLoaded cv' =? t) with true
          by (symmetry; apply Nat.eqb_eq; lia).
        cbn [andb]. rewrite I2, app_nil_r. reflexivity.
      * replace (S (itemsLoaded cv) <? t) with true
          by (symmetry; apply Nat.ltb_lt; lia).
        cbn [andb]. now rewrite app_nil_r.
Qed.

(** ** The two phases of [drawComposite] *)

Lemma kinds (p : Positioned Id Img) :
  (hasImage p = true /\ loadable p = false /\ drawable p = true)
  \/ (hasImage p = false /\ loadable p = true /\ drawable p = true)
  \/ (hasImage p = false /\ loadable p = false /\ drawable p = false).
Proof.
  unfold loadable, drawable, hasImage.
  destruct (imgElement (item p)); [left|].
  - repeat split; reflexivity.
  - destruct (isEmpty (originalSrc (item p))); [right; right|right; left];
      repeat split; reflexivity.
Qed.

Lemma three_kinds : forall l : list (Positioned Id Img),
  Permutation (filter (@hasImage Id Img) l
               ++ filter (@loadable Id Img) l
               ++ filter (fun p => negb (drawable p)) l) l.
Proof.
  induction l as [|p l IH]; [constructor|].
  cbn [filter].
  destruct (kinds p) as [(-> & -> & ->)|[(-> & -> & ->)|(-> & -> & ->)]];
    cbn [negb].
  - cbn [Datatypes.app]. now constructor.
  - apply Permutation_sym, Permutation_cons_app, Permutation_sym, IH.
  - apply Permutation_sym.
    rewrite app_assoc. apply Permutation_cons_app.
    rewrite <- app_assoc. apply Permutation_sym, IH.
Qed.

Lemma all_drawable : forall l : list (Positioned Id Img),
  forallb (@drawable Id Img) l = true
  <-> filter (fun p => negb (drawable p)) l = [].
Proof.
  induction l as [|p l IH]; [cbn; tauto|].
  cbn [forallb filter]. destruct (drawable p); cbn [negb andb].
  - exact IH.
  - split; discriminate.
Qed.

Lemma with_image_not_loadable : forall l : list (Positioned Id Img),
  filter (@hasImage Id Img) l = l -> filter (@loadable Id Img) l = []
                                     /\ forallb (@drawable Id Img) l = true.
Proof.
  induction l as [|p l IH]; [split; reflexivity|].
  cbn [filter forallb].
  destruct (kinds p) as [(-> & -> & ->)|[(-> & -> & ->)|(-> & -> & ->)]];
    cbn [negb andb]; intros H.
  - injection H as H. exact (IH H).
  - exfalso. pose proof (filter_length_le (@hasImage Id Img) l) as Hle.
    rewrite H in Hle. cbn [List.length] in Hle. lia.
  - exfalso. pose proof (filter_length_le (@hasImage Id Img) l) as Hle.
    rewrite H in Hle. cbn [List.length] in Hle. lia.
Qed.

Lemma visit_waiting t : forall (l : list (Positioned Id Img)) cv,
  waiting (fold_left (visit t) l cv) = waiting cv ++ filter (@loadable Id Img) l.
Proof.
  induction l as [|p l IH]; intros cv; cbn [fold_left filter].
  - now rewrite app_nil_r.
  - rewrite IH.
    assert (Hw : waiting (visit t cv p)
                 = waiting cv ++ (if loadable p then [p] else [])).
    { unfold visit, loadable, hasImage.
      destruct (imgElement (item p)); cbn [negb andb].
      - destruct (drawItem_fields t p cv) as (_ & _ & -> & _).
        now rewrite app_nil_r.
      - destruct (isEmpty (originalSrc (item p))); cbn [negb waiting].
        + now rewrite app_nil_r.
        + reflexivity. }
    rewrite Hw, <- app_assoc. now destruct (loadable p).
Qed.

Lemma visit_step t (cv : Canvas Id Img) (p : Positioned Id Img) :
  ((if hasImage p then [p] else []) = []
   /\ drawn (visit t cv p) = drawn cv
   /\ itemsLoaded (visit t cv p) = itemsLoaded cv
   /\ blobs (visit t cv p) = blobs cv)
  \/ (exists q, (if hasImage p then [p] else []) = [q]
                /\ drawn (visit t cv p) = drawn (drawItem t q cv)
                /\ itemsLoaded (visit t cv p) = itemsLoaded (drawItem t q cv)
                /\ blobs (visit t cv p) = blobs (drawItem t q cv)).
Proof.
  unfold visit, hasImage. destruct (imgElement (item p)).
  - right. exists p. repeat split; reflexivity.
  - left. destruct (isEmpty (originalSrc (item p))); repeat split; reflexivity.
Qed.

Lemma onload_step t W (cv : Canvas Id Img) (k : nat) :
  waiting cv = W ->
  waiting (onload t cv k) = W
  /\ ((loadedBy W k = []
       /\ drawn (onload t cv k) = drawn cv
       /\ itemsLoaded (onload t cv k) = itemsLoaded cv
       /\ blobs (onload t cv k) = blobs cv)
      \/ (exists q, loadedBy W k = [q]
                    /\ drawn (onload t cv k) = drawn (drawItem t q cv)
                    /\ itemsLoaded (onload t cv k) = itemsLoaded (drawItem t q cv)
                    /\ blobs (onload t cv k) = blobs (drawItem t q cv))).
Proof.
  intros HW. unfold onload, loadedBy. rewrite HW.
  destruct (nth_error W k) as [q|].
  - split.
    + now destruct (drawItem_fields t q cv) as (_ & _ & -> & _).
    + right. exists q. repeat split; reflexivity.
  - split; [exact HW|]. left. repeat split; reflexivity.
Qed.

Lemma flat_map_filter {A} (f : A -> bool) : forall l,
  flat_map (fun a => if f a then [a] else []) l = filter f l.
Proof.
  induction l as [|a l IH]; [reflexivity|].
  cbn [flat_map filter]. rewrite IH. now destruct (f a).
Qed.

(** The canvas when [drawComposite] returns, for a list that is not
    empty. *)
Lemma drawComposite_returns (items : list (Positioned Id Img)) :
  items <> [] ->
  let cv := drawComposite items in
  let d := filter (@hasImage Id Img) items in
  drawn cv = d
  /\ itemsLoaded cv = List.length d
  /\ waiting cv = filter (@loadable Id Img) items
  /\ blobs cv = (if List.length d =? List.length items then [d] else []).
Proof.
  intros Hne cv d. subst cv. unfold drawComposite.
  assert (Hpos : 0 < List.length items) by (destruct items; [congruence|cbn; lia]).
  replace (List.length items =? 0) with false by (symmetry; apply Nat.eqb_neq; lia).
  pose proof (@fold_draws (List.length items) _ (visit (List.length items))
                (fun p => if hasImage p then [p] else []) (fun _ => True)) as F.
  specialize (F (fun cv x _ => conj I (visit_step (List.length items) cv x))
                items (blank Id Img) I eq_refl).
  rewrite flat_map_filter in F. cbn [blank itemsLoaded drawn blobs] in F.
  fold d in F.
  destruct F as (_ & F2 & F3 & F4).
  { cbn [Nat.add]. apply filter_length_le. }
  cbn [Datatypes.app Nat.add] in F2, F3, F4.
  split; [exact F2|]. split; [exact F3|].
  split; [now rewrite visit_waiting|].
  rewrite F4, F3, F2.
  replace (0 <? List.length items) with true by (symmetry; apply Nat.ltb_lt; lia).
  reflexivity.
Qed.

(** The canvas after load events, for a list that is not empty. *)
Lemma afterLoads_canvas (items : list (Positioned Id Img)) events :
  items <> [] ->
  NoDup events ->
  let cv := afterLoads items events in
  let d := filter (@hasImage Id Img) items in
  let w := flat_map (loadedBy (filter (@loadable Id Img) items)) events in
  drawn cv = d ++ w
  /\ blobs cv
     = (if List.length d =? List.length items then [d] else [])
       ++ (if (List.length d <? List.length items)
              && (List.length d + List.length w =? List.length items)
           then [d ++ w] else []).
Proof.
  intros Hne Hnd cv d w. subst cv. unfold afterLoads.
  destruct (drawComposite_returns Hne) as (Rd & Rl & Rw & Rb).
  fold d in Rd, Rl, Rb.
  set (W := filter (@loadable Id Img) items) in *.
  pose proof (@fold_draws (List.length items) _ (onload (List.length items))
                (loadedBy W) (fun cv => waiting cv = W)
                (fun cv k H => @onload_step (List.length items) W cv k H)
                events (drawComposite items) Rw) as F.
  fold w in F. rewrite Rd, Rl, Rb in F.
  destruct F as (_ & F2 & F3 & F4); [reflexivity| |].
  { pose proof (loaded_count W Hnd) as (Hle & _). fold w in Hle.
    pose proof (Permutation_length (three_kinds items)) as Hp.
    rewrite !length_app in Hp. fold d W in Hp. lia. }
  split; [exact F2|]. rewrite F4, F3, F2. reflexivity.
Qed.

(** X17 (drawComposite, its load handlers included).  Whatever distinct
    images have finished loading, and in whatever order, the composite is
    turned into a blob at most once; a blob that is made shows every item
    of the list exactly once; and one is made exactly when every item has
    an image element or a source, and every image that had to be loaded
    has loaded.  One item with neither, or one image that never loads,
    and no composite is ever produced. *)
Theorem X17_composite_made_once_and_complete
        (items : list (Positioned Id Img)) (events : list nat) :
  NoDup events ->
  let cv := afterLoads items events in
  List.length (blobs cv) <= 1
  /\ (forall b, In b (blobs cv) -> Permutation b items)
  /\ (blobs cv <> []
      <-> forallb (@drawable Id Img) items = true
          /\ forall k, k < List.length (filter (@loadable Id Img) items) ->
                       In k events).
Proof.
  intros Hnd cv. subst cv.
  destruct items as [|p0 rest] eqn:Eitems.
  { assert (Hcv : forall ev, fold_left (onload 0) ev (finish (blank Id Img))
                             = finish (blank Id Img)).
    { induction ev as [|k ev IH]; [reflexivity|].
      cbn [fold_left]. unfold onload at 2. cbn [finish blank waiting].
      destruct k; cbn [nth_error]; exact IH. }
    unfold afterLoads, drawComposite. cbn [List.length fold_left Nat.eqb].
    rewrite Hcv. cbn [finish blank blobs drawn Datatypes.app List.length filter forallb].
    split; [lia|]. split.
    - intros b [<-|[]]. constructor.
    - split; [|discriminate]. intros _. split; [reflexivity|]. intros k Hk. lia. }
  rewrite <- Eitems.
  assert (Hne : items <> []) by (rewrite Eitems; discriminate).
  clear Eitems p0 rest.
  destruct (afterLoads_canvas Hne Hnd) as (_ & ->).
  set (d := filter (@hasImage Id Img) items).
  set (W := filter (@loadable Id Img) items).
  set (w := flat_map (loadedBy W) events).
  pose proof (three_kinds items) as H3. fold d W in H3.
  pose proof (Permutation_length H3) as Hlen. rewrite !length_app in Hlen.
  destruct (loaded_count W Hnd) as (Hle & Hfull & Hall). fold w in Hle, Hfull, Hall.
  destruct (Nat.eqb_spec (List.length d) (List.length items)) as [Hd|Hd].
  - replace (List.length d <? List.length items) with false
      by (symmetry; apply Nat.ltb_ge; lia).
    cbn [andb Datatypes.app List.length].
    pose proof (@filter_all_length _ _ items Hd) as Hall_img.
    destruct (with_image_not_loadable Hall_img) as [HW Hdr]. fold W in HW.
    split; [lia|]. split.
    + intros b [<-|[]]. fold d in Hall_img. now rewrite Hall_img.
    + split; [|discriminate]. intros _. split; [exact Hdr|].
      intros k Hk. rewrite HW in Hk. cbn in Hk. lia.
  - assert (Hlt : List.length d < List.length items).
    { pose proof (filter_length_le (@hasImage Id Img) items). fold d in H. lia. }
    replace (List.length d <? List.length items) with true
      by (symmetry; apply Nat.ltb_lt; lia).
    cbn [andb Datatypes.app].
    destruct (Nat.eqb_spec (List.length d + List.length w) (List.length items))
      as [Hdw|Hdw]; cbn [List.length].
    + assert (Hw : List.length w = List.length W) by lia.
      assert (Hu : filter (fun p => negb (drawable p)) items = [])
        by (apply length_zero_iff_nil; lia).
      destruct (Hfull Hw) as [Hperm Hev].
      split; [lia|]. split.
      * intros b [<-|[]].
        rewrite Hu, app_nil_r in H3.
        apply Permutation_trans with (d ++ W); [|exact H3].
        apply Permutation_app_head, Hperm.
      * split; [|discriminate]. intros _. split; [|exact Hev].
        apply all_drawable, Hu.
    + split; [lia|]. split; [intros b []|].
      split; [congruence|]. intros [Hdr Hev]. exfalso.
      apply all_drawable in Hdr. rewrite Hdr in Hlen. cbn [List.length] in Hlen.
      specialize (Hall Hev). lia.
Qed.


End WithHandles.

Lemma X17_composite_made_once_and_complete_witness :
  let items := positionedItems (layout Samples.threeItems) in
  let cv := afterLoads items [2; 0; 1] in
  List.length (blobs cv) <= 1
  /\ (forall b, In b (blobs cv) -> Permutation b items)
  /\ (blobs cv <> []
      <-> forallb (@drawable nat unit) items = true
          /\ forall k, k < List.length (filter (@loadable nat unit) items) ->
                       In k [2; 0; 1]).
Proof.
  apply (@X17_composite_made_once_and_complete nat unit
           (positionedItems (layout Samples.threeItems)) [2; 0; 1]).
  repeat constructor; cbn; intuition discriminate.
Defined.

End CompositeFacts.

(* ================================================================== *)
(** * Properties of the generated grid *)

Module GridFacts.
Import JsString DecNumberFacts Grid GridSamples.
Local Open Scope list_scope.
Local Open Scope nat_scope.

(** ** Tables *)

(** The table with [nr] rows of [nc] entries, row after row. *)
Lemma table_length {A} (f : nat -> nat -> A) nc : forall nr,
  List.length (flat_map (fun r => map (f r) (seq 0 nc)) (seq 0 nr)) = nr * nc.
Proof.
  induction nr as [|nr IH]; [reflexivity|].
  rewrite seq_S, flat_map_app, length_app, IH. cbn [Nat.add flat_map].
  rewrite app_nil_r, length_map, length_seq. lia.
Qed.

Lemma table_nth {A} (f : nat -> nat -> A) nc : forall nr r c,
  r < nr -> c < nc ->
  nth_error (flat_map (fun r => map (f r) (seq 0 nc)) (seq 0 nr)) (r * nc + c)
  = Some (f r c).
Proof.
  induction nr as [|nr IH]; intros r c Hr Hc; [lia|].
  rewrite seq_S, flat_map_app. cbn [Nat.add flat_map]. rewrite app_nil_r.
  destruct (Nat.eq_dec r nr) as [->|Hne].
  - rewrite nth_error_app2; rewrite table_length; [|lia].
    replace (nr * nc + c - nr * nc) with c by lia.
    rewrite nth_error_map, nth_error_seq.
    replace (c <? nc) with true by (symmetry; apply Nat.ltb_lt; lia).
    reflexivity.
  - rewrite nth_error_app1; [apply IH; lia|].
    rewrite table_length. nia.
Qed.

Lemma flat_map_seq_shift {A} (f : nat -> list A) a n :
  flat_map f (seq (S a) n) = flat_map (fun k => f (S k)) (seq a n).
Proof.
  rewrite <- seq_shift, !flat_map_concat_map, map_map. reflexivity.
Qed.

(** Every index of the table is that of a row and a column. *)
Lemma table_index nc nr i :
  i < nr * nc -> exists r c, r < nr /\ c < nc /\ i = r * nc + c.
Proof.
  intros Hi. assert (HC : nc <> 0) by nia.
  exists (i / nc), (i mod nc). split; [|split].
  - apply Nat.Div0.div_lt_upper_bound. lia.
  - now apply Nat.mod_upper_bound.
  - rewrite (Nat.div_mod_eq i nc) at 1. lia.
Qed.

Section WithNumbers.
Context {num : Type} `{GridNumber num}.

(** ** The loops *)

Lemma inner_loop (body : nat -> nat -> nat -> Sprite Z num) : forall nc i acc count,
  forLoop nc i
          (fun c st =>
             ((fst st ++ [body c (List.length (fst st)) (snd st)]), S (snd st)))
          (acc, count)
  = (acc ++ map (fun k => body (i + k) (List.length acc + k) (count + k)) (seq 0 nc),
     count + nc).
Proof.
  induction nc as [|nc IH]; intros i acc count.
  - cbn [forLoop seq map]. now rewrite app_nil_r, Nat.add_0_r.
  - cbn [forLoop fst snd]. rewrite IH.
    cbn [seq map]. rewrite <- app_assoc. cbn [Datatypes.app].
    rewrite !Nat.add_0_r, <- seq_shift, map_map, length_app.
    cbn [List.length]. f_equal; [|lia]. f_equal. f_equal.
    apply map_ext. intros k. f_equal; lia.
Qed.

Lemma outer_loop (body : nat -> nat -> nat -> nat -> Sprite Z num) nc :
  forall nr i acc count,
  forLoop nr i
          (fun r st =>
             forLoop nc 0
                     (fun c st =>
                        ((fst st ++ [body r c (List.length (fst st)) (snd st)]),
                         S (snd st)))
                     st)
          (acc, count)
  = (acc ++ flat_map
              (fun k => map (fun c => body (i + k) c (List.length acc + (k * nc + c))
                                           (count + (k * nc + c)))
                            (seq 0 nc))
              (seq 0 nr),
     count + nr * nc).
Proof.
  induction nr as [|nr IH]; intros i acc count.
  - cbn [forLoop seq flat_map]. now rewrite app_nil_r, Nat.mul_0_l, Nat.add_0_r.
  - cbn [forLoop]. rewrite (inner_loop (body i) nc 0 acc count), IH.
    cbn [seq flat_map]. rewrite <- app_assoc. f_equal; [|lia]. f_equal. f_equal.
    + apply map_ext. intros c. f_equal; lia.
    + rewrite flat_map_seq_shift.
      apply flat_map_ext. intros k. apply map_ext. intros c.
      rewrite length_app, length_map, length_seq. f_equal; lia.
Qed.

(** The grid as a table. *)
Lemma generateGrid_table now (cfg : GridConfig num) dims sprites :
  truthy (width dims) = true ->
  generateGrid now cfg dims sprites
  = let itemWidth :=
      div (sub (width dims) (mul (padding cfg) (add (cols cfg) (ofCounter 1))))
          (cols cfg) in
    let itemHeight :=
      div (sub (height dims) (mul (padding cfg) (add (rows cfg) (ofCounter 1))))
          (rows cfg) in
    flat_map
      (fun r => map (fun c => cell now (padding cfg) itemWidth itemHeight r c
                                   (r * iterations (cols cfg) + c)
                                   (1 + (r * iterations (cols cfg) + c)))
                    (seq 0 (iterations (cols cfg))))
      (seq 0 (iterations (rows cfg))).
Proof.
  intros Hw. unfold generateGrid. rewrite Hw. cbn [negb].
  unfold pushCell.
  rewrite (outer_loop
             (fun r c => cell now (padding cfg)
                (div (sub (width dims) (mul (padding cfg) (add (cols cfg) (ofCounter 1))))
                     (cols cfg))
                (div (sub (height dims) (mul (padding cfg) (add (rows cfg) (ofCounter 1))))
                     (rows cfg)) r c)).
  reflexivity.
Qed.

Lemma digitsOf_inj a b : digitsOf a = digitsOf b -> a = b.
Proof.
  intros E. apply (f_equal parseDigits) in E.
  rewrite !parseDigits_digitsOf in E. congruence.
Qed.

(** X18 (generateGrid).  Without a composite width the grid is not made
    and the sprites stay. Otherwise the sprites are replaced by one
    sprite for each cell, row after row, named [icon-1], [icon-2], ... in
    that order; all have the same width and the same height, those of
    one column the same [x] and those of one row the same [y]; and, the
    clock not running backwards, no two have the same identifier or the
    same name. *)
Theorem X18_grid_cells
        (now : nat -> Z) (cfg : GridConfig num) (dims : Dimensions num)
        (sprites : list (Sprite Z num)) :
  (forall i j, i <= j -> (now i <= now j)%Z) ->
  let g := generateGrid now cfg dims sprites in
  let nr := iterations (rows cfg) in
  let nc := iterations (cols cfg) in
  (truthy (width dims) = false -> g = sprites)
  /\ (truthy (width dims) = true ->
      List.length g = nr * nc
      /\ (exists (colX rowY : nat -> num) (wd ht : num),
            forall r c, r < nr -> c < nc ->
              exists s, nth_error g (r * nc + c) = Some s
                        /\ name s = ("icon-" ++ digitsOf (N.of_nat (r * nc + c + 1)))%string
                        /\ x s = colX c /\ y s = rowY r /\ w s = wd /\ h s = ht)
      /\ NoDup (map id g)
      /\ NoDup (map name g)).
Proof.
  intros Hclock g nr nc. split.
  { intros Hw. subst g. unfold generateGrid. now rewrite Hw. }
  intros Hw. subst g. rewrite (generateGrid_table now cfg dims sprites Hw).
  cbv zeta. fold nr nc.
  set (iw := div _ (cols cfg)). set (ih := div _ (rows cfg)).
  set (f := fun r c => cell now (padding cfg) iw ih r c (r * nc + c) (1 + (r * nc + c))).
  change (flat_map _ (seq 0 nr))
    with (flat_map (fun r => map (f r) (seq 0 nc)) (seq 0 nr)).
  set (g := flat_map (fun r => map (f r) (seq 0 nc)) (seq 0 nr)).
  assert (Hlen : List.length g = nr * nc) by apply table_length.
  assert (Hnth : forall i, i < nr * nc ->
            exists r c, r < nr /\ c < nc /\ i = r * nc + c
                        /\ nth_error g i = Some (f r c)).
  { intros i Hi. destruct (@table_index nc nr i Hi) as (r & c & Hr & Hc & ->).
    exists r, c. repeat split; try assumption. now apply table_nth. }
  assert (Hdistinct : forall {B} (key : Sprite Z num -> B),
            (forall r c r' c', r < nr -> c < nc -> r' < nr -> c' < nc ->
               key (f r c) = key (f r' c') -> r * nc + c = r' * nc + c') ->
            NoDup (map key g)).
  { intros B key Hkey. apply NoDup_nth_error. intros i j Hi E.
    rewrite length_map, Hlen in Hi.
    assert (Hj : j < nr * nc).
    { rewrite <- Hlen, <- (length_map key). apply nth_error_Some.
      rewrite <- E. apply nth_error_Some. now rewrite length_map, Hlen. }
    rewrite !nth_error_map in E.
    destruct (Hnth i Hi) as (r & c & Hr & Hc & -> & Ei).
    destruct (Hnth j Hj) as (r' & c' & Hr' & Hc' & -> & Ej).
    rewrite Ei, Ej in E. cbn [option_map] in E.
    apply (Hkey r c r' c'); try assumption. congruence. }
  split; [exact Hlen|]. split; [|split].
  - exists (fun c => round (add (padding cfg) (mul (ofCounter c) (add iw (padding cfg))))),
           (fun r => round (add (padding cfg) (mul (ofCounter r) (add ih (padding cfg))))),
           (round iw), (round ih).
    intros r c Hr Hc. exists (f r c). split; [now apply table_nth|].
    unfold f, cell. cbn [name x y w h].
    repeat split; try reflexivity.
    do 3 f_equal. lia.
  - apply Hdistinct. intros r c r' c' _ _ _ _. unfold f, cell. cbn [id].
    set (i := r * nc + c). set (j := r' * nc + c'). intros E.
    destruct (Nat.lt_trichotomy i j) as [Hlt|[Heq|Hgt]]; [|exact Heq|].
    + pose proof (Hclock i j ltac:(lia)). lia.
    + pose proof (Hclock j i ltac:(lia)). lia.
  - apply Hdistinct. intros r c r' c' _ _ _ _. unfold f, cell. cbn [name].
    intros E. injection E as E. apply digitsOf_inj in E. lia.
Qed.

End WithNumbers.

Lemma X18_grid_cells_witness :
  let now := fun _ : nat => 1700000000000%Z in
  let g := generateGrid now GridSamples.defaultGrid GridSamples.image64 [] in
  let nr := iterations (rows GridSamples.defaultGrid) in
  let nc := iterations (cols GridSamples.defaultGrid) in
  (truthy (width GridSamples.image64) = false -> g = [])
  /\ (truthy (width GridSamples.image64) = true ->
      List.length g = nr * nc
      /\ (exists (colX rowY : nat -> QArith_base.Q) (wd ht : QArith_base.Q),
            forall r c, r < nr -> c < nc ->
              exists s, nth_error g (r * nc + c) = Some s
                        /\ name s = ("icon-" ++ digitsOf (N.of_nat (r * nc + c + 1)))%string
                        /\ x s = colX c /\ y s = rowY r /\ w s = wd /\ h s = ht)
      /\ NoDup (map id g)
      /\ NoDup (map name g)).
Proof.
  apply (@X18_grid_cells _ GridSamples.exactNumber (fun _ : nat => 1700000000000%Z)
           GridSamples.defaultGrid GridSamples.image64 []).
  intros i j _. lia.
Defined.

End GridFacts.


(* ================================================================== *)
(** * Properties of the states the handlers reach *)

Module ActionsFacts.
Import JsString Packing PackingFacts Builder BuilderFacts Actions.
Local Open Scope list_scope.

Section WithHandles.
Variables Id Img : Type.
Variable sameId : Id -> Id -> bool.

(** ** The handlers in one piece and in steps *)

(** A paste whose steps follow each other without anything in between is
    [pasteImage]. *)
Lemma pasteImage_steps newId img url w0 h0 (st : App Id Img) :
  pasteImage newId img url w0 h0 st
  = match snd (decoded st st) with
    | NewItem defaultTag =>
        itemLoaded defaultTag newId img url w0 h0 (fst (decoded st st))
    | _ => backdropLoaded url w0 h0 (fst (decoded st st))
    end.
Proof.
  unfold pasteImage, decoded.
  destruct (noImage (imageSrc st) && (0 <? List.length (sprites (session st)))%nat);
    cbn [fst snd]; [reflexivity|].
  unfold itemLoaded, setMode.
  destruct (mode st) eqn:Em; cbn [mode imageSrc buildItems session];
    rewrite ?Em; reflexivity.
Qed.

(** So is an explosion and [explodeSprites]. *)
Lemma explodeSprites_steps confirmed slice (st : App Id Img) :
  explodeSprites confirmed slice st
  = if explodes confirmed st then sliced st slice st else st.
Proof.
  unfold explodeSprites, explodes.
  destruct (noImage (imageSrc st) || (List.length (sprites (session st)) =? 0)%nat);
    [reflexivity|].
  now destruct confirmed.
Qed.

(** ** The layout of the build items *)

Lemma layout_sprites (items : list (Item Id Img)) :
  newSprites (layout items)
  = map (@toSprite Id Img)
        (fst (placeItems (maxWidth (totalArea items)) startCursor items)).
Proof. now rewrite layout_eq. Qed.

Lemma repackSprites_layout (items : list (Item Id Img)) st :
  items <> [] -> sprites (repackSprites items st) = newSprites (layout items).
Proof. destruct items; [congruence|reflexivity]. Qed.

Lemma layout_frames (items : list (Item Id Img)) :
  map (@frameOfSprite Id) (newSprites (layout items))
  = map (@frameOfItem Id Img) items.
Proof.
  rewrite layout_sprites, map_map.
  set (r := placeItems (maxWidth (totalArea items)) startCursor items).
  assert (Hitems : map (@item Id Img) (fst r) = items) by apply placeItems_items.
  rewrite <- Hitems, map_map. reflexivity.
Qed.

(** The layout looks at the sizes only: changing anything else of the
    items changes no position. *)
Lemma placeItems_relabel (g : Item Id Img -> Item Id Img) limit :
  (forall it, item_w (g it) = item_w it) ->
  (forall it, item_h (g it) = item_h it) ->
  forall items c,
    placeItems limit c (map g items)
    = (map (fun p => mkPositioned (g (item p)) (pos_x p) (pos_y p))
           (fst (placeItems limit c items)),
       snd (placeItems limit c items)).
Proof.
  intros Hw Hh. induction items as [|it rest IH]; intros c; [reflexivity|].
  cbn [map]. rewrite !placeItems_cons. cbn [fst snd map].
  assert (Hwrap : needsWrap limit c (g it) = needsWrap limit c it).
  { unfold needsWrap. now rewrite Hw. }
  assert (Hc : snd (placeItem limit c (g it)) = snd (placeItem limit c it)).
  { rewrite !placeItem_eq. cbv zeta. cbn [snd]. now rewrite Hwrap, Hw, Hh. }
  rewrite Hc, IH. cbn [fst snd]. f_equal. f_equal.
  rewrite !placeItem_eq. cbv zeta. cbn [fst item pos_x pos_y]. now rewrite Hwrap.
Qed.

Lemma totalArea_relabel (g : Item Id Img -> Item Id Img) :
  (forall it, item_w (g it) = item_w it) ->
  (forall it, item_h (g it) = item_h it) ->
  forall items, totalArea (map g items) = totalArea items.
Proof.
  intros Hw Hh. induction items as [|it rest IH]; [reflexivity|].
  cbn [map]. rewrite !LayoutFacts.totalArea_cons, IH, Hw, Hh. reflexivity.
Qed.

Lemma layout_renamed id0 clean (items : list (Item Id Img)) :
  newSprites
    (layout (map (fun it => if sameId (item_id it) id0
                            then mkItem (item_id it) clean (Some clean)
                                        (item_w it) (item_h it)
                                        (imgElement it) (originalSrc it)
                            else it) items))
  = map (fun s => if sameId (id s) id0
                  then mkSprite (id s) clean (x s) (y s) (w s) (h s)
                  else s)
        (newSprites (layout items)).
Proof.
  set (g := fun it : Item Id Img =>
              if sameId (item_id it) id0
              then mkItem (item_id it) clean (Some clean) (item_w it) (item_h it)
                          (imgElement it) (originalSrc it)
              else it).
  assert (Hw : forall it, item_w (g it) = item_w it)
    by (intros it; unfold g; now destruct (sameId (item_id it) id0)).
  assert (Hh : forall it, item_h (g it) = item_h it)
    by (intros it; unfold g; now destruct (sameId (item_id it) id0)).
  rewrite !layout_sprites, (totalArea_relabel g Hw Hh),
    (placeItems_relabel g _ Hw Hh). cbn [fst].
  rewrite !map_map. apply map_ext. intros p.
  unfold toSprite, g. cbn [item pos_x pos_y id].
  destruct (sameId (item_id (item p)) id0); [|reflexivity].
  cbn [item_id item_tag item_name item_w item_h x y w h].
  now rewrite orElse_same.
Qed.

Lemma frames_nil (ss : list (Sprite Id Z)) :
  map (@frameOfSprite Id) ss = [] -> ss = [].
Proof. now destruct ss. Qed.

(** ** Each handler on packed sprites *)

Lemma deleteSprite_packed id0 (st : App Id Img) :
  packed st -> packed (deleteSprite sameId id0 st).
Proof.
  unfold packed. intros Hst.
  unfold deleteSprite. destruct (mode st) eqn:Em; cbn [mode session buildItems].
  - intros Hm. congruence.
  - intros _.
    destruct (filter (fun it => negb (sameId (item_id it) id0)) (buildItems st))
      as [|it its] eqn:E.
    + cbn [repackSprites sprites]. apply frames_nil.
      rewrite (filter_in_step sameId id0 (sprites (session st)) (buildItems st)).
      * now rewrite E.
      * rewrite (Hst eq_refl). apply layout_frames.
    + apply repackSprites_layout. discriminate.
Qed.

Lemma handleTagChange_packed id0 newTag (st : App Id Img) :
  packed st -> packed (handleTagChange sameId id0 newTag st).
Proof.
  unfold packed, handleTagChange. cbn [mode session buildItems sprites].
  intros Hst Em. rewrite (Hst Em). symmetry. apply layout_renamed.
Qed.

Lemma clearAll_packed confirmed (st : App Id Img) :
  packed st -> packed (clearAll confirmed st).
Proof.
  unfold clearAll. destruct confirmed; [|auto].
  intros _. unfold packed. cbn [mode]. discriminate.
Qed.

Lemma itemLoaded_packed defaultTag newId img url w0 h0 (st : App Id Img) :
  packed (itemLoaded defaultTag newId img url w0 h0 st).
Proof.
  unfold packed, itemLoaded. cbn [mode session buildItems]. intros _.
  apply repackSprites_layout. now destruct (buildItems st).
Qed.

Lemma sliced_packed (closure : App Id Img) slice (st : App Id Img) :
  sprites (session closure) <> [] -> packed (sliced closure slice st).
Proof.
  intros Hne. unfold packed, sliced. cbn [mode session buildItems]. intros _.
  apply repackSprites_layout. now apply explodeItems_nonempty.
Qed.

(** ** The jobs *)

Lemma nth_error_parts {A} (l : list A) k a :
  nth_error l k = Some a ->
  exists l1 l2, l = l1 ++ a :: l2
                /\ removeNth k l = l1 ++ l2
                /\ forall b, replaceNth k b l = l1 ++ b :: l2.
Proof.
  intros Hk. destruct (nth_error_split l k Hk) as (l1 & l2 & -> & Hlen).
  exists l1, l2. unfold removeNth, replaceNth.
  assert (H1 : firstn k (l1 ++ a :: l2) = l1).
  { rewrite <- Hlen, firstn_app, Nat.sub_diag, firstn_all. cbn [firstn].
    apply app_nil_r. }
  assert (H2 : skipn (S k) (l1 ++ a :: l2) = l2).
  { rewrite <- Hlen. change (l1 ++ a :: l2) with (l1 ++ [a] ++ l2).
    rewrite app_assoc.
    replace (S (List.length l1)) with (List.length (l1 ++ [a]))
      by (rewrite length_app; simpl; lia).
    rewrite skipn_app, Nat.sub_diag, skipn_all. reflexivity. }
  rewrite H1, H2. repeat split; reflexivity.
Qed.

(** Every action keeps the state steady. *)
Lemma act_steady (a : Action Id Img) (r : Running Id Img) :
  steady r -> steady (act sameId a r).
Proof.
  unfold steady, idle. intros [Hs Hp].
  destruct a as [|k|k newId img url w0 h0| |confirmed|k slice|k url
                 |id0|id0 newTag|confirmed]; cbn [act].
  - cbn [app jobs]. split.
    + apply Forall_app. split; [exact Hs | repeat constructor].
    + intros Hi. apply Forall_app in Hi. tauto.
  - destruct (nth_error (jobs r) k) as [[closure| |tag|closure]|] eqn:Ek;
      try (split; assumption).
    destruct (nth_error_parts _ _ Ek) as (l1 & l2 & El & _ & Erep).
    cbn [app jobs]. rewrite Erep. rewrite El in Hs.
    apply Forall_app in Hs. destruct Hs as [Hs1 Hs2].
    inversion Hs2 as [|? ? _ Hs3]; subst.
    unfold decoded.
    destruct (noImage (imageSrc closure)
              && (0 <? List.length (sprites (session closure)))%nat);
      cbn [fst snd].
    + split.
      * apply Forall_app. split; [exact Hs1 | constructor; [exact I | exact Hs3]].
      * intros _. unfold packed, setMode. cbn [mode]. discriminate.
    + split.
      * apply Forall_app. split; [exact Hs1 | constructor; [exact I | exact Hs3]].
      * intros Hi. apply Forall_app in Hi. destruct Hi as [_ Hi].
        inversion Hi as [|? ? Hn _]. discriminate Hn.
  - destruct (nth_error (jobs r) k) as [[closure| |tag|closure]|] eqn:Ek;
      try (split; assumption);
      destruct (nth_error_parts _ _ Ek) as (l1 & l2 & El & Erem & _);
      cbn [app jobs]; rewrite Erem; rewrite El in Hs, Hp;
      apply Forall_app in Hs; destruct Hs as [Hs1 Hs2];
      inversion Hs2 as [|? ? _ Hs3]; subst;
      (split; [apply Forall_app; split; assumption|]).
    + intros Hi. apply Forall_app in Hi. destruct Hi as [Hi1 Hi2].
      assert (Hst : packed (app r)).
      { apply Hp. apply Forall_app. split; [exact Hi1|].
        constructor; [reflexivity | exact Hi2]. }
      unfold packed, backdropLoaded in *. cbn [mode session buildItems sprites].
      exact Hst.
    + intros _. apply itemLoaded_packed.
  - cbn [app jobs]. split.
    + apply Forall_app. split; [exact Hs | repeat constructor].
    + intros _. unfold packed, uploadChosen. cbn [mode]. discriminate.
  - destruct (explodes confirmed (app r)) eqn:Ex; [|split; assumption].
    cbn [app jobs]. split.
    + apply Forall_app. split; [exact Hs|]. constructor; [|constructor].
      cbn [started]. unfold explodes in Ex.
      apply andb_true_iff in Ex. destruct Ex as [Ex _].
      apply negb_true_iff, orb_false_iff in Ex. destruct Ex as [_ Ex].
      destruct (sprites (session (app r))); [discriminate Ex | discriminate].
    + intros Hi. apply Forall_app in Hi. tauto.
  - destruct (nth_error (jobs r) k) as [[closure| |tag|closure]|] eqn:Ek;
      try (split; assumption).
    destruct (nth_error_parts _ _ Ek) as (l1 & l2 & El & Erem & _).
    cbn [app jobs]. rewrite Erem. rewrite El in Hs.
    apply Forall_app in Hs. destruct Hs as [Hs1 Hs2].
    inversion Hs2 as [|? ? Hstart Hs3]; subst.
    split; [apply Forall_app; split; assumption|].
    intros _. now apply sliced_packed.
  - cbn [app jobs]. split; [exact Hs|]. intros Hi. specialize (Hp Hi).
    unfold compositeDrawn.
    destruct (k <? List.length (pendingDraws (session (app r))))%nat; [|exact Hp].
    unfold packed in *. cbn [mode session buildItems sprites]. exact Hp.
  - cbn [app jobs]. split; [exact Hs|]. intros Hi.
    apply deleteSprite_packed. auto.
  - cbn [app jobs]. split; [exact Hs|]. intros Hi.
    apply handleTagChange_packed. auto.
  - cbn [app jobs]. split; [exact Hs|]. intros Hi.
    apply clearAll_packed. auto.
Qed.

Lemma run_steady (actions : list (Action Id Img)) : forall r : Running Id Img,
  steady r -> steady (run sameId actions r).
Proof.
  unfold run. induction actions as [|a actions IH]; intros r Hr; [exact Hr|].
  cbn [fold_left]. apply IH. now apply act_steady.
Qed.

End WithHandles.

(** X19 (paste handler, delete button, handleTagChange, explodeSprites,
    handleImageUpload, clearAll, and the composite that drawComposite
    installs).  The handlers that wait are taken step by step, with
    anything happening in between. Starting from the initial state, or
    from any state as good, and whatever is pasted, uploaded, deleted,
    renamed, exploded, cleared and drawn, in whatever order: whenever no
    pasted image that is to become a build item is still loading, the
    sprites in builder mode are the packing of the build items: as many,
    in the same order, with the same identifiers, names and sizes, and,
    the images having positive sizes, no two of them overlapping. While
    such an image loads this can fail: the mode is already [build] and
    the sprites are still those of analyze mode. *)
Theorem X19_builder_mode_is_packed
        (Id Img : Type) (sameId : Id -> Id -> bool)
        (actions : list (Action Id Img)) (r : Running Id Img) :
  steady r ->
  let r' := run sameId actions r in
  steady r'
  /\ (idle r' -> mode (app r') = build ->
      sprites (session (app r')) = newSprites (layout (buildItems (app r')))
      /\ inStep (app r')
      /\ (Forall (fun it => 0 < item_w it /\ 0 < item_h it) (buildItems (app r')) ->
          ForallOrdPairs (fun a b => overlap a b = false)
                         (sprites (session (app r'))))).
Proof.
  intros Hr r'.
  assert (Hs : steady r') by now apply run_steady.
  split; [exact Hs|]. intros Hi Em.
  destruct Hs as [_ Hp]. specialize (Hp Hi Em).
  split; [exact Hp|]. split.
  - unfold inStep. rewrite Hp. apply layout_frames.
  - intros Hpos. rewrite Hp, layout_sprites.
    assert (Hsz : Forall (@sized Id Img) (buildItems (app r'))).
    { eapply Forall_impl; [|exact Hpos]. unfold sized. intros it [? ?]. lia. }
    destruct (placeItems_shelf (maxWidth (totalArea (buildItems (app r'))))
                               startCursor Hsz)
      as (_ & _ & _ & _ & _ & _ & Hap & _); [simpl; lia | simpl; lia |].
    exact (ForallOrdPairs_map (fun a b => overlap a b = false) _ Hap).
Qed.

Lemma X19_builder_mode_is_packed_witness :
  let r' := run Nat.eqb ActionSamples.pastesRenameDelete (initial nat unit) in
  mode (app r') = build
  /\ jobs r' = []
  /\ imageSrc (app r') = Some "blob:sheet-3"
  /\ imageDimensions (session (app r')) = mkDimensions 102 50
  /\ map (fun s => (id s, name s, x s, y s, w s, h s)) (sprites (session (app r')))
     = [(1%nat, "logo", 0, 0, 100, 50)]
  /\ sprites (session (app r')) = newSprites (layout (buildItems (app r')))
  /\ inStep (app r').
Proof.
  cbv zeta.
  destruct (@X19_builder_mode_is_packed nat unit Nat.eqb
              ActionSamples.pastesRenameDelete (initial nat unit))
    as [_ H].
  - split; [constructor|]. intros _. unfold packed. discriminate.
  - pose proof (H ltac:(constructor) eq_refl) as (Hp & Hstep & _).
    do 5 (split; [reflexivity|]). split; [exact Hp | exact Hstep].
Defined.

(** While a pasted image loads, the mode is [build] and the sprites are
    those drawn in analyze mode: not the packing of the build items, of
    which there are none. *)
Lemma unpacked_while_loading :
  let r' := run Nat.eqb [PasteEvent; BitmapDecoded 0] ActionSamples.analysed in
  steady ActionSamples.analysed
  /\ mode (app r') = build
  /\ buildItems (app r') = []
  /\ sprites (session (app r')) = [mkSprite 7%nat "drawn" 0 0 10 10]
  /\ ~ idle r'.
Proof.
  cbv zeta. split; [|split; [|split; [|split]]]; try reflexivity.
  - split; [constructor|]. intros _. unfold packed. discriminate.
  - intros Hi. inversion Hi as [|? ? Hn _]. discriminate Hn.
Qed.

End ActionsFacts.
